(** * sboxgates: a shallow embedding of [sboxgates.c]

    The program searches for small gate networks computing the output bits
    of an 8-bit S-box.  This development models the truth-table
    primitives, the gate-adding helpers, the recursive synthesizer
    [create_circuit], the target generator, the loop of [main] and the
    two printing functions, and proves properties of them.

    Conventions.
    - [uint64_t] values are integers in [Z]; the wrap-around of C's
      unsigned arithmetic is written out with [wrap64].
    - A truth table ([ttable], an [__m256i]) is an integer whose bits
      0..255 are the 256 bits of the vector; lane [j] of the vector holds
      bits [64*j .. 64*j+63].
    - [state.gates] is the fixed array of [MAX_GATES] gate records, a list
      read with [gate_at] and written with stdpp's list insert.
    - A failing [assert] ends the program: it is the outcome [AssertFail].
    - The local [mux_out_or] of [create_circuit] has no initializer; the
      value read from it when it was never assigned is the parameter
      [mux_out_or_uninit] of the model, and the properties are proved for
      every value of it. *)

From Stdlib Require Import ZArith List Bool Lia Ascii.
From stdpp Require Import base list list_numbers strings pretty.
Import ListNotations.

#[local] Open Scope Z_scope.

(** ** Constants and types *)

Definition MAX_GATES : Z := 500.

(** [(uint64_t)-1]. *)
Definition NO_GATE : Z := 2 ^ 64 - 1.

Definition wrap64 (x : Z) : Z := x mod 2 ^ 64.

Inductive gate_type : Type := IN | NOT | AND | OR | XOR.

Definition gate_type_eqb (a b : gate_type) : bool :=
  match a, b with
  | IN, IN | NOT, NOT | AND, AND | OR, OR | XOR, XOR => true
  | _, _ => false
  end.

Definition ttable : Type := Z.

Record gate : Type := mkgate {
  type : gate_type;
  table : ttable;
  in1 : Z;   (* Input 1 to the gate. NO_GATE for the inputs. *)
  in2 : Z    (* Input 2 to the gate. NO_GATE for NOT gates and the inputs. *)
}.

Record state : Type := mkstate {
  max_gates : Z;
  num_gates : Z;        (* Current number of gates. *)
  outputs : list Z;     (* Gate number of the respective output gates, or NO_GATE. *)
  gates : list gate
}.

Definition g_sbox_enc : list Z := [
    0x9c; 0xf2; 0x14; 0xc1; 0x8e; 0xcb; 0xb2; 0x65; 0x97; 0x7a; 0x60; 0x17; 0x92; 0xf9; 0x78; 0x41;
    0x07; 0x4c; 0x67; 0x6d; 0x66; 0x4a; 0x30; 0x7d; 0x53; 0x9d; 0xb5; 0xbc; 0xc3; 0xca; 0xf1; 0x04;
    0x03; 0xec; 0xd0; 0x38; 0xb0; 0xed; 0xad; 0xc4; 0xdd; 0x56; 0x42; 0xbd; 0xa0; 0xde; 0x1b; 0x81;
    0x55; 0x44; 0x5a; 0xe4; 0x50; 0xdc; 0x43; 0x63; 0x09; 0x5c; 0x74; 0xcf; 0x0e; 0xab; 0x1d; 0x3d;
    0x6b; 0x02; 0x5d; 0x28; 0xe7; 0xc6; 0xee; 0xb4; 0xd9; 0x7c; 0x19; 0x3e; 0x5e; 0x6c; 0xd6; 0x6e;
    0x2a; 0x13; 0xa5; 0x08; 0xb9; 0x2d; 0xbb; 0xa2; 0xd4; 0x96; 0x39; 0xe0; 0xba; 0xd7; 0x82; 0x33;
    0x0d; 0x5f; 0x26; 0x16; 0xfe; 0x22; 0xaf; 0x00; 0x11; 0xc8; 0x9e; 0x88; 0x8b; 0xa1; 0x7b; 0x87;
    0x27; 0xe6; 0xc7; 0x94; 0xd1; 0x5b; 0x9b; 0xf0; 0x9f; 0xdb; 0xe1; 0x8d; 0xd2; 0x1f; 0x6a; 0x90;
    0xf4; 0x18; 0x91; 0x59; 0x01; 0xb1; 0xfc; 0x34; 0x3c; 0x37; 0x47; 0x29; 0xe2; 0x64; 0x69; 0x24;
    0x0a; 0x2f; 0x73; 0x71; 0xa9; 0x84; 0x8c; 0xa8; 0xa3; 0x3b; 0xe3; 0xe9; 0x58; 0x80; 0xa7; 0xd3;
    0xb7; 0xc2; 0x1c; 0x95; 0x1e; 0x4d; 0x4f; 0x4e; 0xfb; 0x76; 0xfd; 0x99; 0xc5; 0xc9; 0xe8; 0x2e;
    0x8a; 0xdf; 0xf5; 0x49; 0xf3; 0x6f; 0x8f; 0xe5; 0xeb; 0xf6; 0x25; 0xd5; 0x31; 0xc0; 0x57; 0x72;
    0xaa; 0x46; 0x68; 0x0b; 0x93; 0x89; 0x83; 0x70; 0xef; 0xa4; 0x85; 0xf8; 0x0f; 0xb3; 0xac; 0x10;
    0x62; 0xcc; 0x61; 0x40; 0xf7; 0xfa; 0x52; 0x7f; 0xff; 0x32; 0x45; 0x20; 0x79; 0xce; 0xea; 0xbe;
    0xcd; 0x15; 0x21; 0x23; 0xd8; 0xb6; 0x0c; 0x3f; 0x54; 0x1a; 0xbf; 0x98; 0x48; 0x3a; 0x75; 0x77;
    0x2b; 0xae; 0x36; 0xda; 0x7e; 0x86; 0x35; 0x51; 0x05; 0x12; 0xb8; 0xa6; 0x9a; 0x2c; 0x06; 0x4b].

(** ** Truth-table primitives *)

(** The 256-bit operators [~], [&], [|] and [^] of the vector type. *)
Definition tnot (a : ttable) : ttable := Z.land (Z.lnot a) (Z.ones 256).
Definition tand (a b : ttable) : ttable := Z.land a b.
Definition tor (a b : ttable) : ttable := Z.lor a b.
Definition txor (a b : ttable) : ttable := Z.lxor a b.

(** [_mm256_testz_si256(a, b)]: 1 iff [a & b] is all zero. *)
Definition testz (a b : ttable) : bool := Z.land a b =? 0.

(** Test two truth tables for equality. *)
Definition ttable_equals (in1 in2 : ttable) : bool :=
  let res := txor in1 in2 in
  testz res res.

(** Performs a masked test for equality. Only bits set to 1 in the mask
    will be tested. *)
Definition ttable_equals_mask (in1 in2 mask : ttable) : bool :=
  let res := tand (txor in1 in2) mask in
  testz res res.

(** [_mm256_loadu_si256] on an array of four 64-bit lanes, lane 0 lowest. *)
Definition load_lanes (vec : list Z) : ttable :=
  Z.lor (Z.lor (vec !!! 0%nat) (Z.shiftl (vec !!! 1%nat) 64))
        (Z.lor (Z.shiftl (vec !!! 2%nat) 128) (Z.shiftl (vec !!! 3%nat) 192)).

(** ** Target generation *)

(** One iteration of the loop of [generate_target]: [var] is the index of
    the lane the pointer [var] refers to. *)
Definition generate_target_step (bit : Z) (sbox : bool)
    (acc : list Z * nat) (i : Z) : list Z * nat :=
  let '(vec, var) := acc in
  let var := if i =? 64 then 1%nat
             else if i =? 128 then 2%nat
             else if i =? 192 then 3%nat
             else var in
  let v := Z.shiftr (vec !!! var) 1 in
  let src := if sbox then g_sbox_enc !!! Z.to_nat i else i in
  let v := Z.lor v (wrap64 (Z.shiftl (Z.land (Z.shiftr src bit) 1) 63)) in
  (<[var := v]> vec, var).

(** If sbox is true, a target truth table for the given bit of the sbox is
    generated.  If sbox is false, the truth table of the given input bit
    is generated. *)
Definition generate_target (bit : Z) (sbox : bool) : ttable :=
  let '(vec, _) :=
    fold_left (generate_target_step bit sbox) (seqZ 0 256) ([0; 0; 0; 0], 0%nat) in
  load_lanes vec.

(** [g_target[i] = generate_target(i, true)], filled in at the start of
    [main]. *)
Definition g_target : list ttable :=
  (fun i => generate_target i true) <$> seqZ 0 8.

(** ** Outcomes and the state monad of the gate-adding code *)

(** A call returns a value, stops the program on a failed [assert], or, in
    the fuel-indexed model of the recursion only, runs out of fuel. *)
Inductive outcome (A : Type) : Type :=
| Ret (a : A)
| AssertFail
| OutOfFuel.

Arguments Ret {A} a.
Arguments AssertFail {A}.
Arguments OutOfFuel {A}.

(** Code that works on a [state *st]. *)
Definition M (A : Type) : Type := state -> outcome (A * state).

Definition ret {A : Type} (a : A) : M A := fun st => Ret (a, st).

Definition bind {A B : Type} (m : M A) (f : A -> M B) : M B :=
  fun st =>
    match m st with
    | Ret (a, st') => f a st'
    | AssertFail => AssertFail
    | OutOfFuel => OutOfFuel
    end.

Notation "x <- m ;; k" := (bind m (fun x => k))
  (at level 100, m at next level, right associativity).

Definition assert (b : bool) : M unit :=
  fun st => if b then Ret (tt, st) else AssertFail.

Definition get_state : M state := fun st => Ret (st, st).

Definition put_state (st' : state) : M unit := fun _ => Ret (tt, st').

(** ** Reading and writing the gate array *)

(** A gate record of the zeroed array ([memset] to 0): the first
    enumerator, a zero table and zero inputs. *)
Definition zero_gate : gate := mkgate IN 0 0 0.

#[global] Instance gate_inhabited : Inhabited gate := populate zero_gate.

(** [st->gates[i]].  The array has [MAX_GATES] cells; the C program also
    evaluates [st->gates[NO_GATE].table] when a composer passes on a failed
    input, and then discards the value.  Such a read outside the array is
    modelled as reading a zeroed record. *)
Definition gate_at (st : state) (i : Z) : gate :=
  if (0 <=? i) && (i <? MAX_GATES) then gates st !!! Z.to_nat i else zero_gate.

(** [st->gates[i] = g].  A write outside the array (undefined in C) leaves
    the model's array as it is. *)
Definition set_gate (st : state) (i : Z) (g : gate) : state :=
  mkstate (max_gates st) (num_gates st) (outputs st)
          (if (0 <=? i) && (i <? MAX_GATES) then <[Z.to_nat i := g]> (gates st)
           else gates st).

Definition set_num_gates (st : state) (n : Z) : state :=
  mkstate (max_gates st) n (outputs st) (gates st).

Definition set_max_gates (st : state) (n : Z) : state :=
  mkstate n (num_gates st) (outputs st) (gates st).

Definition set_output (st : state) (o : Z) (g : Z) : state :=
  mkstate (max_gates st) (num_gates st) (<[Z.to_nat o := g]> (outputs st)) (gates st).

(** ** Adding gates *)

(** Adds a gate to the state st. Returns the gate id of the added gate. *)
Definition add_gate (type : gate_type) (table : ttable) (gid1 gid2 : Z) : M Z :=
  if (gid1 =? NO_GATE) || ((gid2 =? NO_GATE) && negb (gate_type_eqb type NOT))
  then ret NO_GATE
  else
    st <- get_state ;;
    _ <- assert (negb (gate_type_eqb type IN)) ;;
    _ <- assert (gid1 <? num_gates st) ;;
    _ <- assert ((gid2 <? num_gates st) || gate_type_eqb type NOT) ;;
    if num_gates st >=? max_gates st then ret NO_GATE
    else
      _ <- put_state (set_gate st (num_gates st) (mkgate type table gid1 gid2)) ;;
      st <- get_state ;;
      _ <- put_state (set_num_gates st (wrap64 (num_gates st + 1))) ;;
      st <- get_state ;;
      ret (wrap64 (num_gates st - 1)).

(** The functions below are all calls to add_gate above added to improve
    code readability. *)

Definition add_not_gate (gid : Z) : M Z :=
  fun st => add_gate NOT (tnot (table (gate_at st gid))) gid NO_GATE st.

Definition add_and_gate (gid1 gid2 : Z) : M Z :=
  fun st => add_gate AND (tand (table (gate_at st gid1)) (table (gate_at st gid2)))
                     gid1 gid2 st.

Definition add_or_gate (gid1 gid2 : Z) : M Z :=
  fun st => add_gate OR (tor (table (gate_at st gid1)) (table (gate_at st gid2)))
                     gid1 gid2 st.

Definition add_xor_gate (gid1 gid2 : Z) : M Z :=
  fun st => add_gate XOR (txor (table (gate_at st gid1)) (table (gate_at st gid2)))
                     gid1 gid2 st.

Definition add_nand_gate (gid1 gid2 : Z) : M Z :=
  g <- add_and_gate gid1 gid2 ;; add_not_gate g.

Definition add_nor_gate (gid1 gid2 : Z) : M Z :=
  g <- add_or_gate gid1 gid2 ;; add_not_gate g.

Definition add_xnor_gate (gid1 gid2 : Z) : M Z :=
  g <- add_xor_gate gid1 gid2 ;; add_not_gate g.

Definition add_or_not_gate (gid1 gid2 : Z) : M Z :=
  g <- add_not_gate gid1 ;; add_or_gate g gid2.

Definition add_and_not_gate (gid1 gid2 : Z) : M Z :=
  g <- add_not_gate gid1 ;; add_and_gate g gid2.

Definition add_or_3_gate (gid1 gid2 gid3 : Z) : M Z :=
  g <- add_or_gate gid1 gid2 ;; add_or_gate g gid3.

Definition add_and_3_gate (gid1 gid2 gid3 : Z) : M Z :=
  g <- add_and_gate gid1 gid2 ;; add_and_gate g gid3.

Definition add_xor_3_gate (gid1 gid2 gid3 : Z) : M Z :=
  g <- add_xor_gate gid1 gid2 ;; add_xor_gate g gid3.

Definition add_and_or_gate (gid1 gid2 gid3 : Z) : M Z :=
  g <- add_and_gate gid1 gid2 ;; add_or_gate g gid3.

Definition add_and_xor_gate (gid1 gid2 gid3 : Z) : M Z :=
  g <- add_and_gate gid1 gid2 ;; add_xor_gate g gid3.

Definition add_xor_or_gate (gid1 gid2 gid3 : Z) : M Z :=
  g <- add_xor_gate gid1 gid2 ;; add_or_gate g gid3.

Definition add_xor_and_gate (gid1 gid2 gid3 : Z) : M Z :=
  g <- add_xor_gate gid1 gid2 ;; add_and_gate g gid3.

Definition add_or_and_gate (gid1 gid2 gid3 : Z) : M Z :=
  g <- add_or_gate gid1 gid2 ;; add_and_gate g gid3.

Definition add_or_xor_gate (gid1 gid2 gid3 : Z) : M Z :=
  g <- add_or_gate gid1 gid2 ;; add_xor_gate g gid3.

(** ** The synthesizer *)

(** [for (uint64_t i = lo; i < hi; i++)]: the indices visited. *)
Definition for_range (lo hi : Z) : list Z := seqZ lo (hi - lo).

(** A loop whose body either returns from the function ([Some]) or falls
    through to the next iteration ([None]). *)
Fixpoint first_some {A B : Type} (f : A -> option B) (l : list A) : option B :=
  match l with
  | [] => None
  | x :: l' =>
      match f x with
      | Some b => Some b
      | None => first_some f l'
      end
  end.

(** A chain of [if (test(t)) return build;]: each entry pairs the table
    that is tested with the call made when the test succeeds. *)
Definition first_test (test : ttable -> bool) (tests : list (ttable * M Z)) : option (M Z) :=
  snd <$> find (fun c => test (fst c)) tests.

(** 1. Look through the existing circuit. If there is a gate that produces
    the desired map, simply return the ID of that gate. *)
Definition phase1 (st : state) (target mask : ttable) : option (M Z) :=
  ret <$> find (fun i => ttable_equals_mask target (table (gate_at st i)) mask)
               (for_range 0 (num_gates st)).

(** 2. If there are any gates whose inverse produces the desired map,
    append a NOT gate, and return the ID of the NOT gate. *)
Definition phase2 (st : state) (target mask : ttable) : option (M Z) :=
  add_not_gate <$> find (fun i => ttable_equals_mask target (tnot (table (gate_at st i))) mask)
                        (for_range 0 (num_gates st)).

(** 3. Look at all pairs of gates in the existing circuit. If they can be
    combined with a single gate to produce the desired map, add that
    single gate and return its ID. *)
Definition phase3_tests (ti tk : ttable) (i k : Z) : list (ttable * M Z) :=
  [ (tor ti tk, add_or_gate i k);
    (tand ti tk, add_and_gate i k);
    (txor ti tk, add_xor_gate i k) ].

Definition phase3 (st : state) (target mask : ttable) : option (M Z) :=
  let mtarget := tand target mask in
  first_some (fun i =>
    let ti := tand (table (gate_at st i)) mask in
    first_some (fun k =>
      let tk := tand (table (gate_at st k)) mask in
      first_test (ttable_equals mtarget) (phase3_tests ti tk i k))
      (for_range (i + 1) (num_gates st)))
    (for_range 0 (num_gates st)).

(** 4. Look at all combinations of two or three gates in the circuit. If
    they can be combined with two gates to produce the desired map, add
    the gates, and return the ID of the one that produces the desired
    map. *)
Definition phase4_tests (ti tk : ttable) (i k : Z) : list (ttable * M Z) :=
  [ (tnot (tor ti tk), add_nor_gate i k);
    (tnot (tand ti tk), add_nand_gate i k);
    (tnot (txor ti tk), add_xnor_gate i k);
    (tor (tnot ti) tk, add_or_not_gate i k);
    (tor (tnot tk) ti, add_or_not_gate k i);
    (tand (tnot ti) tk, add_and_not_gate i k);
    (tand (tnot tk) ti, add_and_not_gate k i) ].

Definition phase4 (st : state) (target mask : ttable) : option (M Z) :=
  first_some (fun i =>
    let ti := table (gate_at st i) in
    first_some (fun k =>
      let tk := table (gate_at st k) in
      first_test (fun t => ttable_equals_mask target t mask) (phase4_tests ti tk i k))
      (for_range (i + 1) (num_gates st)))
    (for_range 0 (num_gates st)).

(** The tests made for one triple [i < k < m], in the order of the source
    (the second loop nest of step 4). *)
Definition phase5_tests (ti tk tm : ttable) (i k m : Z) : list (ttable * M Z) :=
  let iandk := tand ti tk in
  let iork := tor ti tk in
  let ixork := txor ti tk in
  let iandm := tand ti tm in
  let kandm := tand tk tm in
  let ixorm := txor ti tm in
  let kxorm := txor tk tm in
  let iorm := tor ti tm in
  let korm := tor tk tm in
  [ (tand iandk tm, add_and_3_gate i k m);
    (tor iandk tm, add_and_or_gate i k m);
    (txor iandk tm, add_and_xor_gate i k m);
    (tor iork tm, add_or_3_gate i k m);
    (tand iork tm, add_or_and_gate i k m);
    (txor iork tm, add_or_xor_gate i k m);
    (txor ixork tm, add_xor_3_gate i k m);
    (tor ixork tm, add_xor_or_gate i k m);
    (tand ixork tm, add_xor_and_gate i k m);
    (tor iandm tk, add_and_or_gate i m k);
    (txor iandm tk, add_and_xor_gate i m k);
    (tor kandm ti, add_and_or_gate k m i);
    (txor kandm ti, add_and_xor_gate k m i);
    (tor ixorm tk, add_xor_or_gate i m k);
    (tand ixorm tk, add_xor_and_gate i m k);
    (tor kxorm ti, add_xor_or_gate k m i);
    (tand kxorm ti, add_xor_and_gate k m i);
    (tand iorm tk, add_or_and_gate i m k);
    (txor iorm tk, add_or_xor_gate i m k);
    (tand korm ti, add_or_and_gate k m i);
    (txor korm ti, add_or_xor_gate k m i) ].

Definition phase5 (st : state) (target mask : ttable) : option (M Z) :=
  let mtarget := tand target mask in
  first_some (fun i =>
    let ti := tand (table (gate_at st i)) mask in
    first_some (fun k =>
      let tk := tand (table (gate_at st k)) mask in
      first_some (fun m =>
        let tm := tand (table (gate_at st m)) mask in
        first_test (ttable_equals mtarget) (phase5_tests ti tk tm i k m))
        (for_range (k + 1) (num_gates st)))
      (for_range (i + 1) (num_gates st)))
    (for_range 0 (num_gates st)).

(** The part of [create_circuit] before the recursion: the first of the
    five searches that finds a match decides what is returned. *)
Definition phases_1_5 (st : state) (target mask : ttable) : option (M Z) :=
  match phase1 st target mask with
  | Some m => Some m
  | None =>
  match phase2 st target mask with
  | Some m => Some m
  | None =>
  match phase3 st target mask with
  | Some m => Some m
  | None =>
  match phase4 st target mask with
  | Some m => Some m
  | None => phase5 st target mask
  end end end end.

(** [int8_t] arrays of used input bits; [inbits[i]]. *)
Definition inbit (inbits : list Z) (i : Z) : Z := inbits !!! Z.to_nat i.

(** The loop [while (bitp < 6 && inbits[bitp] != -1)] that copies the used
    bits to [next_inbits]; at most six iterations. *)
Fixpoint copy_inbits (n : nat) (inbits next_inbits : list Z) (bitp : Z) : list Z * Z :=
  match n with
  | O => (next_inbits, bitp)
  | S n' =>
      if (bitp <? 6) && negb (inbit inbits bitp =? -1)
      then copy_inbits n' inbits (<[Z.to_nat bitp := inbit inbits bitp]> next_inbits) (bitp + 1)
      else (next_inbits, bitp)
  end.

(** The local array [int8_t next_inbits[8]] before anything is stored in
    it.  Only the cells written by [create_circuit] are ever read. *)
Definition next_inbits_uninit : list Z := replicate 8 0.

(** [state best; best.num_gates = 0;] -- only [num_gates] is set; the other
    fields are not read while [num_gates] is 0. *)
Definition best_init : state := mkstate 0 0 [] [].

Section Synthesizer.

(** The value read from the local [mux_out_or] when it was never
    assigned: the source declares it without an initializer and assigns
    it only when [fd != NO_GATE]. *)
Variable mux_out_or_uninit : Z.

Section Split.

(** The recursive calls of step 5. *)
Variable create_circuit_rec : ttable -> ttable -> list Z -> M Z.

(** New state using AND multiplexer. Returns [mux_out_and]; the state
    it runs on is the copy [nst_and]. *)
Definition mux_and (target mask fsel : ttable) (next_inbits : list Z) (bit : Z) : M Z :=
  fb <- create_circuit_rec (tand target (tnot fsel)) (tand mask (tnot fsel)) next_inbits ;;
  if negb (fb =? NO_GATE) then
    nst_and <- get_state ;;
    fc <- create_circuit_rec (txor (table (gate_at nst_and fb)) target) (tand mask fsel)
                             next_inbits ;;
    andg <- add_and_gate fc bit ;;
    add_xor_gate fb andg
  else ret NO_GATE.

(** New state using OR multiplexer. Returns [mux_out_or]; the state
    it runs on is the copy [nst_or]. *)
Definition mux_or (target mask fsel : ttable) (next_inbits : list Z) (bit : Z) : M Z :=
  fd <- create_circuit_rec (tand (tnot target) fsel) (tand mask fsel) next_inbits ;;
  if negb (fd =? NO_GATE) then
    nst_or <- get_state ;;
    fe <- create_circuit_rec (txor (table (gate_at nst_or fd)) target)
                             (tand mask (tnot fsel)) next_inbits ;;
    org <- add_or_gate fe bit ;;
    add_xor_gate fd org
  else ret mux_out_or_uninit.

(** The choice between the two multiplexers (the [if] that fills
    [nst] and [mux_out]). *)
Definition mux_select (mux_out_and : Z) (nst_and : state) (mux_out_or : Z) (nst_or : state)
    : state * Z :=
  if (mux_out_or =? NO_GATE)
     || (negb (mux_out_and =? NO_GATE) && (num_gates nst_and <? num_gates nst_or))
  then (nst_and, mux_out_and)
  else (nst_or, mux_out_or).

(** One iteration of the loop over the input bits: the new value of
    [best]. *)
Definition split_on_bit (st : state) (target mask : ttable) (inbits next_inbits : list Z)
    (bitp : Z) (best : state) (bit : Z) : outcome state :=
  (* Check if the current bit number has already been used for selection. *)
  if existsb (fun i => inbit inbits i =? bit) (for_range 0 bitp) then Ret best
  else
    let next_inbits := <[Z.to_nat bitp := bit]> next_inbits in
    let fsel := table (gate_at st bit) in (* Selection bit. *)
    match mux_and target mask fsel next_inbits bit st with
    | Ret (mux_out_and, nst_and) =>
        match mux_or target mask fsel next_inbits bit st with
        | Ret (mux_out_or, nst_or) =>
            if (mux_out_and =? NO_GATE) && (mux_out_or =? NO_GATE) then Ret best
            else
              let '(nst, mux_out) := mux_select mux_out_and nst_and mux_out_or nst_or in
              if ttable_equals_mask target (table (gate_at nst mux_out)) mask then
                Ret (if (num_gates best =? 0) || (num_gates nst <? num_gates best)
                     then nst else best)
              else AssertFail
        | AssertFail => AssertFail
        | OutOfFuel => OutOfFuel
        end
    | AssertFail => AssertFail
    | OutOfFuel => OutOfFuel
    end.

(** Try all input bit orders. *)
Fixpoint split_loop (st : state) (target mask : ttable) (inbits next_inbits : list Z)
    (bitp : Z) (best : state) (bits : list Z) : outcome state :=
  match bits with
  | [] => Ret best
  | bit :: bits' =>
      match split_on_bit st target mask inbits next_inbits bitp best bit with
      | Ret best' => split_loop st target mask inbits next_inbits bitp best' bits'
      | AssertFail => AssertFail
      | OutOfFuel => OutOfFuel
      end
  end.

(** 5. Use the specified input bit to select between two Karnaugh maps.
    Call this function recursively to generate those two maps. *)
Definition split (target mask : ttable) (inbits : list Z) : M Z :=
  fun st =>
    (* Copy input bits already used to new array to avoid modifying the old one. *)
    let '(next_inbits, bitp) := copy_inbits 6 inbits next_inbits_uninit 0 in
    if negb (bitp <? 6) then AssertFail
    else
      let next_inbits := <[Z.to_nat bitp := -1]> next_inbits in
      let next_inbits := <[Z.to_nat (bitp + 1) := -1]> next_inbits in
      match split_loop st target mask inbits next_inbits bitp best_init (for_range 0 8) with
      | Ret best =>
          if num_gates best =? 0 then Ret (NO_GATE, st)
          else Ret (wrap64 (num_gates best - 1), best)
      | AssertFail => AssertFail
      | OutOfFuel => OutOfFuel
      end.

End Split.

(** [create_circuit], with the depth of the recursion bounded by [fuel]. *)
Fixpoint create_circuit_fuel (fuel : nat) (target mask : ttable) (inbits : list Z) : M Z :=
  match fuel with
  | O => fun _ => OutOfFuel
  | S fuel' =>
      fun st =>
        match phases_1_5 st target mask with
        | Some m => m st
        | None => split (create_circuit_fuel fuel') target mask inbits st
        end
  end.

(** Every call uses one more cell of [inbits] than its caller and stops at
    six used cells, so seven levels are enough (see
    [create_circuit_fuel_enough]). *)
Definition create_circuit (target mask : ttable) (inbits : list Z) : M Z :=
  create_circuit_fuel 7 target mask inbits.

End Synthesizer.

(** ** The driver *)

(** The state built by [main] when there are no command line arguments:
    the eight input bits. *)
Definition initial_state : state :=
  let st := mkstate MAX_GATES 8 (replicate 8 0) (replicate (Z.to_nat MAX_GATES) zero_gate) in
  fold_left (fun st i =>
      set_output (set_gate st i (mkgate IN (generate_target i false) NO_GATE NO_GATE)) i NO_GATE)
    (for_range 0 8) st.

(** The state [main] starts from when it is given a state file: the
    record read from the file, with [max_gates] set to [MAX_GATES]. *)
Definition state_from_file (contents : state) : state :=
  set_max_gates contents MAX_GATES.

Definition full_mask : ttable :=
  load_lanes [wrap64 (-1); wrap64 (-1); wrap64 (-1); wrap64 (-1)].

(** What [save_state] is called with: the three fields formatted into the
    file name ["%d-%03llu-%s.state"] and the state written. *)
Record saved_state : Type := mksaved {
  saved_num_outputs : Z;
  saved_gate_count : Z;      (* st.num_gates - 7 *)
  saved_out : list Z;        (* the digits of the assigned outputs *)
  saved_st : state
}.

(** The body of the loop over the outputs: the new [default_state] and the
    files saved. *)
Definition main_loop_body (mux_out_or_uninit : Z) (default_state : state) (output : Z)
    : outcome (state * list saved_state) :=
  if negb (outputs default_state !!! Z.to_nat output =? NO_GATE) then
    Ret (default_state, [])                       (* Skipping output *)
  else
    let bits := replicate 8 (-1) in
    let st := default_state in
    match create_circuit mux_out_or_uninit (g_target !!! Z.to_nat output) full_mask bits st with
    | Ret (r, st) =>
        let st := set_output st output r in
        if outputs st !!! Z.to_nat output =? NO_GATE then
          Ret (default_state, [])                 (* No solution for output *)
        else if negb (ttable_equals (g_target !!! Z.to_nat output)
                        (table (gate_at st (outputs st !!! Z.to_nat output))))
        then AssertFail
        else
          let assigned := filter (fun i => negb (outputs st !!! Z.to_nat i =? NO_GATE))
                                 (for_range 0 8) in
          let num_outputs := Z.of_nat (length assigned) in
          let file := mksaved num_outputs (wrap64 (num_gates st - 7)) assigned st in
          let default_state :=
            if max_gates default_state >? num_gates st
            then set_max_gates default_state (num_gates st)
            else default_state in
          Ret (default_state, [file])
    | AssertFail => AssertFail
    | OutOfFuel => OutOfFuel
    end.

(** [for (uint8_t output = 0; output < 8; output++)]. *)
Fixpoint main_loop (mux_out_or_uninit : Z) (default_state : state) (todo : list Z)
    : outcome (state * list saved_state) :=
  match todo with
  | [] => Ret (default_state, [])
  | output :: todo' =>
      match main_loop_body mux_out_or_uninit default_state output with
      | Ret (default_state', files) =>
          match main_loop mux_out_or_uninit default_state' todo' with
          | Ret (final, files') => Ret (final, files ++ files')
          | AssertFail => AssertFail
          | OutOfFuel => OutOfFuel
          end
      | AssertFail => AssertFail
      | OutOfFuel => OutOfFuel
      end
  end.

(** ** Printing *)

(** The newline and the double quote of the format strings. *)
Definition newline : string := String "010"%char EmptyString.

Definition dquote : string := String "034"%char EmptyString.

(** [_mm256_storeu_si256] into an array of four 64-bit lanes, lane 0
    lowest. *)
Definition store_lanes (tbl : ttable) : list Z :=
  [ wrap64 tbl; wrap64 (Z.shiftr tbl 64); wrap64 (Z.shiftr tbl 128);
    wrap64 (Z.shiftr tbl 192) ].

(** One iteration of the loop of [print_ttable]: [out] is the text printed
    so far, [var] the index of the lane the pointer [var] refers to. *)
Definition print_ttable_step (vec : list Z) (acc : string * nat) (i : Z) : string * nat :=
  let '(out, var) := acc in
  let var := if i =? 64 then 1%nat
             else if i =? 128 then 2%nat
             else if i =? 192 then 3%nat
             else var in
  let out := if negb (i =? 0) && (i mod 16 =? 0) then out +:+ newline else out in
  let out := out +:+ pretty (Z.land (Z.shiftr (vec !!! var) (i mod 64)) 1) in
  (out, var).

(** Prints a truth table to the console. Used for debugging.  The result
    is the text printed. *)
Definition print_ttable (tbl : ttable) : string :=
  let vec := store_lanes tbl in
  let '(out, _) :=
    fold_left (print_ttable_step vec) (seqZ 0 256) (EmptyString, 0%nat) in
  out +:+ newline.

(** The label of gate [gt]; for an input gate it is the text [sprintf]
    writes to [buf] (ten bytes in the source, which is enough for the gate
    numbers below 1000000). *)
Definition gate_label (st : state) (gt : Z) : string :=
  match type (gate_at st gt) with
  | IN => "IN " +:+ pretty gt
  | NOT => "NOT"
  | AND => "AND"
  | OR => "OR"
  | XOR => "XOR"
  end.

(** The texts of the three [printf] calls with arguments. *)
Definition node_line (st : state) (gt : Z) : string :=
  "  gt" +:+ pretty gt +:+ " [label=" +:+ dquote +:+ gate_label st gt +:+ dquote
  +:+ "];" +:+ newline.

Definition edge_line (src dst : Z) : string :=
  "  gt" +:+ pretty src +:+ " -> gt" +:+ pretty dst +:+ ";" +:+ newline.

Definition out_line (src i : Z) : string :=
  "  gt" +:+ pretty src +:+ " -> out" +:+ pretty i +:+ ";" +:+ newline.

(** The lines printed for gate [gt] by the second loop: one for each
    input that is not [NO_GATE]. *)
Definition gate_edges (st : state) (gt : Z) : list string :=
  let g := gate_at st gt in
  (if negb (in1 g =? NO_GATE) then [edge_line (in1 g) gt] else [])
  ++ (if negb (in2 g =? NO_GATE) then [edge_line (in2 g) gt] else []).

(** Prints the given state gate network to stdout in Graphviz dot format.
    The result is the list of the texts printed, one for each call of
    [printf]. *)
Definition print_digraph (st : state) : list string :=
  ["digraph sbox {" +:+ newline]
  ++ (node_line st <$> for_range 0 (num_gates st))
  ++ concat (gate_edges st <$> for_range 0 (num_gates st))
  ++ concat ((fun i => if negb (outputs st !!! Z.to_nat i =? NO_GATE)
                       then [out_line (outputs st !!! Z.to_nat i) i]
                       else [])
             <$> for_range 0 8)
  ++ ["}" +:+ newline].

(** * Vocabulary of the statements *)

(** Bit [i] of a truth table: the value of the function on the input whose
    binary representation is [i]. *)
Definition tbit (t : ttable) (i : Z) : bool := Z.testbit t i.


(** ** Checking the generated targets *)

(** The source of bit [i] of a target: the S-box entry or the index
    itself. *)
Definition target_source (sbox : bool) (i : Z) : Z :=
  if sbox then g_sbox_enc !!! Z.to_nat i else i.

(** The check of one bit position [b]: both targets and the table of input
    gate [b], at every index. *)
Definition generate_target_check (b : Z) : bool :=
  let t1 := generate_target b true in
  let t0 := generate_target b false in
  let g := gate_at initial_state b in
  let tg := table g in
  gate_type_eqb (type g) IN
  && forallb (fun i =>
       (Z.b2z (Z.testbit t1 i) =? Z.land (Z.shiftr (target_source true i) b) 1)
       && (Z.b2z (Z.testbit t0 i) =? Z.land (Z.shiftr (target_source false i) b) 1)
       && Bool.eqb (Z.testbit tg i) (Z.testbit i b))
     (for_range 0 256).

(** ** Gate adding *)

(** A required input of the new gate is [NO_GATE]. *)
Definition input_missing (ty : gate_type) (gid1 gid2 : Z) : Prop :=
  gid1 = NO_GATE \/ (gid2 = NO_GATE /\ ty <> NOT).

(** The three assertions of [add_gate]. *)
Definition add_gate_asserts (st : state) (ty : gate_type) (gid1 gid2 : Z) : Prop :=
  ty <> IN /\ gid1 < num_gates st /\ (gid2 < num_gates st \/ ty = NOT).

(** The state with one more gate [g], stored in the first free cell. *)
Definition push_gate (st : state) (g : gate) : state :=
  set_num_gates (set_gate st (num_gates st) g) (num_gates st + 1).

(** ** Counting the tests of a chain *)

(** The number of tests of a chain that are evaluated: all of them when
    none succeeds, else those up to the first success. *)
Fixpoint tests_made (test : ttable -> bool) (tests : list (ttable * M Z)) : nat :=
  match tests with
  | [] => 0
  | c :: tests' => if test (fst c) then 1 else S (tests_made test tests')
  end.

(** The 27 ways to combine three tables with two operators out of AND, OR
    and XOR: a pair is combined first, then the third table is added. *)
Definition compositions (ti tk tm : ttable) : list ttable :=
  flat_map (fun '(a, b, c) =>
    flat_map (fun op1 : ttable -> ttable -> ttable =>
      map (fun op2 : ttable -> ttable -> ttable => op2 (op1 a b) c) [tand; tor; txor])
      [tand; tor; txor])
    [(ti, tk, tm); (ti, tm, tk); (tk, tm, ti)].

(** The tables of the first three input gates. *)
Definition x0 : ttable := generate_target 0 false.
Definition x1 : ttable := generate_target 1 false.
Definition x2 : ttable := generate_target 2 false.

Fixpoint nodupb (l : list Z) : bool :=
  match l with
  | [] => true
  | x :: l' => negb (existsb (Z.eqb x) l') && nodupb l'
  end.

(** ** The split *)

(** [bitp] after the copy loop: the number of input bits already used. *)
Definition used_bits (inbits : list Z) : Z :=
  snd (copy_inbits 6 inbits next_inbits_uninit 0).

(** No input bit used yet, as [main] passes it. *)
Definition no_inbits : list Z := replicate 8 (-1).

(** Six input bits used. *)
Definition six_inbits : list Z := [0; 1; 2; 3; 4; 5; -1; -1].

(** [next_inbits] in a first-level call that splits on input bit 0. *)
Definition next_inbits_bit0 : list Z :=
  <[0%nat := 0]> (<[1%nat := -1]> (<[0%nat := -1]> next_inbits_uninit)).

(** ** Well-formed states and what a call may do to a state *)

(** A truth table has 256 bits. *)
Definition is_ttable (t : ttable) : Prop := 0 <= t < 2 ^ 256.

(** The states the program works with: the gate array has [MAX_GATES]
    cells, the eight inputs are there, the gate count is within the budget
    and the budget within the array, and the cells from [num_gates] on are
    as [memset] left them. *)
Record state_ok (st : state) : Prop := mk_state_ok {
  ok_length : length (gates st) = Z.to_nat MAX_GATES;
  ok_inputs : 8 <= num_gates st;
  ok_budget : num_gates st <= max_gates st;
  ok_max : max_gates st <= MAX_GATES;
  ok_clean : forall i, num_gates st <= i -> gate_at st i = zero_gate
}.

(** [st'] is [st] with zero or more gates appended. *)
Definition state_ext (st st' : state) : Prop :=
  max_gates st' = max_gates st
  /\ outputs st' = outputs st
  /\ num_gates st <= num_gates st'
  /\ forall i, i < num_gates st -> gate_at st' i = gate_at st i.

(** Gate [r] of [st'] has the table [target] on the bits of [mask]. *)
Definition matches (target mask : ttable) (st' : state) (r : Z) : Prop :=
  0 <= r < num_gates st'
  /\ ttable_equals_mask target (table (gate_at st' r)) mask = true.

(** No gate of [st] has the table [target] on the bits of [mask]. *)
Definition no_match (st : state) (target mask : ttable) : Prop :=
  forall i, 0 <= i < num_gates st ->
    ttable_equals_mask target (table (gate_at st i)) mask = false.

(** Tables one gate away from the gates of [st]: the inverse of a gate, or
    the AND, OR or XOR of two different gates. *)
Definition derived (st : state) (t : ttable) : Prop :=
  (exists i, 0 <= i < num_gates st /\ t = tnot (table (gate_at st i)))
  \/ (exists i k, 0 <= i < k /\ k < num_gates st
        /\ (t = tand (table (gate_at st i)) (table (gate_at st k))
            \/ t = tor (table (gate_at st i)) (table (gate_at st k))
            \/ t = txor (table (gate_at st i)) (table (gate_at st k)))).

(** What a call that returns [NO_GATE] may leave behind: nothing, or the
    first gate of a two-gate construction whose second gate did not fit. *)
Definition leftover (st st' : state) : Prop :=
  st' = st
  \/ exists g, st' = push_gate st g /\ num_gates st < max_gates st
               /\ derived st (table g).

(** A gate-adding call that either fails, returning [NO_GATE], or appends
    gates the last of which has table [t] and is returned. *)
Definition builds (m : M Z) (st : state) (t : ttable) : Prop :=
  exists r st',
    m st = Ret (r, st')
    /\ state_ok st' /\ state_ext st st'
    /\ ((r = NO_GATE /\ leftover st st')
        \/ (r <> NO_GATE /\ num_gates st < num_gates st'
            /\ r = num_gates st' - 1 /\ table (gate_at st' r) = t)).

(** The contract of [create_circuit] for a call that returns. *)
Definition create_circuit_post (st : state) (target mask : ttable) (r : Z) (st' : state)
    : Prop :=
  state_ok st' /\ state_ext st st'
  /\ (r = NO_GATE -> leftover st st' /\ no_match st target mask)
  /\ (r <> NO_GATE ->
      matches target mask st' r
      /\ ((r < num_gates st /\ st' = st)
          \/ (num_gates st < num_gates st' /\ r = num_gates st' - 1))).

(** The binary gate kinds with their operators. *)
Definition binary_op (ty : gate_type) (op : ttable -> ttable -> ttable) : Prop :=
  (ty = AND /\ op = tand) \/ (ty = OR /\ op = tor) \/ (ty = XOR /\ op = txor).

(** [add_and_gate], [add_or_gate] and [add_xor_gate] in one. *)
Definition add_binary_gate (ty : gate_type) (op : ttable -> ttable -> ttable)
    (gid1 gid2 : Z) : M Z :=
  fun st => add_gate ty (op (table (gate_at st gid1)) (table (gate_at st gid2)))
                     gid1 gid2 st.

(** The bits of a mask above the 256 of a truth table are clear. *)
Definition high_clear (mask : ttable) : Prop :=
  forall j, 256 <= j -> tbit mask j = false.

(** A state that may replace [best]: the gates of [st] with new gates
    appended, the last of which computes the target on the mask. *)
Definition candidate_ok (st : state) (target mask : ttable) (nst : state) : Prop :=
  state_ok nst /\ state_ext st nst /\ num_gates st < num_gates nst
  /\ ttable_equals_mask target (table (gate_at nst (num_gates nst - 1))) mask = true.

(** [best] during the loop over the input bits: still as initialised, or a
    candidate. *)
Definition best_ok (st : state) (target mask : ttable) (best : state) : Prop :=
  best = best_init \/ candidate_ok st target mask best.

(** ** The states the program works on *)

(** The states met by a run that starts without arguments: the state
    built by [main], and what [add_gate], [create_circuit] (with the two
    copies it makes for the multiplexers) and the loop of [main] make of
    such a state. *)
Inductive reachable (u : Z) : state -> Prop :=
| reach_initial : reachable u initial_state
| reach_add_gate st ty t g1 g2 r st' :
    reachable u st -> add_gate ty t g1 g2 st = Ret (r, st') -> reachable u st'
| reach_create_circuit st fuel target mask inbits r st' :
    reachable u st -> is_ttable mask ->
    create_circuit_fuel u fuel target mask inbits st = Ret (r, st') ->
    reachable u st'
| reach_mux_and st fuel target mask next bit a nst_and :
    reachable u st -> is_ttable mask -> 0 <= bit < 8 ->
    mux_and (create_circuit_fuel u fuel) target mask (table (gate_at st bit)) next bit st
      = Ret (a, nst_and) ->
    reachable u nst_and
| reach_mux_or st fuel target mask next bit o nst_or :
    reachable u st -> is_ttable mask -> 0 <= bit < 8 ->
    mux_or u (create_circuit_fuel u fuel) target mask (table (gate_at st bit)) next bit st
      = Ret (o, nst_or) ->
    reachable u nst_or
| reach_set_output st o g :
    reachable u st -> reachable u (set_output st o g)
| reach_main_loop_body st output st' files :
    reachable u st -> main_loop_body u st output = Ret (st', files) ->
    reachable u st'.

(** ** Concrete runs *)

(** A state as [main] may load it from a file: the eight inputs and a
    ninth gate record whose table is the inverse of the target of output
    bit 0. *)
Definition loaded_state : state :=
  state_from_file
    (push_gate initial_state (mkgate XOR (tnot (g_target !!! 0%nat)) 0 1)).

(** The state of the eight inputs with no room for a further gate. *)
Definition exhausted_state : state := set_max_gates initial_state 8.

Definition x3 : ttable := generate_target 3 false.
Definition x4 : ttable := generate_target 4 false.

(** A target that no search of steps 1 to 4 finds: NAND of inputs 1 and 2
    where input 0 is set, AND of inputs 3 and 4 where it is clear. *)
Definition split_target : ttable :=
  tor (tand x0 (tnot (tand x1 x2))) (tand (tnot x0) (tand x3 x4)).

(** ** Calls as [main] makes them *)

(** The first eight gates have the tables of the input variables. *)
Definition inputs_ok (st : state) : Prop :=
  forall p k, 0 <= p < 8 -> 0 <= k < 256 ->
    tbit (table (gate_at st p)) k = Z.testbit k p.

(** The mask fits the used bits: on the indices of the mask every used
    input bit has one value, the used bits are input bits, and [free]
    lists the input bits that are not used. *)
Definition mask_fits (inbits : list Z) (mask : ttable) : Prop :=
  high_clear mask
  /\ (forall j, 0 <= j < used_bits inbits ->
        0 <= inbit inbits j < 8
        /\ exists v : bool,
             forall k, tbit mask k = true -> Z.testbit k (inbit inbits j) = v)
  /\ exists free : list Z,
       Z.of_nat (length free) + used_bits inbits <= 8
       /\ (forall p, In p free -> 0 <= p < 8)
       /\ forall p, 0 <= p < 8 ->
            In p free \/ exists j, 0 <= j < used_bits inbits /\ inbit inbits j = p.

(** ** Gate networks *)

(** Gate [i] of [st] is wired as its kind says.  An input gate is one of
    the first eight, has no inputs and holds the table of input bit [i].
    A NOT gate has one input, an earlier gate, and the inverse of its
    table; an AND, OR or XOR gate has two inputs, earlier gates, and the
    AND, OR or XOR of their tables. *)
Definition gate_wired (st : state) (i : Z) : Prop :=
  let g := gate_at st i in
  is_ttable (table g)
  /\ match type g with
     | IN =>
         0 <= i < 8 /\ in1 g = NO_GATE /\ in2 g = NO_GATE
         /\ forall x, 0 <= x < 256 -> tbit (table g) x = Z.testbit x i
     | NOT =>
         0 <= in1 g < i /\ in2 g = NO_GATE
         /\ table g = tnot (table (gate_at st (in1 g)))
     | AND =>
         0 <= in1 g < i /\ 0 <= in2 g < i
         /\ table g = tand (table (gate_at st (in1 g))) (table (gate_at st (in2 g)))
     | OR =>
         0 <= in1 g < i /\ 0 <= in2 g < i
         /\ table g = tor (table (gate_at st (in1 g))) (table (gate_at st (in2 g)))
     | XOR =>
         0 <= in1 g < i /\ 0 <= in2 g < i
         /\ table g = txor (table (gate_at st (in1 g))) (table (gate_at st (in2 g)))
     end.

(** Every gate of the state is wired. *)
Definition wired (st : state) : Prop :=
  forall i, 0 <= i < num_gates st -> gate_wired st i.

(** The gate-adding calls the searches choose from, with the number of
    gates they add at most: returning an existing gate, one of the four
    single-gate calls, and one call applied to the result of another. *)
Inductive composer : Z -> M Z -> Prop :=
| composer_ret i : 0 <= i -> composer 0 (ret i)
| composer_not a : 0 <= a -> composer 1 (add_not_gate a)
| composer_binary ty op a b :
    binary_op ty op -> 0 <= a -> 0 <= b -> composer 1 (add_binary_gate ty op a b)
| composer_bind n1 n2 m f :
    composer n1 m -> (forall g, 0 <= g -> composer n2 (f g)) ->
    composer (n1 + n2) (bind m f).

(** The value of gate [i] of the network on the input byte [x]: an input
    gate reads bit [i] of [x], any other gate applies its operator to the
    values of its input gates.  [n] bounds the depth of the evaluation. *)
Fixpoint eval_gate (n : nat) (st : state) (x : Z) (i : Z) : bool :=
  match n with
  | O => false
  | S n' =>
      let g := gate_at st i in
      match type g with
      | IN => Z.testbit x i
      | NOT => negb (eval_gate n' st x (in1 g))
      | AND => eval_gate n' st x (in1 g) && eval_gate n' st x (in2 g)
      | OR => eval_gate n' st x (in1 g) || eval_gate n' st x (in2 g)
      | XOR => xorb (eval_gate n' st x (in1 g)) (eval_gate n' st x (in2 g))
      end
  end.

(** In a wired network the inputs of a gate are earlier gates, so a depth
    of [num_gates] is enough. *)
Definition circuit_value (st : state) (x : Z) (i : Z) : bool :=
  eval_gate (Z.to_nat (num_gates st)) st x i.

(** ** The lanes of a target *)

(** The four lanes stay 64-bit values during the loop of
    [generate_target], and [var] stays inside the array. *)
Definition lanes_ok (acc : list Z * nat) : Prop :=
  length (fst acc) = 4%nat /\ (snd acc < 4)%nat
  /\ forall j, (j < 4)%nat -> 0 <= fst acc !!! j < 2 ^ 64.

(** ** What a saved state holds *)

(** The network of [st] computes output bit [o] of the S-box at the gate
    recorded in [outputs[o]]: on every input byte [x] the value of that
    gate is bit [o] of the S-box entry of [x]. *)
Definition computes_sbox_bit (st : state) (o : Z) : Prop :=
  let r := outputs st !!! Z.to_nat o in
  0 <= r < num_gates st
  /\ forall x, 0 <= x < 256 ->
       circuit_value st x r = Z.testbit (g_sbox_enc !!! Z.to_nat x) o.

(** The outputs of [st] that are assigned, as [main] lists them for the
    file name. *)
Definition assigned_outputs (st : state) : list Z :=
  filter (fun i => negb (outputs st !!! Z.to_nat i =? NO_GATE)) (for_range 0 8).

(** A saved file for output bit [o]: its state is a well-formed, wired
    network, [o] is among the outputs listed in the file name, and the
    network computes output bit [o] of the S-box. *)
Definition saved_for (f : saved_state) (o : Z) : Prop :=
  state_ok (saved_st f) /\ wired (saved_st f)
  /\ In o (saved_out f)
  /\ computes_sbox_bit (saved_st f) o.

(** The fields of the file name of a saved state, read from the state. *)
Definition saved_named (ds : state) (f : saved_state) : Prop :=
  saved_out f = assigned_outputs (saved_st f)
  /\ saved_num_outputs f = Z.of_nat (length (assigned_outputs ds)) + 1
  /\ saved_gate_count f = num_gates (saved_st f) - 7.

(** The gate counts of the files, in the order they are saved, never
    exceed [bound] and never go up from one file to the next. *)
Fixpoint gate_counts_within (bound : Z) (files : list saved_state) : Prop :=
  match files with
  | [] => True
  | f :: files' =>
      num_gates (saved_st f) <= bound
      /\ gate_counts_within (num_gates (saved_st f)) files'
  end.

(** [max_gates] of [default_state] after the files were saved: the gate
    count of the last file, if any. *)
Definition budget_after (bound : Z) (files : list saved_state) : Z :=
  match last files with
  | Some f => num_gates (saved_st f)
  | None => bound
  end.

(** ** Two-gate constructions and the budget *)

(** How a two-gate construction [m] ends on [st]: with no room left
    nothing is added; with room for one gate the first gate is added and
    stays although [NO_GATE] is returned; with room for two gates both are
    added, the second reads the first, and the second is returned. *)
Definition two_gate_outcome (st : state) (m : M Z) : Prop :=
  (max_gates st <= num_gates st -> m st = Ret (NO_GATE, st))
  /\ (max_gates st = num_gates st + 1 ->
      exists g, type g <> IN /\ m st = Ret (NO_GATE, push_gate st g))
  /\ (num_gates st + 2 <= max_gates st ->
      exists g1 g2,
        in1 g2 = num_gates st
        /\ m st = Ret (num_gates st + 1, push_gate (push_gate st g1) g2)).

(** The fourteen two-gate constructions, on the gates [a], [b] and [c]. *)
Definition two_gate_calls (a b c : Z) : list (M Z) :=
  [ add_nand_gate a b; add_nor_gate a b; add_xnor_gate a b;
    add_or_not_gate a b; add_and_not_gate a b;
    add_or_3_gate a b c; add_and_3_gate a b c; add_xor_3_gate a b c;
    add_and_or_gate a b c; add_and_xor_gate a b c; add_xor_or_gate a b c;
    add_xor_and_gate a b c; add_or_and_gate a b c; add_or_xor_gate a b c ].

(** ** A network by table lookup *)

(** Runs the calls in order. *)
Fixpoint add_each (ms : list (M Z)) : M Z :=
  match ms with
  | [] => ret 0
  | m :: ms' => _ <- m ;; add_each ms'
  end.

(** The gate holding input bit [base + j] or, when bit [j] of [v] is
    clear, its inverse; the inverses of the inputs are gates 8 to 15. *)
Definition literal (base v j : Z) : Z :=
  if Z.testbit v j then base + j else 8 + base + j.

(** Three AND gates: the four bits from [base] on have the value [v]. *)
Definition add_nibble (base v : Z) : M Z :=
  g <- add_and_3_gate (literal base v 0) (literal base v 1) (literal base v 2) ;;
  add_and_gate g (literal base v 3).

(** For every index [x] of the list with bit [x] of [target] set, an AND
    gate that is true on [x] alone and an OR gate that adds it to
    [acc]. *)
Fixpoint add_minterms (target : ttable) (xs : list Z) (acc : Z) : M Z :=
  match xs with
  | [] => ret acc
  | x :: xs' =>
      if Z.testbit target x then
        m <- add_and_gate (18 + 3 * (x mod 16)) (66 + 3 * (x / 16)) ;;
        acc' <- add_or_gate acc m ;;
        add_minterms target xs' acc'
      else add_minterms target xs' acc
  end.

(** A network for [target]: the inverses of the inputs (gates 8 to 15),
    the sixteen values of the low four bits (the gates 18 + 3v) and of the
    high four bits (the gates 66 + 3v), the constant 0 (gate 112), and the
    OR of the indices where [target] is set. *)
Definition lookup_circuit (target : ttable) : M Z :=
  _ <- add_each (add_not_gate <$> for_range 0 8) ;;
  _ <- add_each (add_nibble 0 <$> for_range 0 16) ;;
  _ <- add_each (add_nibble 4 <$> for_range 0 16) ;;
  zero <- add_and_gate 0 8 ;;
  add_minterms target (for_range 0 256) zero.

(** The state [main] builds, with that network for output bit 0 added: a
    state as [main] may load it from a file. *)
Definition lookup_state : state :=
  match lookup_circuit (g_target !!! 0%nat) initial_state with
  | Ret (_, st) => st
  | _ => initial_state
  end.

(** The state of the eight inputs with room for one more gate. *)
Definition one_free_state : state := set_max_gates initial_state 9.

(** ** The text printed for a table *)

(** The digit printed for a bit. *)
Definition bit_char (b : bool) : ascii := if b then "1"%char else "0"%char.

(** The text after the first [n] iterations of the loop of [print_ttable],
    for a table with the bits [bits]. *)
Definition ttable_text (bits : Z -> bool) (n : Z) : string :=
  fold_left (fun out i =>
      (if negb (i =? 0) && (i mod 16 =? 0) then out +:+ newline else out)
      +:+ String (bit_char (bits i)) EmptyString)
    (seqZ 0 n) EmptyString.

(** Character [n] of the picture of a table: sixteen rows of sixteen
    digits, each row ended by a newline. *)
Definition picture_char (bits : Z -> bool) (n : nat) : ascii :=
  if (n mod 17 =? 16)%nat then "010"%char
  else bit_char (bits (Z.of_nat (16 * (n / 17) + n mod 17))).

Definition ttable_picture (bits : Z -> bool) : string :=
  String.string_of_list_ascii (picture_char bits <$> seq 0 272).

(** The state [main] builds with one AND gate of the inputs 0 and 1
    added. *)
Definition and_state : state :=
  push_gate initial_state (mkgate AND (tand x0 x1) 0 1).

(** ** The candidates of the split *)

(** The candidate that one iteration of the loop over the input bits
    offers for [best]: none when the bit is already used or both
    multiplexers failed, else the state of the selected multiplexer. *)
Definition bit_candidate (u : Z) (cc : ttable -> ttable -> list Z -> M Z) (st : state)
    (target mask : ttable) (inbits next_inbits : list Z) (bitp bit : Z)
    : outcome (option state) :=
  if existsb (fun i => inbit inbits i =? bit) (for_range 0 bitp) then Ret None
  else
    let next_inbits := <[Z.to_nat bitp := bit]> next_inbits in
    let fsel := table (gate_at st bit) in
    match mux_and cc target mask fsel next_inbits bit st with
    | Ret (mux_out_and, nst_and) =>
        match mux_or u cc target mask fsel next_inbits bit st with
        | Ret (mux_out_or, nst_or) =>
            if (mux_out_and =? NO_GATE) && (mux_out_or =? NO_GATE) then Ret None
            else
              let '(nst, mux_out) := mux_select mux_out_and nst_and mux_out_or nst_or in
              if ttable_equals_mask target (table (gate_at nst mux_out)) mask
              then Ret (Some nst)
              else AssertFail
        | AssertFail => AssertFail
        | OutOfFuel => OutOfFuel
        end
    | AssertFail => AssertFail
    | OutOfFuel => OutOfFuel
    end.

(** [best] is what the loop keeps of the candidates of [bits]: nothing
    when no bit has a candidate; else the candidate of a bit that has
    fewer gates than every candidate of an earlier bit and no more gates
    than any candidate of a later bit. *)
Definition smallest_of (cand : Z -> outcome (option state)) (bits : list Z)
    (best : state) : Prop :=
  (best = best_init /\ forall b, In b bits -> cand b = Ret None)
  \/ (num_gates best <> 0
      /\ exists l1 b l2,
           bits = l1 ++ b :: l2 /\ cand b = Ret (Some best)
           /\ (forall b' nst, In b' l1 -> cand b' = Ret (Some nst) ->
                 num_gates best < num_gates nst)
           /\ (forall b' nst, In b' l2 -> cand b' = Ret (Some nst) ->
                 num_gates best <= num_gates nst)).

(** * Properties *)

(** ** Loops over index ranges *)

Lemma in_for_range (lo hi i : Z) : In i (for_range lo hi) <-> lo <= i < hi.
Proof.
  unfold for_range. rewrite <- list_elem_of_In, elem_of_seqZ. lia.
Qed.

Lemma forallb_for_range (P : Z -> bool) (lo hi : Z) :
  forallb P (for_range lo hi) = true -> forall i, lo <= i < hi -> P i = true.
Proof.
  intros H i Hi. rewrite forallb_forall in H. apply H, in_for_range, Hi.
Qed.

(** ** Truth tables bit by bit *)

Lemma tbit_tand a b i : tbit (tand a b) i = tbit a i && tbit b i.
Proof. apply Z.land_spec. Qed.

Lemma tbit_tor a b i : tbit (tor a b) i = tbit a i || tbit b i.
Proof. apply Z.lor_spec. Qed.

Lemma tbit_txor a b i : tbit (txor a b) i = xorb (tbit a i) (tbit b i).
Proof. apply Z.lxor_spec. Qed.

Lemma tbit_tnot a i : 0 <= i -> tbit (tnot a) i = negb (tbit a i) && (i <? 256).
Proof.
  intros Hi. unfold tbit, tnot.
  rewrite Z.land_spec, Z.lnot_spec, Z.testbit_ones by lia.
  replace (0 <=? i) with true by (symmetry; apply Z.leb_le; lia). reflexivity.
Qed.

Lemma ttable_ext (a b : ttable) : (forall i, 0 <= i -> tbit a i = tbit b i) -> a = b.
Proof. apply Z.bits_inj'. Qed.

Lemma testz_diag (a : ttable) : testz a a = true <-> a = 0.
Proof. unfold testz. rewrite Z.land_diag. apply Z.eqb_eq. Qed.

Lemma ttable_equals_eq (a b : ttable) : ttable_equals a b = true <-> a = b.
Proof.
  unfold ttable_equals. cbv zeta. rewrite testz_diag. apply Z.lxor_eq_0_iff.
Qed.

Lemma tbit_zero i : tbit 0 i = false.
Proof. apply Z.bits_0. Qed.

(** Rewrites the bits of compound tables into boolean formulas of the bits
    of their parts. *)
Ltac tbits :=
  repeat first
    [ rewrite tbit_tand | rewrite tbit_tor | rewrite tbit_txor
    | rewrite tbit_tnot by assumption | rewrite tbit_zero ].

(** Table equalities in the context, read at bit [i]. *)
Ltac tbits_hyps i :=
  repeat match goal with
  | H : @eq ttable ?a ?b |- _ =>
      let Hb := fresh "Hb" in
      assert (Hb : tbit a i = tbit b i) by (rewrite H; reflexivity);
      clear H; revert Hb
  | H : @eq Z ?a ?b |- _ =>
      let Hb := fresh "Hb" in
      assert (Hb : tbit a i = tbit b i) by (rewrite H; reflexivity);
      clear H; revert Hb
  end.

(** Proves an equality of tables from equalities of tables, bit by bit. *)
Ltac bitblast :=
  let i := fresh "i" in
  let Hi := fresh "Hi" in
  apply ttable_ext; intros i Hi; tbits_hyps i; tbits;
  repeat match goal with
  | |- context [tbit ?a i] =>
      let b := fresh "b" in
      generalize (tbit a i); intros b
  end;
  repeat match goal with
  | |- context [?x <? 256] => destruct (x <? 256)
  end;
  repeat match goal with b : bool |- _ => destruct b end;
  cbn; intros; congruence.

Lemma ttable_equals_mask_eq (a b m : ttable) :
  ttable_equals_mask a b m = true <-> tand a m = tand b m.
Proof.
  unfold ttable_equals_mask. cbv zeta. rewrite testz_diag.
  split; intros H; bitblast.
Qed.

Lemma ttable_equals_mask_sym (a b m : ttable) :
  ttable_equals_mask a b m = ttable_equals_mask b a m.
Proof. unfold ttable_equals_mask, txor. now rewrite Z.lxor_comm. Qed.

(** ** Target generation and the input gates *)

Lemma generate_target_check_all :
  forallb generate_target_check (for_range 0 8) = true.
Proof. vm_compute. reflexivity. Qed.

Lemma gate_type_eqb_eq (a b : gate_type) : gate_type_eqb a b = true <-> a = b.
Proof. destruct a, b; cbn; split; congruence. Qed.

(** C8.  For a bit [b] in 0..7 and an index [i] in 0..255, bit [i] of
    [generate_target b sbox] is [((sbox ? S[i] : i) >> b) & 1]; and in the
    state that [main] builds without arguments, gate [b] is an [IN] gate
    whose table has bit [i] equal to bit [b] of [i]. *)
Theorem generate_target_bits (b i : Z) (sbox : bool) :
  0 <= b < 8 -> 0 <= i < 256 ->
  Z.b2z (Z.testbit (generate_target b sbox) i)
    = Z.land (Z.shiftr (if sbox then g_sbox_enc !!! Z.to_nat i else i) b) 1
  /\ type (gate_at initial_state b) = IN
  /\ Z.testbit (table (gate_at initial_state b)) i = Z.testbit i b.
Proof.
  intros Hb Hi.
  pose proof (forallb_for_range _ _ _ generate_target_check_all b Hb) as H.
  unfold generate_target_check in H. cbv zeta in H.
  apply andb_prop in H as [Hty H].
  pose proof (forallb_for_range _ _ _ H i Hi) as H'. cbv beta in H'.
  apply andb_prop in H' as [H' Htb]. apply andb_prop in H' as [Ht Hf].
  apply Z.eqb_eq in Ht, Hf.
  apply gate_type_eqb_eq in Hty. apply Bool.eqb_prop in Htb.
  split; [| split; assumption].
  destruct sbox; assumption.
Qed.

Lemma generate_target_bits_witness :
  Z.b2z (Z.testbit (generate_target 3 true) 5) = Z.land (Z.shiftr (g_sbox_enc !!! 5%nat) 3) 1
  /\ type (gate_at initial_state 3) = IN
  /\ Z.testbit (table (gate_at initial_state 3)) 5 = Z.testbit 5 3.
Proof. apply (generate_target_bits 3 5 true); lia. Defined.

(** ** Reading and writing gates *)

Lemma gate_at_set_gate_same st i g :
  length (gates st) = Z.to_nat MAX_GATES -> 0 <= i < MAX_GATES ->
  gate_at (set_gate st i g) i = g.
Proof.
  intros Hlen Hi. unfold gate_at, set_gate. cbn [gates].
  replace ((0 <=? i) && (i <? MAX_GATES)) with true
    by (symmetry; apply andb_true_intro; split; [apply Z.leb_le | apply Z.ltb_lt]; lia).
  apply list_lookup_total_insert_eq. lia.
Qed.

Lemma gate_at_set_gate_other st i j g :
  0 <= i -> 0 <= j -> i <> j -> gate_at (set_gate st i g) j = gate_at st j.
Proof.
  intros Hi Hj Hne. unfold gate_at, set_gate. cbn [gates].
  destruct ((0 <=? j) && (j <? MAX_GATES)); [| reflexivity].
  destruct ((0 <=? i) && (i <? MAX_GATES)); [| reflexivity].
  apply list_lookup_total_insert_ne. lia.
Qed.

Lemma gate_at_set_num_gates st n i : gate_at (set_num_gates st n) i = gate_at st i.
Proof. reflexivity. Qed.

Lemma gate_at_neg st i : i < 0 -> gate_at st i = zero_gate.
Proof.
  intros Hi. unfold gate_at.
  replace (0 <=? i) with false by (symmetry; apply Z.leb_gt; lia). reflexivity.
Qed.

Lemma gate_at_push_same st g :
  length (gates st) = Z.to_nat MAX_GATES -> 0 <= num_gates st < MAX_GATES ->
  gate_at (push_gate st g) (num_gates st) = g.
Proof. intros. unfold push_gate. rewrite gate_at_set_num_gates. now apply gate_at_set_gate_same. Qed.

Lemma gate_at_push_other st g i :
  0 <= num_gates st -> i <> num_gates st -> gate_at (push_gate st g) i = gate_at st i.
Proof.
  intros Hn Hne. unfold push_gate. rewrite gate_at_set_num_gates.
  destruct (Z.lt_ge_cases i 0) as [Hi | Hi].
  - rewrite !gate_at_neg by assumption. reflexivity.
  - apply gate_at_set_gate_other; lia.
Qed.

Lemma length_gates_push st g : length (gates (push_gate st g)) = length (gates st).
Proof.
  unfold push_gate, set_num_gates, set_gate. cbn [gates].
  destruct ((0 <=? num_gates st) && (num_gates st <? MAX_GATES)); [| reflexivity].
  apply length_insert.
Qed.

(** ** [add_gate] *)

Lemma NO_GATE_value : NO_GATE = 18446744073709551615.
Proof. reflexivity. Qed.

Lemma input_missing_dec ty g1 g2 :
  (g1 =? NO_GATE) || ((g2 =? NO_GATE) && negb (gate_type_eqb ty NOT)) = true
  <-> input_missing ty g1 g2.
Proof.
  unfold input_missing.
  rewrite orb_true_iff, andb_true_iff, negb_true_iff, !Z.eqb_eq.
  assert (gate_type_eqb ty NOT = false <-> ty <> NOT) as ->; [| tauto].
  rewrite <- gate_type_eqb_eq. destruct (gate_type_eqb ty NOT); split; congruence.
Qed.

Lemma add_gate_asserts_dec st ty g1 g2 :
  negb (gate_type_eqb ty IN) && (g1 <? num_gates st)
    && ((g2 <? num_gates st) || gate_type_eqb ty NOT) = true
  <-> add_gate_asserts st ty g1 g2.
Proof.
  unfold add_gate_asserts.
  rewrite !andb_true_iff, orb_true_iff, negb_true_iff, !Z.ltb_lt, gate_type_eqb_eq.
  assert (gate_type_eqb ty IN = false <-> ty <> IN) as ->; [| tauto].
  rewrite <- gate_type_eqb_eq. destruct (gate_type_eqb ty IN); split; congruence.
Qed.

(** [add_gate] unfolded into the four ways it can end. *)
Lemma add_gate_cases st ty t g1 g2 :
  add_gate ty t g1 g2 st =
    if (g1 =? NO_GATE) || ((g2 =? NO_GATE) && negb (gate_type_eqb ty NOT))
    then Ret (NO_GATE, st)
    else if negb (negb (gate_type_eqb ty IN) && (g1 <? num_gates st)
                  && ((g2 <? num_gates st) || gate_type_eqb ty NOT))
    then AssertFail
    else if num_gates st >=? max_gates st then Ret (NO_GATE, st)
    else Ret (wrap64 (wrap64 (num_gates st + 1) - 1),
              set_num_gates (set_gate st (num_gates st) (mkgate ty t g1 g2))
                            (wrap64 (num_gates st + 1))).
Proof.
  unfold add_gate.
  destruct ((g1 =? NO_GATE) || ((g2 =? NO_GATE) && negb (gate_type_eqb ty NOT)));
    [reflexivity |].
  unfold bind, get_state, assert, put_state, ret.
  destruct (negb (gate_type_eqb ty IN)); [| reflexivity].
  destruct (g1 <? num_gates st); [| reflexivity].
  destruct ((g2 <? num_gates st) || gate_type_eqb ty NOT); [| reflexivity].
  cbn [andb negb].
  destruct (num_gates st >=? max_gates st); reflexivity.
Qed.

Lemma add_gate_push st ty t g1 g2 :
  0 <= num_gates st -> max_gates st <= MAX_GATES ->
  ~ input_missing ty g1 g2 -> add_gate_asserts st ty g1 g2 ->
  num_gates st < max_gates st ->
  add_gate ty t g1 g2 st = Ret (num_gates st, push_gate st (mkgate ty t g1 g2)).
Proof.
  intros Hn Hmax Hmiss Hass Hlt. rewrite add_gate_cases.
  rewrite <- input_missing_dec in Hmiss.
  apply not_true_is_false in Hmiss. rewrite Hmiss.
  apply add_gate_asserts_dec in Hass. rewrite Hass. cbn [negb].
  replace (num_gates st >=? max_gates st) with false
    by (symmetry; rewrite Z.geb_leb; apply Z.leb_gt; lia).
  unfold MAX_GATES in Hmax.
  assert (wrap64 (num_gates st + 1) = num_gates st + 1) as ->
    by (unfold wrap64; apply Z.mod_small; lia).
  assert (wrap64 (num_gates st + 1 - 1) = num_gates st) as ->
    by (unfold wrap64; replace (num_gates st + 1 - 1) with (num_gates st) by lia;
        apply Z.mod_small; lia).
  reflexivity.
Qed.

Lemma num_gates_initial_state : num_gates initial_state = 8.
Proof. reflexivity. Qed.

Lemma max_gates_initial_state : max_gates initial_state = MAX_GATES.
Proof. reflexivity. Qed.

(** The four ways [add_gate] ends.  It returns [NO_GATE], leaving the
    state as it is, when a required input is [NO_GATE]; otherwise it stops
    on a failed assertion unless the kind is not [IN], [gid1] is an
    existing gate and [gid2] is one too or the kind is [NOT]; otherwise it
    returns [NO_GATE] when [num_gates >= max_gates]; otherwise it stores
    the gate with the given fields in cell [num_gates], adds one to
    [num_gates], and returns the previous [num_gates]. *)
Lemma add_gate_ends (st : state) (ty : gate_type) (t : ttable) (g1 g2 : Z) :
  length (gates st) = Z.to_nat MAX_GATES ->
  0 <= num_gates st ->
  max_gates st <= MAX_GATES ->
  (input_missing ty g1 g2 -> add_gate ty t g1 g2 st = Ret (NO_GATE, st))
  /\ (~ input_missing ty g1 g2 -> ~ add_gate_asserts st ty g1 g2 ->
      add_gate ty t g1 g2 st = AssertFail)
  /\ (~ input_missing ty g1 g2 -> add_gate_asserts st ty g1 g2 ->
      max_gates st <= num_gates st ->
      add_gate ty t g1 g2 st = Ret (NO_GATE, st))
  /\ (~ input_missing ty g1 g2 -> add_gate_asserts st ty g1 g2 ->
      num_gates st < max_gates st ->
      exists st',
        add_gate ty t g1 g2 st = Ret (num_gates st, st')
        /\ num_gates st <> NO_GATE
        /\ num_gates st' = num_gates st + 1
        /\ max_gates st' = max_gates st
        /\ outputs st' = outputs st
        /\ gate_at st' (num_gates st) = mkgate ty t g1 g2
        /\ forall i, i <> num_gates st -> gate_at st' i = gate_at st i).
Proof.
  intros Hlen Hn Hmax. repeat split.
  - intros Hmiss. rewrite add_gate_cases.
    apply input_missing_dec in Hmiss. rewrite Hmiss. reflexivity.
  - intros Hmiss Hass. rewrite add_gate_cases.
    rewrite <- input_missing_dec in Hmiss. apply not_true_is_false in Hmiss.
    rewrite <- add_gate_asserts_dec in Hass. apply not_true_is_false in Hass.
    rewrite Hmiss, Hass. reflexivity.
  - intros Hmiss Hass Hfull. rewrite add_gate_cases.
    rewrite <- input_missing_dec in Hmiss. apply not_true_is_false in Hmiss.
    apply add_gate_asserts_dec in Hass.
    rewrite Hmiss, Hass. cbn [negb].
    replace (num_gates st >=? max_gates st) with true
      by (symmetry; rewrite Z.geb_leb; apply Z.leb_le; lia).
    reflexivity.
  - intros Hmiss Hass Hlt.
    exists (push_gate st (mkgate ty t g1 g2)).
    split; [now apply add_gate_push |].
    unfold MAX_GATES in Hmax. rewrite NO_GATE_value.
    split; [lia |].
    split; [reflexivity |]. split; [reflexivity |]. split; [reflexivity |].
    split.
    + apply gate_at_push_same; [assumption | unfold MAX_GATES; lia].
    + intros i Hi. now apply gate_at_push_other.
Qed.

(** ** Scanning a range for the first hit *)

Lemma for_range_cons (lo hi : Z) :
  lo < hi -> for_range lo hi = lo :: for_range (lo + 1) hi.
Proof.
  intros H. unfold for_range. rewrite seqZ_cons by lia.
  f_equal. f_equal; lia.
Qed.

Lemma find_for_range_least (P : Z -> bool) (lo hi i : Z) :
  lo <= i < hi -> P i = true ->
  exists j, find P (for_range lo hi) = Some j
            /\ lo <= j <= i /\ P j = true
            /\ forall j', lo <= j' < j -> P j' = false.
Proof.
  intros Hi HP.
  remember (Z.to_nat (i - lo)) as n eqn:Hn.
  revert lo Hi Hn. induction n as [| n IH]; intros lo Hi Hn.
  - assert (i = lo) by lia. subst i.
    rewrite for_range_cons by lia. cbn [find]. rewrite HP.
    exists lo. repeat split; try lia. assumption.
  - rewrite for_range_cons by lia. cbn [find].
    destruct (P lo) eqn:Hlo.
    + exists lo. repeat split; try lia. assumption.
    + destruct (IH (lo + 1)) as (j & Hf & Hj & HPj & Hleast); [lia | lia |].
      exists j. repeat split; try lia; try assumption.
      intros j' Hj'. destruct (Z.eq_dec j' lo) as [-> | Hne]; [assumption |].
      apply Hleast. lia.
Qed.

Lemma find_for_range_none (P : Z -> bool) (lo hi : Z) :
  find P (for_range lo hi) = None -> forall i, lo <= i < hi -> P i = false.
Proof.
  intros H i Hi. apply (find_none _ _ H). now apply in_for_range.
Qed.

Lemma find_for_range_some (P : Z -> bool) (lo hi j : Z) :
  find P (for_range lo hi) = Some j -> lo <= j < hi /\ P j = true.
Proof.
  intros H. apply find_some in H as [Hin HP]. apply in_for_range in Hin. tauto.
Qed.

(** ** Three small runs *)

(** A target that is an input variable is found in step 1. *)
Example create_circuit_input_variable :
  create_circuit NO_GATE x3 full_mask no_inbits initial_state = Ret (3, initial_state).
Proof. vm_compute. reflexivity. Qed.

(** The inverse of an input variable takes one NOT gate (step 2). *)
Example create_circuit_inverse :
  create_circuit NO_GATE (tnot x3) full_mask no_inbits initial_state
  = Ret (8, push_gate initial_state (mkgate NOT (tnot x3) 3 NO_GATE)).
Proof. vm_compute. reflexivity. Qed.

(** The AND of two input variables takes one AND gate (step 3). *)
Example create_circuit_and :
  create_circuit NO_GATE (tand x0 x1) full_mask no_inbits initial_state
  = Ret (8, push_gate initial_state (mkgate AND (tand x0 x1) 0 1)).
Proof. vm_compute. reflexivity. Qed.

(** ** Step 1: reuse of an existing gate *)

(** C6.  When some existing gate [i] has the requested table under the
    mask, [create_circuit] returns the smallest such index and leaves the
    state, hence [num_gates], as it is. *)
Theorem create_circuit_reuse (u : Z) (st : state) (target mask : ttable)
    (inbits : list Z) (i : Z) :
  0 <= i < num_gates st ->
  ttable_equals_mask (table (gate_at st i)) target mask = true ->
  exists j,
    create_circuit u target mask inbits st = Ret (j, st)
    /\ 0 <= j <= i
    /\ ttable_equals_mask (table (gate_at st j)) target mask = true
    /\ forall j', 0 <= j' < j ->
         ttable_equals_mask (table (gate_at st j')) target mask = false.
Proof.
  intros Hi Heq.
  destruct (find_for_range_least
              (fun i => ttable_equals_mask target (table (gate_at st i)) mask)
              0 (num_gates st) i Hi) as (j & Hf & Hj & HPj & Hleast).
  { now rewrite ttable_equals_mask_sym. }
  exists j. split; [| split; [assumption | split]].
  - unfold create_circuit. cbn [create_circuit_fuel].
    unfold phases_1_5, phase1. rewrite Hf. reflexivity.
  - now rewrite ttable_equals_mask_sym.
  - intros j' Hj'. rewrite ttable_equals_mask_sym. now apply Hleast.
Qed.

Lemma create_circuit_reuse_witness :
  exists j,
    create_circuit 0 x1 full_mask (replicate 8 (-1)) initial_state = Ret (j, initial_state)
    /\ 0 <= j <= 1
    /\ ttable_equals_mask (table (gate_at initial_state j)) x1 full_mask = true
    /\ forall j', 0 <= j' < j ->
         ttable_equals_mask (table (gate_at initial_state j')) x1 full_mask = false.
Proof.
  apply (create_circuit_reuse 0 initial_state x1 full_mask (replicate 8 (-1)) 1).
  - rewrite num_gates_initial_state. lia.
  - vm_compute. reflexivity.
Defined.

(** ** The tests of the triple search *)

Lemma nodupb_NoDup (l : list Z) : nodupb l = true -> List.NoDup l.
Proof.
  induction l as [| x l IH]; cbn [nodupb]; intros H.
  - constructor.
  - apply andb_prop in H as [Hx Hl]. constructor.
    + intros Hin. apply negb_true_iff in Hx.
      assert (existsb (Z.eqb x) l = true); [| congruence].
      apply existsb_exists. exists x. split; [assumption | apply Z.eqb_refl].
    + now apply IH.
Qed.

Lemma tests_made_none (test : ttable -> bool) (tests : list (ttable * M Z)) :
  first_test test tests = None -> tests_made test tests = length tests.
Proof.
  unfold first_test. induction tests as [| c tests IH]; cbn [find tests_made length].
  - reflexivity.
  - destruct (test (fst c)); cbn [fmap option_fmap option_map]; [discriminate |].
    intros H. f_equal. now apply IH.
Qed.

Lemma compositions_tested (ti tk tm : ttable) (i k m : Z) :
  incl (compositions ti tk tm) (map fst (phase5_tests ti tk tm i k m)).
Proof.
  assert (Hc : forall a b, tand a b = tand b a) by (intros; apply Z.land_comm).
  assert (Ha : forall a b c, tand (tand a b) c = tand a (tand b c))
    by (intros; symmetry; apply Z.land_assoc).
  assert (Hoc : forall a b, tor a b = tor b a) by (intros; apply Z.lor_comm).
  assert (Hoa : forall a b c, tor (tor a b) c = tor a (tor b c))
    by (intros; symmetry; apply Z.lor_assoc).
  assert (Hxc : forall a b, txor a b = txor b a) by (intros; apply Z.lxor_comm).
  assert (Hxa : forall a b c, txor (txor a b) c = txor a (txor b c))
    by (intros; apply Z.lxor_assoc).
  intros t Ht. unfold compositions in Ht. cbn [flat_map map app] in Ht.
  unfold phase5_tests. cbn [map fst].
  assert (E1 : tand (tand ti tm) tk = tand (tand ti tk) tm)
    by (rewrite !Ha; f_equal; apply Hc).
  assert (E2 : tand (tand tk tm) ti = tand (tand ti tk) tm)
    by (rewrite (Hc (tand tk tm) ti), Ha; reflexivity).
  assert (E3 : tor (tor ti tm) tk = tor (tor ti tk) tm)
    by (rewrite !Hoa; f_equal; apply Hoc).
  assert (E4 : tor (tor tk tm) ti = tor (tor ti tk) tm)
    by (rewrite (Hoc (tor tk tm) ti), Hoa; reflexivity).
  assert (E5 : txor (txor ti tm) tk = txor (txor ti tk) tm)
    by (rewrite !Hxa; f_equal; apply Hxc).
  assert (E6 : txor (txor tk tm) ti = txor (txor ti tk) tm)
    by (rewrite (Hxc (txor tk tm) ti), Hxa; reflexivity).
  repeat (destruct Ht as [Ht | Ht];
          [subst t; rewrite ?E1, ?E2, ?E3, ?E4, ?E5, ?E6; cbn [In]; tauto |]).
  destruct Ht.
Qed.

(** C9 (as amended).  For one triple the search makes 21 tests before it
    moves on: every one of the 27 compositions of a pair with the third
    gate is among the tables tested, and on three input variables the 21
    tested tables are pairwise different. *)
Theorem phase5_tests_per_triple (test : ttable -> bool) (ti tk tm : ttable) (i k m : Z) :
  first_test test (phase5_tests ti tk tm i k m) = None ->
  tests_made test (phase5_tests ti tk tm i k m) = 21%nat
  /\ incl (compositions ti tk tm) (map fst (phase5_tests ti tk tm i k m))
  /\ List.NoDup (map fst (phase5_tests x0 x1 x2 0 1 2)).
Proof.
  intros Hnone. split; [| split].
  - rewrite (tests_made_none _ _ Hnone). reflexivity.
  - apply compositions_tested.
  - apply nodupb_NoDup. vm_compute. reflexivity.
Qed.

Lemma phase5_tests_per_triple_witness :
  tests_made (ttable_equals 0) (phase5_tests x0 x1 x2 0 1 2) = 21%nat
  /\ incl (compositions x0 x1 x2) (map fst (phase5_tests x0 x1 x2 0 1 2))
  /\ List.NoDup (map fst (phase5_tests x0 x1 x2 0 1 2)).
Proof.
  apply (phase5_tests_per_triple (ttable_equals 0) x0 x1 x2 0 1 2).
  vm_compute. reflexivity.
Defined.

(** C9 as stated does not hold: for the triple of the first three input
    gates and the all-zero target no test succeeds, and the tests made
    are not 24. *)
Lemma phase5_tests_not_24 :
  first_test (ttable_equals 0) (phase5_tests x0 x1 x2 0 1 2) = None
  /\ tests_made (ttable_equals 0) (phase5_tests x0 x1 x2 0 1 2) <> 24%nat.
Proof. split; [vm_compute; reflexivity | vm_compute; discriminate]. Qed.

(** ** Step 5: the choice between the two multiplexers *)

Lemma Zeqb_false_of_neq (a b : Z) : a <> b -> (a =? b) = false.
Proof. apply Z.eqb_neq. Qed.

(** C3 (as amended).  When both multiplexers were built, the AND
    multiplexer is selected if its state has fewer gates than the OR
    multiplexer's, and the OR multiplexer is selected otherwise -- also
    when the two gate counts are equal. *)
Theorem mux_select_both (mux_out_and mux_out_or : Z) (nst_and nst_or : state) :
  mux_out_and <> NO_GATE -> mux_out_or <> NO_GATE ->
  (num_gates nst_and < num_gates nst_or ->
   mux_select mux_out_and nst_and mux_out_or nst_or = (nst_and, mux_out_and))
  /\ (num_gates nst_or < num_gates nst_and ->
      mux_select mux_out_and nst_and mux_out_or nst_or = (nst_or, mux_out_or))
  /\ (num_gates nst_and = num_gates nst_or ->
      mux_select mux_out_and nst_and mux_out_or nst_or = (nst_or, mux_out_or)).
Proof.
  intros Ha Ho. unfold mux_select.
  rewrite (Zeqb_false_of_neq _ _ Ha), (Zeqb_false_of_neq _ _ Ho). cbn [orb negb andb].
  repeat split; intros H.
  - replace (num_gates nst_and <? num_gates nst_or) with true
      by (symmetry; apply Z.ltb_lt; lia). reflexivity.
  - replace (num_gates nst_and <? num_gates nst_or) with false
      by (symmetry; apply Z.ltb_ge; lia). reflexivity.
  - replace (num_gates nst_and <? num_gates nst_or) with false
      by (symmetry; apply Z.ltb_ge; lia). reflexivity.
Qed.

Lemma mux_select_both_witness :
  mux_select 8 initial_state 9 loaded_state = (initial_state, 8)
  /\ mux_select 9 loaded_state 8 initial_state = (initial_state, 8)
  /\ mux_select 8 initial_state 9 initial_state = (initial_state, 9).
Proof.
  assert (H8 : 8 <> NO_GATE) by (rewrite NO_GATE_value; lia).
  assert (H9 : 9 <> NO_GATE) by (rewrite NO_GATE_value; lia).
  split; [| split].
  - apply (proj1 (mux_select_both 8 9 initial_state loaded_state H8 H9)).
    reflexivity.
  - apply (proj1 (proj2 (mux_select_both 9 8 loaded_state initial_state H9 H8))).
    reflexivity.
  - apply (proj2 (proj2 (mux_select_both 8 9 initial_state initial_state H8 H9))).
    reflexivity.
Defined.

(** C3 as stated does not hold.  For the all-zero target on the state of
    the eight inputs, splitting on input bit 0 builds both multiplexers
    with two new gates each, and the OR multiplexer is the one selected. *)
Lemma mux_tie_selects_or :
  exists nst_and nst_or,
    mux_and (create_circuit_fuel NO_GATE 6) 0 full_mask (table (gate_at initial_state 0))
            next_inbits_bit0 0 initial_state = Ret (9, nst_and)
    /\ mux_or NO_GATE (create_circuit_fuel NO_GATE 6) 0 full_mask
              (table (gate_at initial_state 0)) next_inbits_bit0 0 initial_state
       = Ret (9, nst_or)
    /\ 9 <> NO_GATE
    /\ num_gates nst_and = num_gates nst_or
    /\ type (gate_at nst_and 8) = AND
    /\ type (gate_at nst_or 8) = OR
    /\ mux_select 9 nst_and 9 nst_or = (nst_or, 9).
Proof.
  eexists. eexists.
  split; [vm_compute; reflexivity |].
  split; [vm_compute; reflexivity |].
  split; [rewrite NO_GATE_value; lia |].
  split; [reflexivity |].
  split; [reflexivity |].
  split; reflexivity.
Qed.

(** ** Step 5: six bits already used *)

Lemma split_six_bits (cc : ttable -> ttable -> list Z -> M Z) (u : Z) (st : state)
    (target mask : ttable) (inbits : list Z) :
  used_bits inbits = 6 -> split u cc target mask inbits st = AssertFail.
Proof.
  intros Hbits. unfold split. unfold used_bits in Hbits.
  destruct (copy_inbits 6 inbits next_inbits_uninit 0) as [next bitp].
  cbn [snd] in Hbits. subst bitp. reflexivity.
Qed.

(** C4 (as amended).  When the first four steps and the triple search find
    no match and six input bits are already used, [create_circuit] stops
    on the assertion [bitp < 6]: it does not return. *)
Theorem create_circuit_six_bits (u : Z) (st : state) (target mask : ttable)
    (inbits : list Z) :
  phases_1_5 st target mask = None ->
  used_bits inbits = 6 ->
  create_circuit u target mask inbits st = AssertFail.
Proof.
  intros Hnone Hbits. unfold create_circuit. cbn [create_circuit_fuel].
  rewrite Hnone. now apply split_six_bits.
Qed.

Lemma create_circuit_six_bits_witness :
  create_circuit NO_GATE 0 full_mask six_inbits initial_state = AssertFail.
Proof.
  apply (create_circuit_six_bits NO_GATE initial_state 0 full_mask six_inbits).
  - vm_compute. reflexivity.
  - vm_compute. reflexivity.
Defined.

(** C4 as stated does not hold: with six bits used and no match in the
    searches, the call does not return [NO_GATE]. *)
Lemma six_bits_no_return :
  phases_1_5 initial_state 0 full_mask = None
  /\ used_bits six_inbits = 6
  /\ forall st', create_circuit NO_GATE 0 full_mask six_inbits initial_state
                 <> Ret (NO_GATE, st').
Proof.
  split; [vm_compute; reflexivity |].
  split; [vm_compute; reflexivity |].
  intros st'. unfold create_circuit. cbn [create_circuit_fuel].
  replace (phases_1_5 initial_state 0 full_mask) with (@None (M Z))
    by (vm_compute; reflexivity).
  rewrite split_six_bits; [discriminate | vm_compute; reflexivity].
Qed.

(** ** Well-formed states *)

Lemma NO_GATE_large (x : Z) : x <= MAX_GATES -> x <> NO_GATE.
Proof. unfold MAX_GATES. rewrite NO_GATE_value. lia. Qed.

Lemma state_ext_refl st : state_ext st st.
Proof. unfold state_ext. repeat split; try reflexivity; lia. Qed.

Lemma state_ext_trans st1 st2 st3 :
  state_ext st1 st2 -> state_ext st2 st3 -> state_ext st1 st3.
Proof.
  intros (Hm1 & Ho1 & Hn1 & Hg1) (Hm2 & Ho2 & Hn2 & Hg2).
  unfold state_ext. repeat split; try congruence; try lia.
  intros i Hi. rewrite Hg2 by lia. now apply Hg1.
Qed.

Lemma num_gates_push st g : num_gates (push_gate st g) = num_gates st + 1.
Proof. reflexivity. Qed.

Lemma max_gates_push st g : max_gates (push_gate st g) = max_gates st.
Proof. reflexivity. Qed.

Lemma outputs_push st g : outputs (push_gate st g) = outputs st.
Proof. reflexivity. Qed.

Lemma state_ok_push st g :
  state_ok st -> num_gates st < max_gates st -> state_ok (push_gate st g).
Proof.
  intros [Hlen Hin Hbud Hmax Hclean] Hlt. constructor.
  - now rewrite length_gates_push.
  - rewrite num_gates_push. lia.
  - rewrite num_gates_push, max_gates_push. lia.
  - now rewrite max_gates_push.
  - intros i Hi. rewrite num_gates_push in Hi.
    rewrite gate_at_push_other by lia. apply Hclean. lia.
Qed.

Lemma state_ext_push st g :
  state_ok st -> state_ext st (push_gate st g).
Proof.
  intros Hok. unfold state_ext.
  rewrite num_gates_push, max_gates_push, outputs_push.
  repeat split; try lia.
  intros i Hi. apply gate_at_push_other; [destruct Hok | ]; lia.
Qed.

Lemma gate_at_push st g :
  state_ok st -> num_gates st < max_gates st ->
  gate_at (push_gate st g) (num_gates st) = g.
Proof.
  intros [Hlen Hin Hbud Hmax Hclean] Hlt.
  apply gate_at_push_same; [assumption | lia].
Qed.

Lemma initial_state_ok : state_ok initial_state.
Proof.
  constructor.
  - reflexivity.
  - rewrite num_gates_initial_state. lia.
  - rewrite num_gates_initial_state, max_gates_initial_state. unfold MAX_GATES. lia.
  - rewrite max_gates_initial_state. lia.
  - rewrite num_gates_initial_state. intros i Hi. unfold gate_at.
    destruct ((0 <=? i) && (i <? MAX_GATES)) eqn:Hr; [| reflexivity].
    apply andb_prop in Hr as [_ Hr]. apply Z.ltb_lt in Hr. unfold MAX_GATES in Hr.
    assert (Hcells : forall n, (8 <= n < 500)%nat -> gates initial_state !!! n = zero_gate).
    { intros n Hn.
      change (gates initial_state)
        with (firstn 8 (gates initial_state) ++ replicate 492 zero_gate).
      assert (Hl : length (firstn 8 (gates initial_state)) = 8%nat) by reflexivity.
      rewrite lookup_total_app_r by (rewrite Hl; lia).
      rewrite Hl. apply lookup_total_replicate_2. lia. }
    apply Hcells. lia.
Qed.

(** ** The gate-adding calls on well-formed states *)

Lemma add_gate_no_input1 st ty t g2 : add_gate ty t NO_GATE g2 st = Ret (NO_GATE, st).
Proof. rewrite add_gate_cases. reflexivity. Qed.

Lemma add_gate_no_input2 st ty t g1 :
  ty <> NOT -> add_gate ty t g1 NO_GATE st = Ret (NO_GATE, st).
Proof.
  intros Hty. rewrite add_gate_cases.
  assert (gate_type_eqb ty NOT = false) as -> by (destruct ty; cbn; congruence).
  rewrite Z.eqb_refl. cbn [negb andb]. rewrite orb_true_r. reflexivity.
Qed.

Lemma add_gate_step st ty t g1 g2 :
  state_ok st -> ty <> IN -> 0 <= g1 < num_gates st ->
  (ty = NOT \/ 0 <= g2 < num_gates st) ->
  (max_gates st <= num_gates st /\ add_gate ty t g1 g2 st = Ret (NO_GATE, st))
  \/ (num_gates st < max_gates st
      /\ add_gate ty t g1 g2 st = Ret (num_gates st, push_gate st (mkgate ty t g1 g2))).
Proof.
  intros Hok Hty H1 H2.
  pose proof (ok_inputs _ Hok) as Hin. pose proof (ok_budget _ Hok) as Hbud.
  pose proof (ok_max _ Hok) as Hmax.
  assert (Hmiss : ~ input_missing ty g1 g2).
  { unfold input_missing. intros [E | [E Hn]].
    - revert E. apply NO_GATE_large. lia.
    - destruct H2 as [E' | H2]; [contradiction |].
      revert E. apply NO_GATE_large. lia. }
  assert (Hass : add_gate_asserts st ty g1 g2).
  { unfold add_gate_asserts. split; [assumption | split; [lia |]].
    destruct H2; [right; assumption | left; lia]. }
  destruct (Z.lt_ge_cases (num_gates st) (max_gates st)) as [Hlt | Hge].
  - right. split; [assumption |]. apply add_gate_push; try assumption; lia.
  - left. split; [assumption |].
    rewrite add_gate_cases.
    rewrite <- input_missing_dec in Hmiss. apply not_true_is_false in Hmiss.
    apply add_gate_asserts_dec in Hass. rewrite Hmiss, Hass. cbn [negb].
    replace (num_gates st >=? max_gates st) with true
      by (symmetry; rewrite Z.geb_leb; apply Z.leb_le; lia).
    reflexivity.
Qed.

Lemma binary_op_type ty op : binary_op ty op -> ty <> IN /\ ty <> NOT.
Proof. intros [[-> _] | [[-> _] | [-> _]]]; split; discriminate. Qed.

Lemma builds_fail m st : state_ok st -> m st = Ret (NO_GATE, st) -> forall t, builds m st t.
Proof.
  intros Hok Hm t. exists NO_GATE, st.
  split; [assumption |]. split; [assumption |]. split; [apply state_ext_refl |].
  left. split; [reflexivity | left; reflexivity].
Qed.

Lemma builds_not st i :
  state_ok st -> 0 <= i < num_gates st ->
  builds (add_not_gate i) st (tnot (table (gate_at st i))).
Proof.
  intros Hok Hi. unfold add_not_gate.
  destruct (add_gate_step st NOT (tnot (table (gate_at st i))) i NO_GATE Hok)
    as [[Hfull E] | [Hlt E]]; try discriminate; try assumption; try (left; reflexivity).
  - now apply builds_fail.
  - exists (num_gates st), (push_gate st (mkgate NOT (tnot (table (gate_at st i))) i NO_GATE)).
    split; [assumption |]. split; [now apply state_ok_push |].
    split; [now apply state_ext_push |]. right.
    rewrite num_gates_push, gate_at_push by assumption.
    split; [apply NO_GATE_large; destruct Hok; lia |].
    split; [lia |]. split; [lia | reflexivity].
Qed.

Lemma builds_binary ty op st i k :
  binary_op ty op -> state_ok st -> 0 <= i < num_gates st -> 0 <= k < num_gates st ->
  builds (add_binary_gate ty op i k) st (op (table (gate_at st i)) (table (gate_at st k))).
Proof.
  intros Hop Hok Hi Hk. unfold add_binary_gate.
  destruct (binary_op_type _ _ Hop) as [Hin Hnot].
  set (t := op (table (gate_at st i)) (table (gate_at st k))).
  destruct (add_gate_step st ty t i k Hok) as [[Hfull E] | [Hlt E]];
    try assumption; try (right; assumption).
  - now apply builds_fail.
  - exists (num_gates st), (push_gate st (mkgate ty t i k)).
    split; [assumption |]. split; [now apply state_ok_push |].
    split; [now apply state_ext_push |]. right.
    rewrite num_gates_push, gate_at_push by assumption.
    split; [apply NO_GATE_large; destruct Hok; lia |].
    split; [lia |]. split; [lia | reflexivity].
Qed.

Lemma derived_binary ty op st i k :
  binary_op ty op -> 0 <= i < k -> k < num_gates st ->
  derived st (op (table (gate_at st i)) (table (gate_at st k))).
Proof.
  intros Hop Hi Hk. right. exists i, k. split; [assumption | split; [assumption |]].
  destruct Hop as [[_ ->] | [[_ ->] | [_ ->]]]; tauto.
Qed.

(** The second step of a two-gate construction, after the first gate [g1]
    was stored. *)
Lemma builds_second st g1 ty t c (m : M Z) :
  state_ok st -> num_gates st < max_gates st -> derived st (table g1) ->
  ty <> IN -> (ty = NOT \/ 0 <= c < num_gates st) ->
  forall st1, st1 = push_gate st g1 ->
  (forall r st', add_gate ty t (num_gates st) c st1 = Ret (r, st') ->
     m st = Ret (r, st')) ->
  builds m st t.
Proof.
  intros Hok Hlt Hder Hty Hc st1 -> Hm.
  set (st1 := push_gate st g1) in *.
  assert (Hok1 : state_ok st1) by now apply state_ok_push.
  destruct (add_gate_step st1 ty t (num_gates st) c Hok1) as [[Hfull E] | [Hlt1 E]];
    try assumption.
  - unfold st1. rewrite num_gates_push. destruct Hok; lia.
  - destruct Hc as [Hc | Hc]; [left; assumption | right].
    unfold st1. rewrite num_gates_push. lia.
  - exists NO_GATE, st1. split; [now apply Hm |].
    split; [assumption |]. split; [now apply state_ext_push |].
    left. split; [reflexivity |]. right. exists g1. auto.
  - exists (num_gates st1), (push_gate st1 (mkgate ty t (num_gates st) c)).
    split; [now apply Hm |]. split; [now apply state_ok_push |].
    split; [eapply state_ext_trans; [now apply state_ext_push | now apply state_ext_push] |].
    right. rewrite gate_at_push by assumption. rewrite !num_gates_push.
    split; [apply NO_GATE_large; destruct Hok1; lia |].
    unfold st1. rewrite num_gates_push.
    split; [lia |]. split; [lia | reflexivity].
Qed.

Lemma builds_binary_not ty op st i k :
  binary_op ty op -> state_ok st -> 0 <= i < k -> k < num_gates st ->
  builds (bind (add_binary_gate ty op i k) add_not_gate) st
         (tnot (op (table (gate_at st i)) (table (gate_at st k)))).
Proof.
  intros Hop Hok Hi Hk.
  destruct (binary_op_type _ _ Hop) as [Hin Hnot].
  set (t := op (table (gate_at st i)) (table (gate_at st k))).
  destruct (add_gate_step st ty t i k Hok) as [[Hfull E] | [Hlt E]];
    try assumption; try lia; try (right; lia).
  - apply builds_fail; [assumption |].
    unfold bind, add_binary_gate. fold t. rewrite E.
    unfold add_not_gate. apply add_gate_no_input1.
  - refine (builds_second st (mkgate ty t i k) NOT _ NO_GATE _ Hok Hlt _ _ _ _ eq_refl _).
    + now apply (derived_binary ty).
    + discriminate.
    + left; reflexivity.
    + intros r st' Hadd. unfold bind, add_binary_gate. fold t. rewrite E.
      unfold add_not_gate. rewrite gate_at_push by assumption. exact Hadd.
Qed.

Lemma builds_not_binary ty op st i k :
  binary_op ty op -> state_ok st -> 0 <= i < num_gates st -> 0 <= k < num_gates st ->
  builds (bind (add_not_gate i) (fun g => add_binary_gate ty op g k)) st
         (op (tnot (table (gate_at st i))) (table (gate_at st k))).
Proof.
  intros Hop Hok Hi Hk.
  destruct (binary_op_type _ _ Hop) as [Hin Hnot].
  set (t := tnot (table (gate_at st i))).
  destruct (add_gate_step st NOT t i NO_GATE Hok) as [[Hfull E] | [Hlt E]];
    try assumption; try discriminate; try (left; reflexivity).
  - apply builds_fail; [assumption |].
    unfold bind, add_not_gate. fold t. rewrite E.
    unfold add_binary_gate. apply add_gate_no_input1.
  - refine (builds_second st (mkgate NOT t i NO_GATE) ty _ k _ Hok Hlt _ Hin _ _ eq_refl _).
    + left; exists i; split; [assumption | reflexivity].
    + right; assumption.
    + intros r st' Hadd. unfold bind, add_not_gate. fold t. rewrite E.
      unfold add_binary_gate. rewrite gate_at_push by assumption.
      rewrite gate_at_push_other by (destruct Hok; lia). exact Hadd.
Qed.

Lemma builds_binary_binary ty1 op1 ty2 op2 st a b c :
  binary_op ty1 op1 -> binary_op ty2 op2 -> state_ok st ->
  0 <= a < b -> b < num_gates st -> 0 <= c < num_gates st ->
  builds (bind (add_binary_gate ty1 op1 a b) (fun g => add_binary_gate ty2 op2 g c)) st
         (op2 (op1 (table (gate_at st a)) (table (gate_at st b))) (table (gate_at st c))).
Proof.
  intros Hop1 Hop2 Hok Ha Hb Hc.
  destruct (binary_op_type _ _ Hop1) as [Hin1 Hnot1].
  destruct (binary_op_type _ _ Hop2) as [Hin2 Hnot2].
  set (t := op1 (table (gate_at st a)) (table (gate_at st b))).
  destruct (add_gate_step st ty1 t a b Hok) as [[Hfull E] | [Hlt E]];
    try assumption; try lia; try (right; lia).
  - apply builds_fail; [assumption |].
    unfold bind, add_binary_gate. fold t. rewrite E. apply add_gate_no_input1.
  - refine (builds_second st (mkgate ty1 t a b) ty2 _ c _ Hok Hlt _ Hin2 _ _ eq_refl _).
    + now apply (derived_binary ty1).
    + right; assumption.
    + intros r st' Hadd. unfold bind. unfold add_binary_gate at 1. fold t. rewrite E.
      unfold add_binary_gate. rewrite gate_at_push by assumption.
      rewrite gate_at_push_other by (destruct Hok; lia). exact Hadd.
Qed.

(** ** Early returns from loops *)

Lemma first_some_some {A B : Type} (f : A -> option B) (l : list A) (b : B) :
  first_some f l = Some b -> exists x, In x l /\ f x = Some b.
Proof.
  induction l as [| x l IH]; cbn [first_some]; [discriminate |].
  destruct (f x) as [b' |] eqn:E.
  - intros [= ->]. exists x. split; [left; reflexivity | assumption].
  - intros H. destruct (IH H) as (y & Hy & Hf). exists y. split; [right |]; assumption.
Qed.

Lemma first_some_none {A B : Type} (f : A -> option B) (l : list A) :
  first_some f l = None -> forall x, In x l -> f x = None.
Proof.
  induction l as [| x l IH]; cbn [first_some]; [intros _ y [] |].
  destruct (f x) eqn:E; [discriminate |].
  intros H y [<- | Hy]; [assumption | now apply IH].
Qed.

Lemma first_test_some (test : ttable -> bool) (tests : list (ttable * M Z)) (m : M Z) :
  first_test test tests = Some m -> exists t, In (t, m) tests /\ test t = true.
Proof.
  unfold first_test. destruct (find _ tests) as [[t m'] |] eqn:E; [| discriminate].
  cbn. intros [= ->]. apply find_some in E as [Hin Ht]. exists t. auto.
Qed.

Lemma first_test_none (test : ttable -> bool) (tests : list (ttable * M Z)) :
  first_test test tests = None -> forall t m, In (t, m) tests -> test t = false.
Proof.
  unfold first_test. destruct (find _ tests) as [c |] eqn:E; [discriminate |].
  intros _ t m Hin. exact (find_none _ _ E (t, m) Hin).
Qed.

(** ** Masked comparisons *)

(** Proves an equality of tables that needs no hypothesis, bit by bit. *)
Ltac bitblast_goal :=
  let i := fresh "i" in
  let Hi := fresh "Hi" in
  apply ttable_ext; intros i Hi; tbits;
  repeat match goal with
  | |- context [tbit ?a i] =>
      let b := fresh "b" in
      generalize (tbit a i); intros b
  end;
  repeat match goal with
  | |- context [?x <? 256] => destruct (x <? 256)
  end;
  repeat match goal with b : bool |- _ => destruct b end;
  reflexivity.

Lemma binary_op_masked ty op a b mask :
  binary_op ty op -> op (tand a mask) (tand b mask) = tand (op a b) mask.
Proof.
  intros [[_ ->] | [[_ ->] | [_ ->]]]; bitblast_goal.
Qed.

Lemma equals_masked_binary ty op target a b mask :
  binary_op ty op ->
  ttable_equals (tand target mask) (op (tand a mask) (tand b mask))
  = ttable_equals_mask target (op a b) mask.
Proof.
  intros Hop. rewrite (binary_op_masked ty) by assumption.
  apply eq_true_iff_eq. rewrite ttable_equals_eq, ttable_equals_mask_eq. reflexivity.
Qed.

Lemma equals_masked_binary2 ty1 op1 ty2 op2 target a b c mask :
  binary_op ty1 op1 -> binary_op ty2 op2 ->
  ttable_equals (tand target mask)
                (op2 (op1 (tand a mask) (tand b mask)) (tand c mask))
  = ttable_equals_mask target (op2 (op1 a b) c) mask.
Proof.
  intros Hop1 Hop2. rewrite (binary_op_masked ty1) by assumption.
  now apply (equals_masked_binary ty2).
Qed.

Lemma binary_op_and : binary_op AND tand.
Proof. left. auto. Qed.

Lemma binary_op_or : binary_op OR tor.
Proof. right. left. auto. Qed.

Lemma binary_op_xor : binary_op XOR txor.
Proof. right. right. auto. Qed.

Create HintDb gates.

#[local] Hint Resolve binary_op_and binary_op_or binary_op_xor : gates.

(** ** What the searches of steps 1 to 4 return *)

Lemma phase1_some st target mask m :
  phase1 st target mask = Some m ->
  exists i, m = ret i /\ 0 <= i < num_gates st
            /\ ttable_equals_mask target (table (gate_at st i)) mask = true.
Proof.
  unfold phase1. destruct (find _ _) as [i |] eqn:E; [| discriminate].
  cbn. intros [= <-]. apply find_for_range_some in E. exists i. tauto.
Qed.

Lemma phase1_none st target mask :
  phase1 st target mask = None -> no_match st target mask.
Proof.
  unfold phase1. destruct (find _ _) as [i |] eqn:E; [discriminate |].
  intros _ i Hi. exact (find_for_range_none _ _ _ E i Hi).
Qed.

Lemma phase2_some st target mask m :
  state_ok st -> phase2 st target mask = Some m ->
  exists t, builds m st t /\ ttable_equals_mask target t mask = true.
Proof.
  intros Hok. unfold phase2. destruct (find _ _) as [i |] eqn:E; [| discriminate].
  cbn. intros [= <-]. apply find_for_range_some in E as [Hi Ht].
  exists (tnot (table (gate_at st i))). split; [now apply builds_not | assumption].
Qed.

Lemma phase2_none st target mask :
  phase2 st target mask = None ->
  forall i, 0 <= i < num_gates st ->
    ttable_equals_mask target (tnot (table (gate_at st i))) mask = false.
Proof.
  unfold phase2. destruct (find _ _) as [i |] eqn:E; [discriminate |].
  intros _ i Hi. exact (find_for_range_none _ _ _ E i Hi).
Qed.

(** The pairs and triples visited by the nested loops. *)
Lemma pair_loop_some {B : Type} (f : Z -> Z -> option B) (n : Z) (b : B) :
  first_some (fun i => first_some (f i) (for_range (i + 1) n)) (for_range 0 n) = Some b ->
  exists i k, 0 <= i < k /\ k < n /\ f i k = Some b.
Proof.
  intros H. apply first_some_some in H as (i & Hi & H).
  apply first_some_some in H as (k & Hk & H).
  apply in_for_range in Hi, Hk. exists i, k. repeat split; try lia. assumption.
Qed.

Lemma pair_loop_none {B : Type} (f : Z -> Z -> option B) (n : Z) :
  first_some (fun i => first_some (f i) (for_range (i + 1) n)) (for_range 0 n) = None ->
  forall i k, 0 <= i < k -> k < n -> f i k = None.
Proof.
  intros H i k Hi Hk.
  pose proof (first_some_none _ _ H i) as H1. cbv beta in H1.
  apply (first_some_none _ _ (H1 ltac:(apply in_for_range; lia))).
  apply in_for_range. lia.
Qed.

Lemma phase3_some st target mask m :
  state_ok st -> phase3 st target mask = Some m ->
  exists t, builds m st t /\ ttable_equals_mask target t mask = true.
Proof.
  intros Hok H. unfold phase3 in H. cbv zeta in H.
  apply pair_loop_some in H as (i & k & Hi & Hk & H).
  apply first_test_some in H as (t & Hin & Ht).
  unfold phase3_tests in Hin. cbn [In] in Hin.
  destruct Hin as [[= <- <-] | [[= <- <-] | [[= <- <-] | []]]].
  - rewrite (equals_masked_binary OR) in Ht by auto with gates.
    eexists. split; [| exact Ht].
    apply (builds_binary OR tor); auto with gates; lia.
  - rewrite (equals_masked_binary AND) in Ht by auto with gates.
    eexists. split; [| exact Ht].
    apply (builds_binary AND tand); auto with gates; lia.
  - rewrite (equals_masked_binary XOR) in Ht by auto with gates.
    eexists. split; [| exact Ht].
    apply (builds_binary XOR txor); auto with gates; lia.
Qed.

Lemma phase3_none st target mask :
  phase3 st target mask = None ->
  forall ty op i k, binary_op ty op -> 0 <= i < k -> k < num_gates st ->
    ttable_equals_mask target (op (table (gate_at st i)) (table (gate_at st k))) mask
    = false.
Proof.
  intros H ty op i k Hop Hi Hk. unfold phase3 in H. cbv zeta in H.
  pose proof (pair_loop_none _ _ H i k Hi Hk) as H1. cbv beta in H1.
  pose proof (first_test_none _ _ H1) as H2.
  rewrite <- (equals_masked_binary ty) by assumption.
  destruct Hop as [[_ ->] | [[_ ->] | [_ ->]]];
    eapply H2; unfold phase3_tests; cbn [In]; eauto.
Qed.

Lemma phase4_some st target mask m :
  state_ok st -> phase4 st target mask = Some m ->
  exists t, builds m st t /\ ttable_equals_mask target t mask = true.
Proof.
  intros Hok H. unfold phase4 in H. cbv zeta in H.
  apply pair_loop_some in H as (i & k & Hi & Hk & H).
  apply first_test_some in H as (t & Hin & Ht).
  unfold phase4_tests in Hin. cbn [In] in Hin.
  repeat (destruct Hin as [[= <- <-] | Hin];
          [eexists; split; [| exact Ht] |]); [| | | | | | | destruct Hin].
  - apply (builds_binary_not OR tor); auto with gates; lia.
  - apply (builds_binary_not AND tand); auto with gates; lia.
  - apply (builds_binary_not XOR txor); auto with gates; lia.
  - apply (builds_not_binary OR tor); auto with gates; lia.
  - apply (builds_not_binary OR tor); auto with gates; lia.
  - apply (builds_not_binary AND tand); auto with gates; lia.
  - apply (builds_not_binary AND tand); auto with gates; lia.
Qed.

Lemma triple_loop_some {B : Type} (f : Z -> Z -> Z -> option B) (n : Z) (b : B) :
  first_some (fun i =>
    first_some (fun k => first_some (f i k) (for_range (k + 1) n)) (for_range (i + 1) n))
    (for_range 0 n) = Some b ->
  exists i k m, 0 <= i < k /\ k < m /\ m < n /\ f i k m = Some b.
Proof.
  intros H. apply pair_loop_some in H as (i & k & Hi & Hk & H).
  apply first_some_some in H as (m & Hm & H).
  apply in_for_range in Hm. exists i, k, m. repeat split; try lia. assumption.
Qed.

(** Finds, for one test of the triple search, the construction it stands
    for. *)
Ltac triple_case Ht :=
  first
    [ rewrite (equals_masked_binary2 AND tand AND tand) in Ht by auto with gates;
      eexists; split; [apply (builds_binary_binary AND tand AND tand) | exact Ht]
    | rewrite (equals_masked_binary2 AND tand OR tor) in Ht by auto with gates;
      eexists; split; [apply (builds_binary_binary AND tand OR tor) | exact Ht]
    | rewrite (equals_masked_binary2 AND tand XOR txor) in Ht by auto with gates;
      eexists; split; [apply (builds_binary_binary AND tand XOR txor) | exact Ht]
    | rewrite (equals_masked_binary2 OR tor AND tand) in Ht by auto with gates;
      eexists; split; [apply (builds_binary_binary OR tor AND tand) | exact Ht]
    | rewrite (equals_masked_binary2 OR tor OR tor) in Ht by auto with gates;
      eexists; split; [apply (builds_binary_binary OR tor OR tor) | exact Ht]
    | rewrite (equals_masked_binary2 OR tor XOR txor) in Ht by auto with gates;
      eexists; split; [apply (builds_binary_binary OR tor XOR txor) | exact Ht]
    | rewrite (equals_masked_binary2 XOR txor AND tand) in Ht by auto with gates;
      eexists; split; [apply (builds_binary_binary XOR txor AND tand) | exact Ht]
    | rewrite (equals_masked_binary2 XOR txor OR tor) in Ht by auto with gates;
      eexists; split; [apply (builds_binary_binary XOR txor OR tor) | exact Ht]
    | rewrite (equals_masked_binary2 XOR txor XOR txor) in Ht by auto with gates;
      eexists; split; [apply (builds_binary_binary XOR txor XOR txor) | exact Ht] ];
  auto with gates; lia.

Lemma phase5_some st target mask m :
  state_ok st -> phase5 st target mask = Some m ->
  exists t, builds m st t /\ ttable_equals_mask target t mask = true.
Proof.
  intros Hok H. unfold phase5 in H. cbv zeta in H.
  apply triple_loop_some in H as (i & k & j & Hi & Hk & Hj & H).
  apply first_test_some in H as (t & Hin & Ht).
  unfold phase5_tests in Hin. cbv zeta in Hin. cbn [In] in Hin.
  repeat (destruct Hin as [[= <- <-] | Hin]; [triple_case Ht |]).
  destruct Hin.
Qed.

Lemma phases_1_5_some st target mask m :
  state_ok st -> phases_1_5 st target mask = Some m ->
  (exists i, m = ret i /\ 0 <= i < num_gates st
             /\ ttable_equals_mask target (table (gate_at st i)) mask = true)
  \/ (no_match st target mask
      /\ exists t, builds m st t /\ ttable_equals_mask target t mask = true).
Proof.
  intros Hok. unfold phases_1_5.
  destruct (phase1 st target mask) as [m1 |] eqn:E1.
  { intros [= ->]. left. now apply phase1_some. }
  apply phase1_none in E1.
  destruct (phase2 st target mask) as [m2 |] eqn:E2.
  { intros [= ->]. right. split; [assumption |]. now apply phase2_some. }
  destruct (phase3 st target mask) as [m3 |] eqn:E3.
  { intros [= ->]. right. split; [assumption |]. now apply phase3_some. }
  destruct (phase4 st target mask) as [m4 |] eqn:E4.
  { intros [= ->]. right. split; [assumption |]. now apply phase4_some. }
  intros H. right. split; [assumption |]. now apply phase5_some.
Qed.

(** When none of the searches finds a match, no gate of the state and no
    table one gate away has the requested table. *)
Lemma phases_1_5_none st target mask :
  phases_1_5 st target mask = None ->
  no_match st target mask
  /\ forall t, derived st t -> ttable_equals_mask target t mask = false.
Proof.
  unfold phases_1_5.
  destruct (phase1 st target mask) eqn:E1; [discriminate |].
  destruct (phase2 st target mask) eqn:E2; [discriminate |].
  destruct (phase3 st target mask) eqn:E3; [discriminate |].
  intros _. split; [now apply phase1_none |].
  intros t [(i & Hi & ->) | (i & k & Hi & Hk & [-> | [-> | ->]])].
  - now apply phase2_none.
  - apply (phase3_none _ _ _ E3 AND tand); auto with gates.
  - apply (phase3_none _ _ _ E3 OR tor); auto with gates.
  - apply (phase3_none _ _ _ E3 XOR txor); auto with gates.
Qed.

(** A gate-adding call that was chosen by a search meets the contract of
    [create_circuit]. *)
Lemma builds_post m st target mask t r st' :
  state_ok st -> no_match st target mask ->
  builds m st t -> ttable_equals_mask target t mask = true ->
  m st = Ret (r, st') -> create_circuit_post st target mask r st'.
Proof.
  intros Hok Hno (r0 & st0 & Hm & Hok0 & Hext & Hcase) Ht Hrun.
  rewrite Hm in Hrun. injection Hrun as <- <-.
  split; [assumption |]. split; [assumption |].
  destruct Hcase as [[-> Hleft] | (Hr & Hlt & -> & Htab)].
  - split; [intros _; split; assumption | intros H; contradiction].
  - split; [intros H; contradiction |]. intros _. split.
    + split; [destruct Hok; lia |]. now rewrite Htab.
    + right. split; [assumption | reflexivity].
Qed.

Lemma phases_1_5_post st target mask m r st' :
  state_ok st -> phases_1_5 st target mask = Some m -> m st = Ret (r, st') ->
  create_circuit_post st target mask r st'.
Proof.
  intros Hok Hph Hrun.
  destruct (phases_1_5_some _ _ _ _ Hok Hph) as [(i & -> & Hi & Ht) | (Hno & t & Hb & Ht)].
  - injection Hrun as <- <-.
    assert (Hne : i <> NO_GATE) by (apply NO_GATE_large; destruct Hok; lia).
    split; [assumption |]. split; [apply state_ext_refl |].
    split; [intros H; contradiction |]. intros _. split; [split; assumption |].
    left. split; [lia | reflexivity].
  - now apply (builds_post m st target mask t).
Qed.

(** ** The two multiplexers, bit by bit *)

Lemma is_ttable_high_clear (t : ttable) : is_ttable t -> high_clear t.
Proof.
  intros Ht j Hj. unfold tbit, is_ttable in *.
  rewrite <- (Z.mod_small t (2 ^ 256)) by assumption.
  apply Z.mod_pow2_bits_high. lia.
Qed.

Lemma high_clear_tand (mask t : ttable) : high_clear mask -> high_clear (tand mask t).
Proof. intros H j Hj. rewrite tbit_tand, (H j Hj). reflexivity. Qed.

(** Proves a masked equality of tables from masked equalities, bit by bit;
    above bit 255 the mask is clear. *)
Ltac mux_bits Hm :=
  let j := fresh "j" in
  let Hj := fresh "Hj" in
  let E := fresh "E" in
  apply ttable_ext; intros j Hj; tbits_hyps j; tbits;
  specialize (Hm j);
  destruct (j <? 256) eqn:E;
  [ clear Hm | rewrite Hm by (apply Z.ltb_ge in E; lia) ];
  repeat match goal with
  | |- context [tbit ?a j] =>
      let b := fresh "b" in
      generalize (tbit a j); intros b
  end;
  repeat match goal with b : bool |- _ => destruct b end;
  cbn; intros; congruence.

Lemma mux_and_table (target mask fsel fb fc : ttable) :
  high_clear mask ->
  ttable_equals_mask (tand target (tnot fsel)) fb (tand mask (tnot fsel)) = true ->
  ttable_equals_mask (txor fb target) fc (tand mask fsel) = true ->
  ttable_equals_mask target (txor fb (tand fc fsel)) mask = true.
Proof.
  intros Hm H1 H2. apply ttable_equals_mask_eq in H1, H2. apply ttable_equals_mask_eq.
  mux_bits Hm.
Qed.

Lemma mux_or_table (target mask fsel fd fe : ttable) :
  high_clear mask ->
  ttable_equals_mask (tand (tnot target) fsel) fd (tand mask fsel) = true ->
  ttable_equals_mask (txor fd target) fe (tand mask (tnot fsel)) = true ->
  ttable_equals_mask target (txor fd (tor fe fsel)) mask = true.
Proof.
  intros Hm H1 H2. apply ttable_equals_mask_eq in H1, H2. apply ttable_equals_mask_eq.
  mux_bits Hm.
Qed.

(** When the target is zero on the mask, the selection bit itself is a
    match for the first call of the OR multiplexer. *)
Lemma mux_or_zero_target (target mask fsel : ttable) :
  high_clear mask ->
  ttable_equals_mask target 0 mask = true ->
  ttable_equals_mask (tand (tnot target) fsel) fsel (tand mask fsel) = true.
Proof.
  intros Hm H. apply ttable_equals_mask_eq in H. apply ttable_equals_mask_eq.
  mux_bits Hm.
Qed.

(** ** The multiplexer constructions *)

Lemma state_ext_gate st st' i :
  state_ext st st' -> i < num_gates st -> gate_at st' i = gate_at st i.
Proof. intros (_ & _ & _ & H). apply H. Qed.

Lemma state_ext_num st st' : state_ext st st' -> num_gates st <= num_gates st'.
Proof. intros (_ & _ & H & _). exact H. Qed.

(** The last two gates of a multiplexer: [op] of the second result and the
    selection bit, then XOR with the first result. *)
Lemma mux_tail ty op s1 s2 fb fc bit a s4 :
  binary_op ty op -> state_ok s1 -> state_ok s2 -> state_ext s1 s2 ->
  0 <= fb < num_gates s1 -> (fc = NO_GATE \/ 0 <= fc < num_gates s2) -> 0 <= bit < 8 ->
  bind (add_binary_gate ty op fc bit) (fun g => add_xor_gate fb g) s2 = Ret (a, s4) ->
  state_ok s4 /\ state_ext s2 s4
  /\ (a <> NO_GATE ->
      num_gates s2 < num_gates s4 /\ a = num_gates s4 - 1
      /\ table (gate_at s4 a)
         = txor (table (gate_at s1 fb))
                (op (table (gate_at s2 fc)) (table (gate_at s2 bit)))).
Proof.
  intros Hop Hok1 Hok2 Hext Hfb Hfc Hbit Hrun.
  destruct (binary_op_type _ _ Hop) as [Hin Hnot].
  pose proof (state_ext_num _ _ Hext) as Hn12.
  pose proof (ok_inputs _ Hok2) as Hin2.
  unfold bind in Hrun.
  destruct Hfc as [-> | Hfc].
  { unfold add_binary_gate in Hrun. rewrite add_gate_no_input1 in Hrun.
    unfold add_xor_gate in Hrun. rewrite add_gate_no_input2 in Hrun by discriminate.
    injection Hrun as <- <-.
    split; [assumption |]. split; [apply state_ext_refl |]. intros H; contradiction. }
  destruct (builds_binary ty op s2 fc bit Hop Hok2 Hfc ltac:(lia))
    as (g & s3 & Hg & Hok3 & Hext3 & Hcase).
  rewrite Hg in Hrun.
  destruct Hcase as [[-> _] | (Hgne & Hlt3 & -> & Htab3)].
  { unfold add_xor_gate in Hrun. rewrite add_gate_no_input2 in Hrun by discriminate.
    injection Hrun as <- <-.
    split; [assumption |]. split; [assumption |]. intros H; contradiction. }
  pose proof (state_ext_num _ _ Hext3) as Hn23.
  destruct (builds_binary XOR txor s3 fb (num_gates s3 - 1) binary_op_xor Hok3
              ltac:(lia) ltac:(lia))
    as (r & s4' & Hr & Hok4 & Hext4 & Hcase).
  change (add_binary_gate XOR txor fb (num_gates s3 - 1) s3)
    with (add_xor_gate fb (num_gates s3 - 1) s3) in Hr.
  rewrite Hr in Hrun. injection Hrun as <- <-.
  split; [assumption |]. split; [eapply state_ext_trans; eassumption |].
  intros Ha. destruct Hcase as [[-> _] | (_ & Hlt4 & -> & Htab4)]; [contradiction |].
  split; [lia |]. split; [reflexivity |].
  rewrite Htab4, Htab3.
  rewrite (state_ext_gate _ _ fb Hext3) by lia.
  rewrite (state_ext_gate _ _ fb Hext) by lia.
  reflexivity.
Qed.

(** When the first call of the OR multiplexer failed, no cell of the gate
    array of its state passes the final assertion, whatever [mux_out_or]
    happens to hold. *)
Lemma unassigned_mux_out_rejected st target mask bit nst g :
  state_ok st -> high_clear mask -> 0 <= bit < 8 ->
  phases_1_5 st target mask = None ->
  leftover st nst ->
  no_match st (tand (tnot target) (table (gate_at st bit)))
              (tand mask (table (gate_at st bit))) ->
  ttable_equals_mask target (table (gate_at nst g)) mask = false.
Proof.
  intros Hok Hm Hbit Hnone Hleft Hfd.
  destruct (phases_1_5_none _ _ _ Hnone) as [Hno Hder].
  pose proof (ok_inputs _ Hok) as Hin.
  assert (Hzero : ttable_equals_mask target 0 mask = false).
  { apply not_true_is_false. intros H.
    apply (mux_or_zero_target target mask (table (gate_at st bit)) Hm) in H.
    rewrite Hfd in H by lia. discriminate. }
  assert (Hst : forall i, ttable_equals_mask target (table (gate_at st i)) mask = false).
  { intros i. destruct (Z.lt_ge_cases i 0) as [Hneg | Hpos].
    - rewrite gate_at_neg by assumption. exact Hzero.
    - destruct (Z.lt_ge_cases i (num_gates st)) as [Hlt | Hge].
      + apply Hno. lia.
      + rewrite (ok_clean _ Hok) by assumption. exact Hzero. }
  destruct Hleft as [-> | (g0 & -> & Hlt & Hd)]; [apply Hst |].
  destruct (Z.eq_dec g (num_gates st)) as [-> | Hne].
  - rewrite gate_at_push by assumption. now apply Hder.
  - rewrite gate_at_push_other by (assumption || lia). apply Hst.
Qed.

Lemma candidate_intro st target mask nst :
  state_ok nst -> state_ext st nst -> num_gates st < num_gates nst ->
  ttable_equals_mask target (table (gate_at nst (num_gates nst - 1))) mask = true ->
  candidate_ok st target mask nst.
Proof. unfold candidate_ok. auto. Qed.

Section SplitProperties.

Variable u : Z.
Variable cc : ttable -> ttable -> list Z -> M Z.

(** The recursive calls meet the contract. *)
Hypothesis cc_post :
  forall target mask inbits st r st',
    state_ok st -> high_clear mask ->
    cc target mask inbits st = Ret (r, st') ->
    create_circuit_post st target mask r st'.

Lemma mux_and_post st target mask next bit a nst :
  state_ok st -> high_clear mask -> 0 <= bit < 8 ->
  mux_and cc target mask (table (gate_at st bit)) next bit st = Ret (a, nst) ->
  state_ok nst /\ state_ext st nst
  /\ (a <> NO_GATE ->
      num_gates st < num_gates nst /\ a = num_gates nst - 1
      /\ ttable_equals_mask target (table (gate_at nst a)) mask = true).
Proof.
  intros Hok Hm Hbit Hrun.
  pose proof (ok_inputs _ Hok) as Hin.
  set (fsel := table (gate_at st bit)) in *.
  unfold mux_and in Hrun. unfold bind at 1 in Hrun.
  destruct (cc (tand target (tnot fsel)) (tand mask (tnot fsel)) next st)
    as [[fb s1] | |] eqn:E1; try discriminate.
  destruct (cc_post _ _ _ _ _ _ Hok (high_clear_tand _ _ Hm) E1)
    as (Hok1 & Hext1 & _ & Hs1).
  destruct (Z.eqb_spec fb NO_GATE) as [-> | Hfb]; cbn [negb] in Hrun.
  { injection Hrun as <- <-.
    split; [assumption |]. split; [assumption |]. intros H; contradiction. }
  destruct (Hs1 Hfb) as ([Hfb1 Heq1] & _).
  unfold bind at 1, get_state in Hrun. unfold bind at 1 in Hrun.
  destruct (cc (txor (table (gate_at s1 fb)) target) (tand mask fsel) next s1)
    as [[fc s2] | |] eqn:E2; try discriminate.
  destruct (cc_post _ _ _ _ _ _ Hok1 (high_clear_tand _ _ Hm) E2)
    as (Hok2 & Hext2 & _ & Hs2).
  assert (Hfc : fc = NO_GATE \/ 0 <= fc < num_gates s2).
  { destruct (Z.eq_dec fc NO_GATE) as [? | Hne]; [left; assumption | right].
    now destruct (Hs2 Hne) as ([? _] & _). }
  destruct (mux_tail AND tand s1 s2 fb fc bit a nst binary_op_and Hok1 Hok2 Hext2
              Hfb1 Hfc Hbit Hrun) as (Hok4 & Hext4 & Ha).
  split; [assumption |].
  split; [eapply state_ext_trans; [eassumption | eapply state_ext_trans; eassumption] |].
  intros Hne.
  assert (Hfcne : fc <> NO_GATE).
  { intros ->. revert Hrun. unfold bind, add_and_gate.
    rewrite add_gate_no_input1. unfold add_xor_gate.
    rewrite add_gate_no_input2 by discriminate. intros [= <- <-]. contradiction. }
  destruct (Ha Hne) as (Hlt & -> & Htab).
  pose proof (state_ext_num _ _ Hext1). pose proof (state_ext_num _ _ Hext2).
  split; [lia |]. split; [reflexivity |].
  rewrite Htab.
  destruct (Hs2 Hfcne) as ([_ Heq2] & _).
  rewrite (state_ext_gate _ _ bit Hext2) by lia.
  rewrite (state_ext_gate _ _ bit Hext1) by lia. fold fsel.
  now apply mux_and_table.
Qed.

(** The OR multiplexer: built, failed with [NO_GATE], or -- when its first
    call failed -- ended with the unassigned [mux_out_or]. *)
Lemma mux_or_post st target mask next bit o nst :
  state_ok st -> high_clear mask -> 0 <= bit < 8 ->
  mux_or u cc target mask (table (gate_at st bit)) next bit st = Ret (o, nst) ->
  state_ok nst /\ state_ext st nst
  /\ ((o = u /\ leftover st nst
       /\ no_match st (tand (tnot target) (table (gate_at st bit)))
                      (tand mask (table (gate_at st bit))))
      \/ o = NO_GATE
      \/ (num_gates st < num_gates nst /\ o = num_gates nst - 1
          /\ ttable_equals_mask target (table (gate_at nst o)) mask = true)).
Proof.
  intros Hok Hm Hbit Hrun.
  pose proof (ok_inputs _ Hok) as Hin.
  set (fsel := table (gate_at st bit)) in *.
  unfold mux_or in Hrun. unfold bind at 1 in Hrun.
  destruct (cc (tand (tnot target) fsel) (tand mask fsel) next st)
    as [[fd s1] | |] eqn:E1; try discriminate.
  destruct (cc_post _ _ _ _ _ _ Hok (high_clear_tand _ _ Hm) E1)
    as (Hok1 & Hext1 & Hf1 & Hs1).
  destruct (Z.eqb_spec fd NO_GATE) as [-> | Hfd]; cbn [negb] in Hrun.
  { injection Hrun as <- <-. destruct (Hf1 eq_refl) as [Hleft Hno].
    split; [assumption |]. split; [assumption |]. left. auto. }
  destruct (Hs1 Hfd) as ([Hfd1 Heq1] & _).
  unfold bind at 1, get_state in Hrun. unfold bind at 1 in Hrun.
  destruct (cc (txor (table (gate_at s1 fd)) target) (tand mask (tnot fsel)) next s1)
    as [[fe s2] | |] eqn:E2; try discriminate.
  destruct (cc_post _ _ _ _ _ _ Hok1 (high_clear_tand _ _ Hm) E2)
    as (Hok2 & Hext2 & _ & Hs2).
  assert (Hfe : fe = NO_GATE \/ 0 <= fe < num_gates s2).
  { destruct (Z.eq_dec fe NO_GATE) as [? | Hne]; [left; assumption | right].
    now destruct (Hs2 Hne) as ([? _] & _). }
  destruct (mux_tail OR tor s1 s2 fd fe bit o nst binary_op_or Hok1 Hok2 Hext2
              Hfd1 Hfe Hbit Hrun) as (Hok4 & Hext4 & Ho).
  split; [assumption |].
  split; [eapply state_ext_trans; [eassumption | eapply state_ext_trans; eassumption] |].
  destruct (Z.eq_dec o NO_GATE) as [? | Hne]; [right; left; assumption |].
  right. right.
  assert (Hfene : fe <> NO_GATE).
  { intros ->. revert Hrun. unfold bind, add_or_gate.
    rewrite add_gate_no_input1. unfold add_xor_gate.
    rewrite add_gate_no_input2 by discriminate. intros [= <- <-]. contradiction. }
  destruct (Ho Hne) as (Hlt & -> & Htab).
  pose proof (state_ext_num _ _ Hext1). pose proof (state_ext_num _ _ Hext2).
  split; [lia |]. split; [reflexivity |].
  rewrite Htab.
  destruct (Hs2 Hfene) as ([_ Heq2] & _).
  rewrite (state_ext_gate _ _ bit Hext2) by lia.
  rewrite (state_ext_gate _ _ bit Hext1) by lia. fold fsel.
  now apply mux_or_table.
Qed.

(** One iteration of the loop over the input bits keeps [best] a candidate
    (or as initialised). *)
Lemma split_on_bit_post st target mask inbits next bitp best bit best' :
  state_ok st -> high_clear mask -> phases_1_5 st target mask = None ->
  0 <= bit < 8 -> best_ok st target mask best ->
  split_on_bit u cc st target mask inbits next bitp best bit = Ret best' ->
  best_ok st target mask best'.
Proof.
  intros Hok Hm Hnone Hbit Hbest Hrun. unfold split_on_bit in Hrun.
  destruct (existsb _ _); [injection Hrun as <-; assumption |].
  cbv zeta in Hrun.
  destruct (mux_and cc target mask (table (gate_at st bit)) _ bit st)
    as [[a sa] | |] eqn:Ea; try discriminate.
  destruct (mux_or u cc target mask (table (gate_at st bit)) _ bit st)
    as [[o so] | |] eqn:Eo; try discriminate.
  destruct (mux_and_post _ _ _ _ _ _ _ Hok Hm Hbit Ea) as (Hoka & Hexta & Ha).
  destruct (mux_or_post _ _ _ _ _ _ _ Hok Hm Hbit Eo) as (Hoko & Hexto & Ho).
  destruct ((a =? NO_GATE) && (o =? NO_GATE)) eqn:Eboth;
    [injection Hrun as <-; assumption |].
  assert (Hkeep : forall nst,
             candidate_ok st target mask nst ->
             best_ok st target mask
               (if (num_gates best =? 0) || (num_gates nst <? num_gates best)
                then nst else best)).
  { intros nst Hc. destruct (_ || _); [right |]; assumption. }
  assert (Hand : a <> NO_GATE ->
                 ttable_equals_mask target (table (gate_at sa a)) mask = true
                 /\ candidate_ok st target mask sa).
  { intros Hne. destruct (Ha Hne) as (Hlt & -> & Heq).
    split; [assumption |]. now apply candidate_intro. }
  unfold mux_select in Hrun.
  destruct (Z.eqb_spec o NO_GATE) as [-> | Hone]; cbn [orb] in Hrun.
  - rewrite andb_true_r in Eboth. apply Z.eqb_neq in Eboth.
    destruct (Hand Eboth) as [Heq Hc]. rewrite Heq in Hrun.
    injection Hrun as <-. now apply Hkeep.
  - destruct (Z.eqb_spec a NO_GATE) as [-> | Hane]; cbn [negb andb] in Hrun.
    + destruct Ho as [(-> & Hleft & Hfd) | [-> | (Hlt & -> & Heq)]]; [| contradiction |].
      * rewrite (unassigned_mux_out_rejected st target mask bit so u) in Hrun
          by assumption.
        discriminate.
      * rewrite Heq in Hrun. injection Hrun as <-.
        apply Hkeep. now apply candidate_intro.
    + destruct (num_gates sa <? num_gates so).
      * destruct (Hand Hane) as [Heq Hc]. rewrite Heq in Hrun.
        injection Hrun as <-. now apply Hkeep.
      * destruct Ho as [(-> & Hleft & Hfd) | [-> | (Hlt & -> & Heq)]]; [| contradiction |].
        -- rewrite (unassigned_mux_out_rejected st target mask bit so u) in Hrun
             by assumption.
           discriminate.
        -- rewrite Heq in Hrun. injection Hrun as <-.
           apply Hkeep. now apply candidate_intro.
Qed.

Lemma split_loop_post st target mask inbits next bitp bits :
  state_ok st -> high_clear mask -> phases_1_5 st target mask = None ->
  (forall bit, In bit bits -> 0 <= bit < 8) ->
  forall best best', best_ok st target mask best ->
    split_loop u cc st target mask inbits next bitp best bits = Ret best' ->
    best_ok st target mask best'.
Proof.
  intros Hok Hm Hnone. induction bits as [| bit bits IH]; intros Hbits best best' Hbest.
  - cbn [split_loop]. now intros [= <-].
  - cbn [split_loop].
    destruct (split_on_bit u cc st target mask inbits next bitp best bit)
      as [best1 | |] eqn:E; try discriminate.
    apply IH; [intros b Hb; apply Hbits; right; assumption |].
    eapply split_on_bit_post; try eassumption. apply Hbits. left. reflexivity.
Qed.

Lemma split_post st target mask inbits r st' :
  state_ok st -> high_clear mask -> phases_1_5 st target mask = None ->
  split u cc target mask inbits st = Ret (r, st') ->
  create_circuit_post st target mask r st'.
Proof.
  intros Hok Hm Hnone Hrun. unfold split in Hrun.
  destruct (copy_inbits 6 inbits next_inbits_uninit 0) as [next bitp].
  destruct (negb (bitp <? 6)); [discriminate |]. cbv zeta in Hrun.
  destruct (split_loop u cc st target mask inbits _ bitp best_init (for_range 0 8))
    as [best | |] eqn:E; try discriminate.
  apply split_loop_post in E; try assumption;
    [| intros bit Hb; now apply in_for_range in Hb | left; reflexivity].
  destruct (phases_1_5_none _ _ _ Hnone) as [Hno _].
  destruct (Z.eqb_spec (num_gates best) 0) as [E0 | E0].
  - injection Hrun as <- <-.
    split; [assumption |]. split; [apply state_ext_refl |].
    split; [intros _; split; [left; reflexivity | assumption] |].
    intros H; contradiction.
  - injection Hrun as <- <-.
    destruct E as [-> | (Hokb & Hextb & Hlt & Heq)]; [contradiction E0; reflexivity |].
    pose proof (ok_inputs _ Hok) as Hin. pose proof (ok_budget _ Hokb) as Hbud.
    pose proof (ok_max _ Hokb) as Hmax. unfold MAX_GATES in Hmax.
    assert (Hw : wrap64 (num_gates best - 1) = num_gates best - 1)
      by (unfold wrap64; apply Z.mod_small; lia).
    rewrite Hw.
    split; [assumption |]. split; [assumption |].
    split; [intros H; exfalso; revert H; apply NO_GATE_large; unfold MAX_GATES; lia |].
    intros _. split; [split; [lia | assumption] |].
    right. split; [assumption | reflexivity].
Qed.

End SplitProperties.

(** ** The contract of [create_circuit] *)

Lemma create_circuit_fuel_post (u : Z) (fuel : nat) :
  forall target mask inbits st r st',
    state_ok st -> high_clear mask ->
    create_circuit_fuel u fuel target mask inbits st = Ret (r, st') ->
    create_circuit_post st target mask r st'.
Proof.
  induction fuel as [| fuel IH]; intros target mask inbits st r st' Hok Hm Hrun.
  - discriminate.
  - cbn [create_circuit_fuel] in Hrun.
    destruct (phases_1_5 st target mask) as [m |] eqn:E.
    + now apply (phases_1_5_post st target mask m).
    + now apply (split_post u (create_circuit_fuel u fuel) IH st target mask inbits).
Qed.

(** ** The used input bits and the depth of the recursion *)

Lemma inbit_insert_same (l : list Z) (i v : Z) :
  0 <= i -> (Z.to_nat i < length l)%nat -> inbit (<[Z.to_nat i := v]> l) i = v.
Proof. intros Hi Hl. unfold inbit. now apply list_lookup_total_insert_eq. Qed.

Lemma inbit_insert_other (l : list Z) (i j v : Z) :
  0 <= i -> 0 <= j -> i <> j -> inbit (<[Z.to_nat i := v]> l) j = inbit l j.
Proof. intros Hi Hj Hne. unfold inbit. apply list_lookup_total_insert_ne. lia. Qed.

Lemma copy_inbits_spec (n : nat) (inbits : list Z) :
  forall next b next' b',
    length next = 8%nat -> 0 <= b ->
    copy_inbits n inbits next b = (next', b') ->
    length next' = 8%nat /\ b <= b'
    /\ (forall j, b <= j < b' -> inbit next' j = inbit inbits j /\ inbit inbits j <> -1)
    /\ (forall j, 0 <= j < b -> inbit next' j = inbit next j).
Proof.
  induction n as [| n IH]; intros next b next' b' Hlen Hb Hrun; cbn [copy_inbits] in Hrun.
  - injection Hrun as <- <-. repeat split; try assumption; try lia.
  - destruct ((b <? 6) && negb (inbit inbits b =? -1)) eqn:Hc.
    + apply andb_prop in Hc as [Hlt Hne]. apply Z.ltb_lt in Hlt.
      apply negb_true_iff, Z.eqb_neq in Hne.
      apply IH in Hrun as (Hlen' & Hbb & Hcopied & Hkept);
        [| now rewrite length_insert | lia].
      split; [assumption |]. split; [lia |]. split.
      * intros j Hj. destruct (Z.eq_dec j b) as [-> | Hjb].
        -- rewrite Hkept by lia. rewrite inbit_insert_same by lia. auto.
        -- apply Hcopied. lia.
      * intros j Hj. rewrite Hkept by lia. apply inbit_insert_other; lia.
    + injection Hrun as <- <-. repeat split; try assumption; try lia.
Qed.

Lemma copy_inbits_stop (n : nat) (l : list Z) :
  forall next s b,
    0 <= s <= b -> b <= 6 -> b - s <= Z.of_nat n ->
    (forall j, s <= j < b -> inbit l j <> -1) ->
    (b < 6 -> inbit l b = -1) ->
    snd (copy_inbits n l next s) = b.
Proof.
  induction n as [| n IH]; intros next s b Hs Hb Hn Hused Hend; cbn [copy_inbits].
  - cbn [snd]. lia.
  - destruct (Z.eq_dec s b) as [-> | Hsb].
    + destruct (Z.eq_dec b 6) as [-> | Hb6]; [reflexivity |].
      rewrite Hend by lia. rewrite Z.eqb_refl. cbn [negb]. rewrite andb_false_r.
      reflexivity.
    + replace (s <? 6) with true by (symmetry; apply Z.ltb_lt; lia).
      replace (inbit l s =? -1) with false
        by (symmetry; apply Z.eqb_neq; apply Hused; lia).
      cbn [negb andb]. apply IH; try lia; try assumption.
      intros j Hj. apply Hused. lia.
Qed.

Lemma used_bits_range (inbits : list Z) : 0 <= used_bits inbits <= 6.
Proof.
  unfold used_bits.
  assert (H : forall n next b, 0 <= b <= 6 -> b <= snd (copy_inbits n inbits next b) <= 6).
  { induction n as [| n IH]; intros next b Hb; cbn [copy_inbits]; [cbn [snd]; lia |].
    destruct ((b <? 6) && negb (inbit inbits b =? -1)) eqn:Hc; [| cbn [snd]; lia].
    apply andb_prop in Hc as [Hlt _]. apply Z.ltb_lt in Hlt.
    specialize (IH (<[Z.to_nat b := inbit inbits b]> next) (b + 1)). lia. }
  specialize (H 6%nat next_inbits_uninit 0). lia.
Qed.

(** The array passed to the recursive calls has one more used bit. *)
Lemma used_bits_next (inbits next : list Z) (bitp bit : Z) :
  copy_inbits 6 inbits next_inbits_uninit 0 = (next, bitp) ->
  bitp < 6 -> bit <> -1 ->
  used_bits (<[Z.to_nat bitp := bit]>
               (<[Z.to_nat (bitp + 1) := -1]> (<[Z.to_nat bitp := -1]> next)))
  = bitp + 1.
Proof.
  intros Hcopy Hlt Hbit.
  apply copy_inbits_spec in Hcopy as (Hlen & Hb & Hcopied & _); [| reflexivity | lia].
  unfold used_bits. apply copy_inbits_stop; try lia.
  - intros j Hj. destruct (Z.eq_dec j bitp) as [-> | Hne].
    + rewrite inbit_insert_same by (rewrite ?length_insert; lia). assumption.
    + rewrite !inbit_insert_other by lia. rewrite (proj1 (Hcopied j ltac:(lia))).
      apply Hcopied. lia.
  - intros _. rewrite inbit_insert_other by lia.
    rewrite inbit_insert_same by (rewrite ?length_insert; lia). reflexivity.
Qed.

(** Gate-adding calls return or stop on an assertion. *)
Lemma add_gate_returns ty t g1 g2 st : add_gate ty t g1 g2 st <> OutOfFuel.
Proof.
  rewrite add_gate_cases.
  repeat match goal with |- context [if ?c then _ else _] => destruct c end;
    discriminate.
Qed.

Lemma bind_returns {A : Type} (m : M A) (f : A -> M Z) st :
  m st <> OutOfFuel -> (forall a st', f a st' <> OutOfFuel) ->
  bind m f st <> OutOfFuel.
Proof.
  intros Hm Hf. unfold bind. destruct (m st) as [[a st'] | |]; auto; discriminate.
Qed.

Lemma tests_return (test : ttable -> bool) (tests : list (ttable * M Z)) (m : M Z) :
  Forall (fun c => forall st, snd c st <> OutOfFuel) tests ->
  first_test test tests = Some m -> forall st, m st <> OutOfFuel.
Proof.
  intros Hall H. apply first_test_some in H as (t & Hin & _).
  rewrite List.Forall_forall in Hall. exact (Hall (t, m) Hin).
Qed.

Lemma add_not_gate_returns g st : add_not_gate g st <> OutOfFuel.
Proof. unfold add_not_gate. apply add_gate_returns. Qed.

Lemma add_and_gate_returns a b st : add_and_gate a b st <> OutOfFuel.
Proof. unfold add_and_gate. apply add_gate_returns. Qed.

Lemma add_or_gate_returns a b st : add_or_gate a b st <> OutOfFuel.
Proof. unfold add_or_gate. apply add_gate_returns. Qed.

Lemma add_xor_gate_returns a b st : add_xor_gate a b st <> OutOfFuel.
Proof. unfold add_xor_gate. apply add_gate_returns. Qed.

Ltac one_returns :=
  lazymatch goal with
  | |- add_not_gate _ _ <> OutOfFuel => apply add_not_gate_returns
  | |- add_and_gate _ _ _ <> OutOfFuel => apply add_and_gate_returns
  | |- add_or_gate _ _ _ <> OutOfFuel => apply add_or_gate_returns
  | |- add_xor_gate _ _ _ <> OutOfFuel => apply add_xor_gate_returns
  end.

Ltac returns :=
  intros;
  unfold add_nand_gate, add_nor_gate, add_xnor_gate, add_or_not_gate, add_and_not_gate,
         add_or_3_gate, add_and_3_gate, add_xor_3_gate, add_and_or_gate, add_and_xor_gate,
         add_xor_or_gate, add_xor_and_gate, add_or_and_gate, add_or_xor_gate;
  lazymatch goal with
  | |- bind _ _ _ <> OutOfFuel => apply bind_returns; [one_returns | intros; one_returns]
  | _ => one_returns
  end.

Lemma phases_1_5_return st target mask m :
  phases_1_5 st target mask = Some m -> forall st', m st' <> OutOfFuel.
Proof.
  unfold phases_1_5.
  destruct (phase1 st target mask) as [m1 |] eqn:E1.
  { intros [= ->]. apply phase1_some in E1 as (i & -> & _). discriminate. }
  destruct (phase2 st target mask) as [m2 |] eqn:E2.
  { intros [= ->]. unfold phase2 in E2.
    destruct (find _ _) as [i |]; [| discriminate].
    injection E2 as <-. returns. }
  destruct (phase3 st target mask) as [m3 |] eqn:E3.
  { intros [= ->]. unfold phase3 in E3. cbv zeta in E3.
    apply pair_loop_some in E3 as (i & k & _ & _ & E3).
    revert E3. apply tests_return. unfold phase3_tests.
    repeat (constructor; [cbn [snd]; returns |]). constructor. }
  destruct (phase4 st target mask) as [m4 |] eqn:E4.
  { intros [= ->]. unfold phase4 in E4. cbv zeta in E4.
    apply pair_loop_some in E4 as (i & k & _ & _ & E4).
    revert E4. apply tests_return. unfold phase4_tests.
    repeat (constructor; [cbn [snd]; returns |]). constructor. }
  intros E5. unfold phase5 in E5. cbv zeta in E5.
  apply triple_loop_some in E5 as (i & k & j & _ & _ & _ & E5).
  revert E5. apply tests_return. unfold phase5_tests. cbv zeta.
  repeat (constructor; [cbn [snd]; returns |]). constructor.
Qed.

Section SplitReturns.

Variable u : Z.
Variable cc : ttable -> ttable -> list Z -> M Z.
Variable next : list Z.

(** The recursive calls on [next] return or stop on an assertion. *)
Hypothesis cc_returns : forall t m st, cc t m next st <> OutOfFuel.

Lemma mux_and_returns target mask fsel bit st :
  mux_and cc target mask fsel next bit st <> OutOfFuel.
Proof.
  unfold mux_and. apply bind_returns; [apply cc_returns |].
  intros fb st1. destruct (negb (fb =? NO_GATE)); [| discriminate].
  apply bind_returns; [discriminate |]. intros nst st2.
  apply bind_returns; [apply cc_returns |]. intros fc st3.
  apply bind_returns; [apply add_and_gate_returns |]. intros andg st4.
  apply add_xor_gate_returns.
Qed.

Lemma mux_or_returns target mask fsel bit st :
  mux_or u cc target mask fsel next bit st <> OutOfFuel.
Proof.
  unfold mux_or. apply bind_returns; [apply cc_returns |].
  intros fd st1. destruct (negb (fd =? NO_GATE)); [| discriminate].
  apply bind_returns; [discriminate |]. intros nst st2.
  apply bind_returns; [apply cc_returns |]. intros fe st3.
  apply bind_returns; [apply add_or_gate_returns |]. intros org st4.
  apply add_xor_gate_returns.
Qed.

End SplitReturns.

Lemma split_returns u cc target mask inbits st :
  (forall next t m st',
     used_bits next = used_bits inbits + 1 -> cc t m next st' <> OutOfFuel) ->
  split u cc target mask inbits st <> OutOfFuel.
Proof.
  intros Hcc. unfold split.
  destruct (copy_inbits 6 inbits next_inbits_uninit 0) as [next bitp] eqn:Ecopy.
  assert (Hbitp : used_bits inbits = bitp) by (unfold used_bits; now rewrite Ecopy).
  destruct (Z.ltb_spec bitp 6) as [Hlt | Hge]; cbn [negb]; [| discriminate].
  cbv zeta.
  set (next1 := <[Z.to_nat (bitp + 1) := -1]> (<[Z.to_nat bitp := -1]> next)).
  assert (Hloop : forall bits best,
             (forall bit, In bit bits -> 0 <= bit < 8) ->
             split_loop u cc st target mask inbits next1 bitp best bits <> OutOfFuel).
  { induction bits as [| bit bits IH]; intros best Hbits; cbn [split_loop];
      [discriminate |].
    assert (Hbit : split_on_bit u cc st target mask inbits next1 bitp best bit
                   <> OutOfFuel).
    { unfold split_on_bit. destruct (existsb _ _); [discriminate |]. cbv zeta.
      assert (Hnext : forall t m st',
                 cc t m (<[Z.to_nat bitp := bit]> next1) st' <> OutOfFuel).
      { intros t m st'. apply Hcc. rewrite Hbitp. unfold next1.
        apply (used_bits_next inbits); [assumption | assumption |].
        specialize (Hbits bit ltac:(left; reflexivity)). lia. }
      pose proof (mux_and_returns cc _ Hnext target mask (table (gate_at st bit)) bit st)
        as Ha.
      destruct (mux_and cc target mask (table (gate_at st bit)) _ bit st)
        as [[a sa] | |]; [| discriminate | contradiction].
      pose proof (mux_or_returns u cc _ Hnext target mask (table (gate_at st bit)) bit st)
        as Ho.
      destruct (mux_or u cc target mask (table (gate_at st bit)) _ bit st)
        as [[o so] | |]; [| discriminate | contradiction].
      destruct (_ && _); [discriminate |].
      destruct (mux_select a sa o so) as [nst mux_out].
      destruct (ttable_equals_mask _ _ _); discriminate. }
    destruct (split_on_bit u cc st target mask inbits next1 bitp best bit)
      as [best1 | |]; [| discriminate | contradiction].
    apply IH. intros b Hb. apply Hbits. right. assumption. }
  specialize (Hloop (for_range 0 8) best_init
                    ltac:(intros bit Hb; now apply in_for_range in Hb)).
  destruct (split_loop u cc st target mask inbits next1 bitp best_init (for_range 0 8))
    as [best | |]; [| discriminate | contradiction].
  destruct (num_gates best =? 0); discriminate.
Qed.

(** The recursion is never cut short: fuel for the bits not yet used, plus
    one, is enough. *)
Lemma create_circuit_fuel_enough (u : Z) (fuel : nat) :
  forall target mask inbits st,
    7 <= used_bits inbits + Z.of_nat fuel ->
    create_circuit_fuel u fuel target mask inbits st <> OutOfFuel.
Proof.
  induction fuel as [| fuel IH]; intros target mask inbits st Hfuel.
  - pose proof (used_bits_range inbits). lia.
  - cbn [create_circuit_fuel].
    destruct (phases_1_5 st target mask) as [m |] eqn:E.
    + now apply (phases_1_5_return st target mask).
    + apply split_returns. intros next t m st' Hnext. apply IH. lia.
Qed.

Lemma create_circuit_returns (u : Z) target mask inbits st :
  create_circuit u target mask inbits st <> OutOfFuel.
Proof.
  apply create_circuit_fuel_enough. pose proof (used_bits_range inbits). lia.
Qed.

Lemma phases_1_5_run st target mask m :
  state_ok st -> phases_1_5 st target mask = Some m ->
  exists r st', m st = Ret (r, st').
Proof.
  intros Hok Hph.
  destruct (phases_1_5_some _ _ _ _ Hok Hph)
    as [(i & -> & _) | (_ & t & (r & st' & Hm & _) & _)].
  - exists i, st. reflexivity.
  - exists r, st'. exact Hm.
Qed.

Lemma is_ttable_full_mask : is_ttable full_mask.
Proof. unfold is_ttable. split; [vm_compute; discriminate | vm_compute; reflexivity]. Qed.

(** ** Calls that do not stop on an assertion *)

Lemma testbit_byte_high (k n : Z) : 0 <= k < 256 -> 8 <= n -> Z.testbit k n = false.
Proof.
  intros Hk Hn. rewrite <- (Z.mod_small k (2 ^ 8)) by (change (2 ^ 8) with 256; lia).
  apply Z.mod_pow2_bits_high. lia.
Qed.

Lemma mask_bit_range (mask : ttable) (k : Z) :
  high_clear mask -> tbit mask k = true -> 0 <= k < 256.
Proof.
  intros Hm Hk. split.
  - destruct (Z.lt_ge_cases k 0) as [Hneg | ?]; [| assumption].
    unfold tbit in Hk. rewrite Z.testbit_neg_r in Hk by assumption. discriminate.
  - destruct (Z.lt_ge_cases k 256) as [? | Hge]; [assumption |].
    rewrite (Hm k Hge) in Hk. discriminate.
Qed.

(** With six bits used, an index of the mask is known from two of its
    bits. *)
Lemma two_free_bits (inbits : list Z) (mask : ttable) :
  mask_fits inbits mask -> used_bits inbits = 6 ->
  exists a b, 0 <= a <= b /\ b < 8
    /\ forall k k', tbit mask k = true -> tbit mask k' = true ->
         Z.testbit k a = Z.testbit k' a -> Z.testbit k b = Z.testbit k' b -> k = k'.
Proof.
  intros (Hm & Hfixed & free & Hlen & Hrange & Hcover) Hsix. rewrite Hsix in *.
  assert (Hpair : exists a b, 0 <= a < 8 /\ 0 <= b < 8
                    /\ forall p, In p free -> p = a \/ p = b).
  { destruct free as [| a [| b [| c free]]].
    - exists 0, 0. repeat split; try lia. intros p [].
    - exists a, a. pose proof (Hrange a ltac:(left; reflexivity)).
      repeat split; try lia. intros p [<- | []]. auto.
    - exists a, b. pose proof (Hrange a ltac:(left; reflexivity)).
      pose proof (Hrange b ltac:(right; left; reflexivity)).
      repeat split; try lia. intros p [<- | [<- | []]]; auto.
    - cbn [length] in Hlen. lia. }
  destruct Hpair as (a & b & Ha & Hb & Hfree).
  assert (Hinj : forall k k', tbit mask k = true -> tbit mask k' = true ->
             Z.testbit k a = Z.testbit k' a -> Z.testbit k b = Z.testbit k' b -> k = k').
  { intros k k' Hk Hk' Hka Hkb.
    pose proof (mask_bit_range _ _ Hm Hk) as Hkr.
    pose proof (mask_bit_range _ _ Hm Hk') as Hkr'.
    apply Z.bits_inj'. intros n Hn.
    destruct (Z.lt_ge_cases n 8) as [Hlt | Hge];
      [| rewrite !testbit_byte_high by assumption; reflexivity].
    destruct (Hcover n ltac:(lia)) as [Hin | (j & Hj & <-)].
    - destruct (Hfree n Hin) as [-> | ->]; assumption.
    - destruct (Hfixed j Hj) as (_ & v & Hv). rewrite (Hv k Hk), (Hv k' Hk').
      reflexivity. }
  destruct (Z.le_gt_cases a b) as [Hab | Hba].
  - exists a, b. repeat split; try lia. exact Hinj.
  - exists b, a. repeat split; try lia. intros k k' Hk Hk' Hkb Hka. now apply Hinj.
Qed.

(** The target on such a mask is a function of these two bits. *)
Lemma target_of_two_bits (target mask : ttable) (a b : Z) :
  high_clear mask ->
  (forall k k', tbit mask k = true -> tbit mask k' = true ->
     Z.testbit k a = Z.testbit k' a -> Z.testbit k b = Z.testbit k' b -> k = k') ->
  exists f : bool -> bool -> bool,
    forall k, tbit mask k = true -> tbit target k = f (Z.testbit k a) (Z.testbit k b).
Proof.
  intros Hm Hinj.
  set (pick := fun va vb : bool =>
         find (fun k => tbit mask k && Bool.eqb (Z.testbit k a) va
                        && Bool.eqb (Z.testbit k b) vb) (for_range 0 256)).
  exists (fun va vb => match pick va vb with Some k => tbit target k | None => false end).
  intros k Hk. pose proof (mask_bit_range _ _ Hm Hk) as Hkr.
  destruct (find_for_range_least
              (fun k' => tbit mask k' && Bool.eqb (Z.testbit k' a) (Z.testbit k a)
                         && Bool.eqb (Z.testbit k' b) (Z.testbit k b)) 0 256 k Hkr)
    as (j & Hfind & _ & Hj & _).
  { rewrite Hk, !Bool.eqb_reflx. reflexivity. }
  unfold pick. rewrite Hfind.
  apply andb_prop in Hj as [Hj Hjb]. apply andb_prop in Hj as [Hjm Hja].
  apply Bool.eqb_prop in Hja, Hjb.
  now rewrite (Hinj j k Hjm Hk Hja Hjb).
Qed.

Lemma phase4_none st target mask :
  phase4 st target mask = None ->
  forall i k t m, 0 <= i < k -> k < num_gates st ->
    In (t, m) (phase4_tests (table (gate_at st i)) (table (gate_at st k)) i k) ->
    ttable_equals_mask target t mask = false.
Proof.
  intros H i k t m Hi Hk Hin. unfold phase4 in H. cbv zeta in H.
  pose proof (pair_loop_none _ _ H i k Hi Hk) as H1. cbv beta in H1.
  exact (first_test_none _ _ H1 t m Hin).
Qed.

Lemma phases_1_5_none_phase4 st target mask :
  phases_1_5 st target mask = None -> phase4 st target mask = None.
Proof.
  unfold phases_1_5.
  destruct (phase1 st target mask); [discriminate |].
  destruct (phase2 st target mask); [discriminate |].
  destruct (phase3 st target mask); [discriminate |].
  destruct (phase4 st target mask); [discriminate | reflexivity].
Qed.

Lemma equals_mask_intro (target t mask : ttable) :
  (forall k, tbit mask k = true -> tbit target k = tbit t k) ->
  ttable_equals_mask target t mask = true.
Proof.
  intros H. apply ttable_equals_mask_eq. apply ttable_ext. intros k Hk.
  rewrite !tbit_tand. destruct (tbit mask k) eqn:E.
  - now rewrite H.
  - now rewrite !andb_false_r.
Qed.

(** Tries the table of the hypothesis [H], which says that it is no match,
    against the function [f] of the two free bits. *)
Ltac try_table H Hbits :=
  rewrite equals_mask_intro in H;
  [ discriminate
  | let k := fresh "k" in
    let Hk := fresh "Hk" in
    let H256 := fresh "H256" in
    let Hk0 := fresh "Hk0" in
    let HA := fresh "HA" in
    let HB := fresh "HB" in
    let HC := fresh "HC" in
    let Ht := fresh "Ht" in
    intros k Hk;
    destruct (Hbits k Hk) as (H256 & Hk0 & HA & HB & HC & Ht);
    tbits; rewrite ?H256, ?HA, ?HB, ?HC, Ht;
    repeat match goal with
    | |- context [Z.testbit k ?p] => destruct (Z.testbit k p)
    end;
    repeat match goal with
    | E : _ = _ :> bool |- _ => rewrite E
    end;
    reflexivity ].

(** With six bits used, every target is found by one of the searches. *)
Lemma six_bits_match st target mask inbits :
  state_ok st -> inputs_ok st -> mask_fits inbits mask -> used_bits inbits = 6 ->
  phases_1_5 st target mask <> None.
Proof.
  intros Hok Hin Hinv Hsix Hnone.
  destruct (two_free_bits _ _ Hinv Hsix) as (a & b & Hab & Hb & Hinj).
  destruct Hinv as (Hm & Hfixed & _).
  destruct (target_of_two_bits target mask a b Hm Hinj) as (f & Hf).
  destruct (Hfixed 0 ltac:(lia)) as (Hc & v & Hv).
  set (c := inbit inbits 0) in *.
  pose proof (ok_inputs _ Hok) as Hnum.
  pose proof (phases_1_5_none_phase4 _ _ _ Hnone) as Hnone4.
  destruct (phases_1_5_none _ _ _ Hnone) as [Hno Hder].
  set (A := table (gate_at st a)). set (B := table (gate_at st b)).
  set (C := table (gate_at st c)).
  assert (Hbits : forall k, tbit mask k = true ->
            (k <? 256) = true /\ 0 <= k
            /\ tbit A k = Z.testbit k a /\ tbit B k = Z.testbit k b /\ tbit C k = v
            /\ tbit target k = f (Z.testbit k a) (Z.testbit k b)).
  { intros k Hk. pose proof (mask_bit_range _ _ Hm Hk) as Hkr.
    split; [apply Z.ltb_lt; lia |]. split; [lia |].
    unfold A, B, C. rewrite !Hin by lia. rewrite (Hv k Hk). auto. }
  assert (HA : ttable_equals_mask target A mask = false) by (apply Hno; lia).
  assert (HnA : ttable_equals_mask target (tnot A) mask = false)
    by (apply Hder; left; exists a; split; [lia | reflexivity]).
  assert (HC : ttable_equals_mask target C mask = false) by (apply Hno; lia).
  assert (HnC : ttable_equals_mask target (tnot C) mask = false)
    by (apply Hder; left; exists c; split; [lia | reflexivity]).
  destruct (f false false) eqn:E00; destruct (f true true) eqn:E11; destruct v;
    destruct (Z.eq_dec a b) as [Eab | Nab];
    try (subst b; subst B;
         first [ try_table HA Hbits | try_table HnA Hbits
               | try_table HC Hbits | try_table HnC Hbits ]).
  all: assert (HB : ttable_equals_mask target B mask = false) by (apply Hno; lia).
  all: assert (HnB : ttable_equals_mask target (tnot B) mask = false)
         by (apply Hder; left; exists b; split; [lia | reflexivity]).
  all: assert (Hand : ttable_equals_mask target (tand A B) mask = false)
         by (apply Hder; right; exists a, b; split; [lia | split; [lia | auto]]).
  all: assert (Hor : ttable_equals_mask target (tor A B) mask = false)
         by (apply Hder; right; exists a, b; split; [lia | split; [lia | auto]]).
  all: assert (Hxor : ttable_equals_mask target (txor A B) mask = false)
         by (apply Hder; right; exists a, b; split; [lia | split; [lia | auto]]).
  all: pose proof (fun t m => phase4_none _ _ _ Hnone4 a b t m ltac:(lia) ltac:(lia)) as H4;
       fold A B in H4; unfold phase4_tests in H4; cbn [In] in H4.
  all: assert (Hnor : ttable_equals_mask target (tnot (tor A B)) mask = false)
         by (eapply H4; left; reflexivity).
  all: assert (Hnand : ttable_equals_mask target (tnot (tand A B)) mask = false)
         by (eapply H4; right; left; reflexivity).
  all: assert (Hxnor : ttable_equals_mask target (tnot (txor A B)) mask = false)
         by (eapply H4; do 2 right; left; reflexivity).
  all: assert (Hon1 : ttable_equals_mask target (tor (tnot A) B) mask = false)
         by (eapply H4; do 3 right; left; reflexivity).
  all: assert (Hon2 : ttable_equals_mask target (tor (tnot B) A) mask = false)
         by (eapply H4; do 4 right; left; reflexivity).
  all: assert (Han1 : ttable_equals_mask target (tand (tnot A) B) mask = false)
         by (eapply H4; do 5 right; left; reflexivity).
  all: assert (Han2 : ttable_equals_mask target (tand (tnot B) A) mask = false)
         by (eapply H4; do 6 right; left; reflexivity).
  all: clear H4 Hno Hder Hnone Hnone4.
  all: destruct (f false true) eqn:E01; destruct (f true false) eqn:E10.
  all: first [ try_table HA Hbits | try_table HB Hbits
             | try_table HnA Hbits | try_table HnB Hbits
             | try_table HC Hbits | try_table HnC Hbits
             | try_table Hand Hbits | try_table Hor Hbits | try_table Hxor Hbits
             | try_table Hnor Hbits | try_table Hnand Hbits | try_table Hxnor Hbits
             | try_table Hon1 Hbits | try_table Hon2 Hbits
             | try_table Han1 Hbits | try_table Han2 Hbits ].
Qed.

Lemma inputs_ok_ext st st' :
  state_ok st -> inputs_ok st -> state_ext st st' -> inputs_ok st'.
Proof.
  intros Hok Hin Hext p k Hp Hk.
  rewrite (state_ext_gate _ _ p Hext) by (destruct Hok; lia). now apply Hin.
Qed.

(** The array passed to the recursive calls: the used bits of the caller,
    then the new bit. *)
Lemma next_inbits_cells (inbits next : list Z) (bitp bit : Z) :
  copy_inbits 6 inbits next_inbits_uninit 0 = (next, bitp) -> bitp < 6 ->
  (forall j, 0 <= j < bitp ->
     inbit (<[Z.to_nat bitp := bit]>
              (<[Z.to_nat (bitp + 1) := -1]> (<[Z.to_nat bitp := -1]> next))) j
     = inbit inbits j)
  /\ inbit (<[Z.to_nat bitp := bit]>
              (<[Z.to_nat (bitp + 1) := -1]> (<[Z.to_nat bitp := -1]> next))) bitp
     = bit.
Proof.
  intros Hcopy Hlt.
  apply copy_inbits_spec in Hcopy as (Hlen & Hb & Hcopied & _); [| reflexivity | lia].
  split.
  - intros j Hj. rewrite !inbit_insert_other by lia. now apply Hcopied.
  - apply inbit_insert_same; [lia |]. rewrite !length_insert. lia.
Qed.

Lemma skip_test_false (inbits : list Z) (bitp bit : Z) :
  existsb (fun i => inbit inbits i =? bit) (for_range 0 bitp) = false ->
  forall j, 0 <= j < bitp -> inbit inbits j <> bit.
Proof.
  intros H j Hj E.
  assert (existsb (fun i => inbit inbits i =? bit) (for_range 0 bitp) = true);
    [| congruence].
  apply existsb_exists. exists j. split; [now apply in_for_range | now apply Z.eqb_eq].
Qed.

(** Both halves of the mask fit the used bits with the new bit added. *)
Lemma mask_fits_next (inbits next : list Z) (bitp bit : Z) (mask : ttable) (st : state) :
  mask_fits inbits mask -> inputs_ok st ->
  copy_inbits 6 inbits next_inbits_uninit 0 = (next, bitp) -> bitp < 6 ->
  0 <= bit < 8 ->
  existsb (fun i => inbit inbits i =? bit) (for_range 0 bitp) = false ->
  forall half,
    half = table (gate_at st bit) \/ half = tnot (table (gate_at st bit)) ->
    mask_fits (<[Z.to_nat bitp := bit]>
                 (<[Z.to_nat (bitp + 1) := -1]> (<[Z.to_nat bitp := -1]> next)))
              (tand mask half).
Proof.
  intros (Hm & Hfixed & free & Hlen & Hrange & Hcover) Hin Hcopy Hlt Hbit Hskip half Hhalf.
  assert (Hbitp : used_bits inbits = bitp) by (unfold used_bits; now rewrite Hcopy).
  rewrite Hbitp in *.
  pose proof (skip_test_false _ _ _ Hskip) as Hnew.
  destruct (next_inbits_cells inbits next bitp bit Hcopy Hlt) as [Hold Hcell].
  set (next' := <[Z.to_nat bitp := bit]>
                  (<[Z.to_nat (bitp + 1) := -1]> (<[Z.to_nat bitp := -1]> next))) in *.
  assert (Hused : used_bits next' = bitp + 1)
    by (apply (used_bits_next inbits); [assumption | assumption | lia]).
  pose proof (used_bits_range inbits) as Hr. rewrite Hbitp in Hr.
  split; [now apply high_clear_tand |]. rewrite Hused. split.
  - intros j Hj. destruct (Z.eq_dec j bitp) as [-> | Hne].
    + rewrite Hcell. split; [assumption |].
      destruct Hhalf as [-> | ->].
      * exists true. intros k Hk. rewrite tbit_tand in Hk.
        apply andb_prop in Hk as [Hk Hsel].
        pose proof (mask_bit_range _ _ Hm Hk) as Hkr.
        now rewrite <- (Hin bit k Hbit Hkr).
      * exists false. intros k Hk. rewrite tbit_tand in Hk.
        apply andb_prop in Hk as [Hk Hsel].
        pose proof (mask_bit_range _ _ Hm Hk) as Hkr.
        rewrite tbit_tnot in Hsel by lia. apply andb_prop in Hsel as [Hsel _].
        apply negb_true_iff in Hsel. now rewrite <- (Hin bit k Hbit Hkr).
    + rewrite Hold by lia. destruct (Hfixed j ltac:(lia)) as (Hjr & v & Hv).
      split; [assumption |]. exists v. intros k Hk. apply Hv.
      rewrite tbit_tand in Hk. now apply andb_prop in Hk as [Hk _].
  - assert (Hfree : In bit free).
    { destruct (Hcover bit Hbit) as [? | (j & Hj & E)]; [assumption |].
      now apply Hnew in E. }
    exists (remove Z.eq_dec bit free). split; [| split].
    + pose proof (remove_length_lt Z.eq_dec free bit Hfree). lia.
    + intros p Hp. apply in_remove in Hp as [Hp _]. now apply Hrange.
    + intros p Hp. destruct (Z.eq_dec p bit) as [-> | Hne].
      * right. exists bitp. split; [lia | assumption].
      * destruct (Hcover p Hp) as [Hpf | (j & Hj & E)].
        -- left. now apply in_in_remove.
        -- right. exists j. split; [lia |]. now rewrite Hold.
Qed.

(** The last two gates of a multiplexer are added without a failed
    assertion. *)
Lemma mux_tail_returns ty op s1 s2 fb fc bit :
  binary_op ty op -> state_ok s1 -> state_ok s2 -> state_ext s1 s2 ->
  0 <= fb < num_gates s1 -> (fc = NO_GATE \/ 0 <= fc < num_gates s2) -> 0 <= bit < 8 ->
  exists a s4,
    bind (add_binary_gate ty op fc bit) (fun g => add_xor_gate fb g) s2 = Ret (a, s4).
Proof.
  intros Hop Hok1 Hok2 Hext Hfb Hfc Hbit.
  pose proof (state_ext_num _ _ Hext) as Hn12.
  pose proof (ok_inputs _ Hok2) as Hin2.
  unfold bind. destruct Hfc as [-> | Hfc].
  { unfold add_binary_gate. rewrite add_gate_no_input1.
    unfold add_xor_gate. rewrite add_gate_no_input2 by discriminate. eauto. }
  destruct (builds_binary ty op s2 fc bit Hop Hok2 Hfc ltac:(lia))
    as (g & s3 & Hg & Hok3 & Hext3 & Hcase).
  rewrite Hg.
  destruct Hcase as [[-> _] | (Hgne & Hlt3 & -> & Htab3)].
  { unfold add_xor_gate. rewrite add_gate_no_input2 by discriminate. eauto. }
  pose proof (state_ext_num _ _ Hext3) as Hn23.
  destruct (builds_binary XOR txor s3 fb (num_gates s3 - 1) binary_op_xor Hok3
              ltac:(lia) ltac:(lia))
    as (r & s4 & Hr & _).
  exists r, s4. exact Hr.
Qed.

Section SplitNoAbort.

Variable cc : ttable -> ttable -> list Z -> M Z.
Variable next : list Z.

Hypothesis cc_post :
  forall target mask inbits st r st',
    state_ok st -> high_clear mask ->
    cc target mask inbits st = Ret (r, st') ->
    create_circuit_post st target mask r st'.

(** The recursive calls on [next] do not stop on an assertion. *)
Hypothesis cc_no_abort :
  forall target mask st,
    state_ok st -> inputs_ok st -> mask_fits next mask ->
    cc target mask next st <> AssertFail.

Lemma mux_and_no_abort st target mask bit :
  state_ok st -> inputs_ok st -> high_clear mask -> 0 <= bit < 8 ->
  mask_fits next (tand mask (table (gate_at st bit))) ->
  mask_fits next (tand mask (tnot (table (gate_at st bit)))) ->
  mux_and cc target mask (table (gate_at st bit)) next bit st <> AssertFail.
Proof.
  intros Hok Hin Hm Hbit Hinv1 Hinv0.
  set (fsel := table (gate_at st bit)) in *.
  unfold mux_and. unfold bind at 1.
  pose proof (cc_no_abort (tand target (tnot fsel)) _ st Hok Hin Hinv0) as Hna1.
  destruct (cc (tand target (tnot fsel)) (tand mask (tnot fsel)) next st)
    as [[fb s1] | |] eqn:E1; [| contradiction | discriminate].
  destruct (cc_post _ _ _ _ _ _ Hok (high_clear_tand _ _ Hm) E1)
    as (Hok1 & Hext1 & _ & Hs1).
  destruct (Z.eqb_spec fb NO_GATE) as [-> | Hfb]; cbn [negb]; [discriminate |].
  destruct (Hs1 Hfb) as ([Hfb1 _] & _).
  unfold bind at 1, get_state. unfold bind at 1.
  pose proof (inputs_ok_ext _ _ Hok Hin Hext1) as Hin1.
  pose proof (cc_no_abort (txor (table (gate_at s1 fb)) target) _ s1 Hok1 Hin1 Hinv1)
    as Hna2.
  destruct (cc (txor (table (gate_at s1 fb)) target) (tand mask fsel) next s1)
    as [[fc s2] | |] eqn:E2; [| contradiction | discriminate].
  destruct (cc_post _ _ _ _ _ _ Hok1 (high_clear_tand _ _ Hm) E2)
    as (Hok2 & Hext2 & _ & Hs2).
  assert (Hfc : fc = NO_GATE \/ 0 <= fc < num_gates s2).
  { destruct (Z.eq_dec fc NO_GATE) as [? | Hne]; [left; assumption | right].
    now destruct (Hs2 Hne) as ([? _] & _). }
  destruct (mux_tail_returns AND tand s1 s2 fb fc bit binary_op_and Hok1 Hok2 Hext2
              Hfb1 Hfc Hbit) as (a & s4 & Hrun).
  change (bind (add_and_gate fc bit) (fun andg => add_xor_gate fb andg) s2 <> AssertFail).
  change (add_and_gate fc bit) with (add_binary_gate AND tand fc bit).
  rewrite Hrun. discriminate.
Qed.

Lemma mux_or_no_abort u st target mask bit :
  state_ok st -> inputs_ok st -> high_clear mask -> 0 <= bit < 8 ->
  mask_fits next (tand mask (table (gate_at st bit))) ->
  mask_fits next (tand mask (tnot (table (gate_at st bit)))) ->
  mux_or u cc target mask (table (gate_at st bit)) next bit st <> AssertFail.
Proof.
  intros Hok Hin Hm Hbit Hinv1 Hinv0.
  set (fsel := table (gate_at st bit)) in *.
  unfold mux_or. unfold bind at 1.
  pose proof (cc_no_abort (tand (tnot target) fsel) _ st Hok Hin Hinv1) as Hna1.
  destruct (cc (tand (tnot target) fsel) (tand mask fsel) next st)
    as [[fd s1] | |] eqn:E1; [| contradiction | discriminate].
  destruct (cc_post _ _ _ _ _ _ Hok (high_clear_tand _ _ Hm) E1)
    as (Hok1 & Hext1 & _ & Hs1).
  destruct (Z.eqb_spec fd NO_GATE) as [-> | Hfd]; cbn [negb]; [discriminate |].
  destruct (Hs1 Hfd) as ([Hfd1 _] & _).
  unfold bind at 1, get_state. unfold bind at 1.
  pose proof (inputs_ok_ext _ _ Hok Hin Hext1) as Hin1.
  pose proof (cc_no_abort (txor (table (gate_at s1 fd)) target) _ s1 Hok1 Hin1 Hinv0)
    as Hna2.
  destruct (cc (txor (table (gate_at s1 fd)) target) (tand mask (tnot fsel)) next s1)
    as [[fe s2] | |] eqn:E2; [| contradiction | discriminate].
  destruct (cc_post _ _ _ _ _ _ Hok1 (high_clear_tand _ _ Hm) E2)
    as (Hok2 & Hext2 & _ & Hs2).
  assert (Hfe : fe = NO_GATE \/ 0 <= fe < num_gates s2).
  { destruct (Z.eq_dec fe NO_GATE) as [? | Hne]; [left; assumption | right].
    now destruct (Hs2 Hne) as ([? _] & _). }
  destruct (mux_tail_returns OR tor s1 s2 fd fe bit binary_op_or Hok1 Hok2 Hext2
              Hfd1 Hfe Hbit) as (a & s4 & Hrun).
  change (bind (add_or_gate fe bit) (fun org => add_xor_gate fd org) s2 <> AssertFail).
  change (add_or_gate fe bit) with (add_binary_gate OR tor fe bit).
  rewrite Hrun. discriminate.
Qed.

End SplitNoAbort.

(** With [mux_out_or] read as [NO_GATE] when it was not assigned, the split
    does not stop on an assertion. *)
Lemma split_no_abort cc target mask inbits st :
  (forall target mask inbits st r st',
     state_ok st -> high_clear mask ->
     cc target mask inbits st = Ret (r, st') ->
     create_circuit_post st target mask r st') ->
  (forall target mask inbits st,
     state_ok st -> inputs_ok st -> mask_fits inbits mask ->
     cc target mask inbits st <> AssertFail) ->
  state_ok st -> inputs_ok st -> mask_fits inbits mask ->
  phases_1_5 st target mask = None ->
  split NO_GATE cc target mask inbits st <> AssertFail.
Proof.
  intros Hpost Hcc Hok Hin Hinv Hnone. unfold split.
  destruct (copy_inbits 6 inbits next_inbits_uninit 0) as [next bitp] eqn:Ecopy.
  assert (Hbitp : used_bits inbits = bitp) by (unfold used_bits; now rewrite Ecopy).
  pose proof (used_bits_range inbits) as Hr. rewrite Hbitp in Hr.
  destruct (Z.ltb_spec bitp 6) as [Hlt | Hge]; cbn [negb].
  2:{ exfalso. apply (six_bits_match st target mask inbits); try assumption. lia. }
  cbv zeta.
  set (next1 := <[Z.to_nat (bitp + 1) := -1]> (<[Z.to_nat bitp := -1]> next)).
  pose proof Hinv as (Hm & _).
  assert (Hloop : forall bits best,
             (forall bit, In bit bits -> 0 <= bit < 8) ->
             split_loop NO_GATE cc st target mask inbits next1 bitp best bits
             <> AssertFail).
  { induction bits as [| bit bits IH]; intros best Hbits; cbn [split_loop];
      [discriminate |].
    assert (Hbit : 0 <= bit < 8) by (apply Hbits; left; reflexivity).
    assert (Hstep : split_on_bit NO_GATE cc st target mask inbits next1 bitp best bit
                    <> AssertFail).
    { unfold split_on_bit. destruct (existsb _ _) eqn:Hskip; [discriminate |]. cbv zeta.
      set (next' := <[Z.to_nat bitp := bit]> next1).
      assert (Hinv' : forall half,
                 half = table (gate_at st bit) \/ half = tnot (table (gate_at st bit)) ->
                 mask_fits next' (tand mask half))
        by (intros half Hhalf; now apply (mask_fits_next inbits next bitp bit mask st)).
      pose proof (mux_and_no_abort cc next' Hpost (fun t m s => Hcc t m next' s)
                    st target mask bit Hok Hin Hm Hbit
                    (Hinv' _ (or_introl eq_refl)) (Hinv' _ (or_intror eq_refl))) as Hna.
      destruct (mux_and cc target mask (table (gate_at st bit)) next' bit st)
        as [[a sa] | |] eqn:Ea; [| contradiction | discriminate].
      pose proof (mux_or_no_abort cc next' Hpost (fun t m s => Hcc t m next' s)
                    NO_GATE st target mask bit Hok Hin Hm Hbit
                    (Hinv' _ (or_introl eq_refl)) (Hinv' _ (or_intror eq_refl))) as Hno.
      destruct (mux_or NO_GATE cc target mask (table (gate_at st bit)) next' bit st)
        as [[o so] | |] eqn:Eo; [| contradiction | discriminate].
      destruct (mux_and_post cc Hpost _ _ _ _ _ _ _ Hok Hm Hbit Ea) as (_ & _ & Ha).
      destruct (mux_or_post NO_GATE cc Hpost _ _ _ _ _ _ _ Hok Hm Hbit Eo)
        as (_ & _ & Ho).
      destruct ((a =? NO_GATE) && (o =? NO_GATE)) eqn:Eboth; [discriminate |].
      unfold mux_select.
      destruct (Z.eqb_spec o NO_GATE) as [-> | Hone]; cbn [orb].
      - rewrite andb_true_r in Eboth. apply Z.eqb_neq in Eboth.
        destruct (Ha Eboth) as (_ & _ & Heq). rewrite Heq. discriminate.
      - assert (Hor : ttable_equals_mask target (table (gate_at so o)) mask = true).
        { destruct Ho as [(-> & _) | [-> | (_ & _ & Heq)]];
            [contradiction | contradiction | assumption]. }
        destruct (Z.eqb_spec a NO_GATE) as [-> | Hane]; cbn [negb andb].
        + rewrite Hor. discriminate.
        + destruct (num_gates sa <? num_gates so).
          * destruct (Ha Hane) as (_ & _ & Heq). rewrite Heq. discriminate.
          * rewrite Hor. discriminate. }
    destruct (split_on_bit NO_GATE cc st target mask inbits next1 bitp best bit)
      as [best1 | |]; [| contradiction | discriminate].
    apply IH. intros b Hb. apply Hbits. right. assumption. }
  specialize (Hloop (for_range 0 8) best_init
                    ltac:(intros bit Hb; now apply in_for_range in Hb)).
  destruct (split_loop NO_GATE cc st target mask inbits next1 bitp best_init
                       (for_range 0 8))
    as [best | |]; [| contradiction | discriminate].
  destruct (num_gates best =? 0); discriminate.
Qed.

Lemma create_circuit_fuel_no_abort (fuel : nat) :
  forall target mask inbits st,
    state_ok st -> inputs_ok st -> mask_fits inbits mask ->
    create_circuit_fuel NO_GATE fuel target mask inbits st <> AssertFail.
Proof.
  induction fuel as [| fuel IH]; intros target mask inbits st Hok Hin Hinv.
  - discriminate.
  - cbn [create_circuit_fuel].
    destruct (phases_1_5 st target mask) as [m |] eqn:E.
    + destruct (phases_1_5_run _ _ _ _ Hok E) as (r & st' & ->). discriminate.
    + apply split_no_abort; try assumption.
      apply create_circuit_fuel_post.
Qed.

Lemma initial_state_inputs_ok : inputs_ok initial_state.
Proof.
  intros p k Hp Hk.
  pose proof (forallb_for_range _ _ _ generate_target_check_all p Hp) as H.
  unfold generate_target_check in H. cbv zeta in H.
  apply andb_prop in H as [_ H].
  pose proof (forallb_for_range _ _ _ H k Hk) as H'. cbv beta in H'.
  apply andb_prop in H' as [_ Htb]. now apply Bool.eqb_prop in Htb.
Qed.

Lemma mask_fits_no_inbits : mask_fits no_inbits full_mask.
Proof.
  assert (Hused : used_bits no_inbits = 0) by reflexivity.
  split; [apply is_ttable_high_clear, is_ttable_full_mask |].
  rewrite Hused. split; [intros j Hj; lia |].
  exists (for_range 0 8). split; [reflexivity |].
  split; intros p Hp; [now apply in_for_range in Hp | left; now apply in_for_range].
Qed.

(** ** The result of [create_circuit] *)

(** C1.  A call of [create_circuit] on a well-formed state, with a mask of
    256 bits, never runs out of fuel.  It can stop on an assertion only in
    the split of step 5, after the searches found no match, and only if
    the unassigned [mux_out_or] is read as something else than [NO_GATE],
    or the first eight gates are not the input variables, or the mask does
    not fit the used bits; a call as [main] makes it always returns.  When
    it returns, the result is [NO_GATE] or the index [r] of a gate of the
    resulting state whose table equals the target on the mask, where: if
    gate [r] already existed the state is unchanged, and otherwise gates
    were appended to the state and [r] is the last of them.  This holds
    whatever value the unassigned [mux_out_or] is read as. *)
Theorem create_circuit_contract (u : Z) (st : state) (target mask : ttable)
    (inbits : list Z) :
  state_ok st -> is_ttable mask ->
  match create_circuit u target mask inbits st with
  | OutOfFuel => False
  | AssertFail =>
      phases_1_5 st target mask = None
      /\ ~ (u = NO_GATE /\ inputs_ok st /\ mask_fits inbits mask)
  | Ret (r, st') =>
      r = NO_GATE
      \/ (0 <= r < num_gates st'
          /\ ttable_equals_mask (table (gate_at st' r)) target mask = true
          /\ (r < num_gates st -> st' = st)
          /\ (num_gates st <= r ->
              state_ext st st' /\ num_gates st < num_gates st'
              /\ r = num_gates st' - 1))
  end.
Proof.
  intros Hok Hmask.
  pose proof (create_circuit_returns u target mask inbits st) as Hret.
  destruct (create_circuit u target mask inbits st) as [[r st'] | |] eqn:E;
    [| | contradiction].
  - apply create_circuit_fuel_post in E as (Hok' & Hext & _ & Hsucc);
      [| assumption | now apply is_ttable_high_clear].
    destruct (Z.eq_dec r NO_GATE) as [? | Hne]; [left; assumption | right].
    destruct (Hsucc Hne) as ([Hr Heq] & Hcase).
    split; [assumption |]. split; [now rewrite ttable_equals_mask_sym |].
    destruct Hcase as [[Hlt ->] | [Hlt ->]].
    + split; [reflexivity | lia].
    + split; [lia |]. intros _. auto.
  - split.
    + unfold create_circuit in E. cbn [create_circuit_fuel] in E.
      destruct (phases_1_5 st target mask) as [m |] eqn:Eph; [| reflexivity].
      destruct (phases_1_5_run _ _ _ _ Hok Eph) as (r & st' & Hm).
      rewrite Hm in E. discriminate.
    + intros (-> & Hin & Hfits). revert E. now apply create_circuit_fuel_no_abort.
Qed.

Lemma create_circuit_contract_witness :
  match create_circuit NO_GATE 0 full_mask no_inbits initial_state with
  | OutOfFuel => False
  | AssertFail =>
      phases_1_5 initial_state 0 full_mask = None
      /\ ~ (NO_GATE = NO_GATE /\ inputs_ok initial_state /\ mask_fits no_inbits full_mask)
  | Ret (r, st') =>
      r = NO_GATE
      \/ (0 <= r < num_gates st'
          /\ ttable_equals_mask (table (gate_at st' r)) 0 full_mask = true
          /\ (r < num_gates initial_state -> st' = initial_state)
          /\ (num_gates initial_state <= r ->
              state_ext initial_state st' /\ num_gates initial_state < num_gates st'
              /\ r = num_gates st' - 1))
  end.
Proof.
  apply (create_circuit_contract NO_GATE initial_state 0 full_mask no_inbits).
  - exact initial_state_ok.
  - exact is_ttable_full_mask.
Defined.

(** A call as [main] makes it -- no bit used, the full mask, a well-formed
    state with the input gates in place -- returns, provided the
    unassigned [mux_out_or] is read as [NO_GATE]. *)
Lemma create_circuit_from_main_returns (st : state) (target : ttable) :
  state_ok st -> inputs_ok st ->
  exists r st', create_circuit NO_GATE target full_mask no_inbits st = Ret (r, st').
Proof.
  intros Hok Hin.
  pose proof (create_circuit_returns NO_GATE target full_mask no_inbits st) as Hret.
  pose proof (create_circuit_fuel_no_abort 7 target full_mask no_inbits st Hok Hin
                mask_fits_no_inbits) as Hna.
  fold (create_circuit NO_GATE target full_mask no_inbits st) in Hna.
  destruct (create_circuit NO_GATE target full_mask no_inbits st) as [[r st'] | |];
    [eauto | contradiction | contradiction].
Qed.

(** The all-zero target needs the split: both multiplexers on input bit 0
    take two gates, and the OR multiplexer is kept. *)
Example create_circuit_zero :
  create_circuit NO_GATE 0 full_mask no_inbits initial_state
  = Ret (9, push_gate (push_gate initial_state (mkgate OR (tor x0 x0) 0 0))
                      (mkgate XOR (txor x0 (tor x0 x0)) 0 8)).
Proof. vm_compute. reflexivity. Qed.


(** ** Reachable states are well-formed *)

Lemma add_gate_state st ty t g1 g2 r st' :
  state_ok st -> add_gate ty t g1 g2 st = Ret (r, st') ->
  state_ok st' /\ state_ext st st'.
Proof.
  intros Hok Hrun. pose proof Hrun as Hcases. rewrite add_gate_cases in Hcases.
  destruct ((g1 =? NO_GATE) || ((g2 =? NO_GATE) && negb (gate_type_eqb ty NOT)))
    eqn:Emiss.
  { injection Hcases as <- <-. split; [assumption | apply state_ext_refl]. }
  destruct (negb (negb (gate_type_eqb ty IN) && (g1 <? num_gates st)
                   && ((g2 <? num_gates st) || gate_type_eqb ty NOT))) eqn:Eass;
    [discriminate |].
  destruct (num_gates st >=? max_gates st) eqn:Efull.
  { injection Hcases as <- <-. split; [assumption | apply state_ext_refl]. }
  clear Hcases.
  assert (Hmiss : ~ input_missing ty g1 g2)
    by (rewrite <- input_missing_dec, Emiss; discriminate).
  apply negb_false_iff, add_gate_asserts_dec in Eass.
  rewrite Z.geb_leb in Efull. apply Z.leb_gt in Efull.
  rewrite add_gate_push in Hrun; try assumption;
    [| destruct Hok; lia | now destruct Hok].
  injection Hrun as <- <-.
  split; [now apply state_ok_push | now apply state_ext_push].
Qed.

Lemma state_ok_set_output st o g : state_ok st -> state_ok (set_output st o g).
Proof. intros [Hlen Hin Hbud Hmax Hclean]. constructor; assumption. Qed.

Lemma state_ok_set_max_gates st n :
  state_ok st -> num_gates st <= n <= MAX_GATES -> state_ok (set_max_gates st n).
Proof.
  intros [Hlen Hin Hbud Hmax Hclean] Hn.
  constructor; try assumption; cbn [set_max_gates max_gates num_gates]; lia.
Qed.

(** What the body of the loop of [main] makes of [default_state]. *)
Lemma main_loop_body_cases u ds output ds' files :
  main_loop_body u ds output = Ret (ds', files) ->
  (ds' = ds /\ files = [])
  \/ exists r st',
       create_circuit u (g_target !!! Z.to_nat output) full_mask no_inbits ds
         = Ret (r, st')
       /\ files = [mksaved
                     (Z.of_nat (length (filter
                        (fun i => negb (outputs (set_output st' output r) !!! Z.to_nat i
                                        =? NO_GATE)) (for_range 0 8))))
                     (wrap64 (num_gates st' - 7))
                     (filter (fun i => negb (outputs (set_output st' output r) !!! Z.to_nat i
                                             =? NO_GATE)) (for_range 0 8))
                     (set_output st' output r)]
       /\ ds' = (if max_gates ds >? num_gates st'
                 then set_max_gates ds (num_gates st') else ds).
Proof.
  unfold main_loop_body. fold no_inbits.
  destruct (negb _); [intros [= <- <-]; left; auto |]. cbv zeta.
  destruct (create_circuit u _ full_mask no_inbits ds) as [[r st'] | |] eqn:E;
    try discriminate.
  destruct (_ =? NO_GATE); [intros [= <- <-]; left; auto |].
  destruct (negb _); [discriminate |].
  intros [= <- <-]. right. exists r, st'. auto.
Qed.

Lemma reachable_ok (u : Z) (st : state) : reachable u st -> state_ok st.
Proof.
  induction 1 as [ | st ty t g1 g2 r st' _ IH Hrun
                   | st fuel target mask inbits r st' _ IH Hmask Hrun
                   | st fuel target mask next bit a nst _ IH Hmask Hbit Hrun
                   | st fuel target mask next bit o nst _ IH Hmask Hbit Hrun
                   | st o g _ IH
                   | st output st' files _ IH Hrun ].
  - exact initial_state_ok.
  - now apply (add_gate_state st ty t g1 g2 r st').
  - apply create_circuit_fuel_post in Hrun; [| assumption | now apply is_ttable_high_clear].
    now destruct Hrun.
  - apply (mux_and_post (create_circuit_fuel u fuel) (create_circuit_fuel_post u fuel))
      in Hrun; [| assumption | now apply is_ttable_high_clear | assumption].
    now destruct Hrun.
  - apply (mux_or_post u (create_circuit_fuel u fuel) (create_circuit_fuel_post u fuel))
      in Hrun; [| assumption | now apply is_ttable_high_clear | assumption].
    now destruct Hrun.
  - now apply state_ok_set_output.
  - apply main_loop_body_cases in Hrun as [[-> _] | (r & st1 & Hcc & _ & ->)];
      [assumption |].
    destruct (max_gates st >? num_gates st1); [| assumption].
    apply create_circuit_fuel_post in Hcc as (Hok1 & (Hmax1 & _ & Hnum1 & _) & _);
      [| assumption | apply is_ttable_high_clear, is_ttable_full_mask].
    apply state_ok_set_max_gates; [assumption |].
    destruct Hok1. lia.
Qed.

(** C10.  Every reachable state has at least the eight input gates; and
    when the loop over the input bits of the split runs on such a state,
    [best] ends either as it was initialised, with a gate count of 0, or
    as a candidate with more than eight gates: a gate count of 0 always
    means that there was no candidate. *)
Theorem sentinel_unambiguous (u : Z) (st : state) :
  reachable u st ->
  8 <= num_gates st
  /\ forall fuel target mask inbits next bitp bits best,
       is_ttable mask -> phases_1_5 st target mask = None ->
       (forall bit, In bit bits -> 0 <= bit < 8) ->
       split_loop u (create_circuit_fuel u fuel) st target mask inbits next bitp
                  best_init bits = Ret best ->
       (best = best_init /\ num_gates best = 0)
       \/ (8 < num_gates best /\ state_ext st best).
Proof.
  intros Hreach. pose proof (reachable_ok u st Hreach) as Hok.
  split; [now destruct Hok |].
  intros fuel target mask inbits next bitp bits best Hmask Hnone Hbits Hrun.
  apply (split_loop_post u (create_circuit_fuel u fuel) (create_circuit_fuel_post u fuel))
    in Hrun; try assumption; [| now apply is_ttable_high_clear | left; reflexivity].
  destruct Hrun as [-> | (_ & Hext & Hlt & _)]; [left; auto | right].
  split; [destruct Hok; lia | assumption].
Qed.

Lemma sentinel_unambiguous_witness :
  8 <= num_gates initial_state
  /\ forall fuel target mask inbits next bitp bits best,
       is_ttable mask -> phases_1_5 initial_state target mask = None ->
       (forall bit, In bit bits -> 0 <= bit < 8) ->
       split_loop NO_GATE (create_circuit_fuel NO_GATE fuel) initial_state target mask
                  inbits next bitp best_init bits = Ret best ->
       (best = best_init /\ num_gates best = 0)
       \/ (8 < num_gates best /\ state_ext initial_state best).
Proof. apply (sentinel_unambiguous NO_GATE initial_state). apply reach_initial. Defined.

(** ** The loop of [main] *)

(** After the body of the loop for one output, [default_state] -- the
    state from which the next output is synthesized -- has the gates, the
    gate count and the outputs it had before, and what is saved, if
    anything, is the state [create_circuit] left with [outputs[output]]
    set. *)
Lemma main_loop_body_frame (u : Z) (ds : state) (output : Z)
    (ds' : state) (files : list saved_state) :
  main_loop_body u ds output = Ret (ds', files) ->
  gates ds' = gates ds /\ num_gates ds' = num_gates ds /\ outputs ds' = outputs ds
  /\ (forall todo,
        main_loop u ds (output :: todo)
        = match main_loop u ds' todo with
          | Ret (final, files') => Ret (final, files ++ files')
          | AssertFail => AssertFail
          | OutOfFuel => OutOfFuel
          end)
  /\ ((files = [] /\ ds' = ds)
      \/ exists r st',
           create_circuit u (g_target !!! Z.to_nat output) full_mask no_inbits ds
             = Ret (r, st')
           /\ map saved_st files = [set_output st' output r]
           /\ max_gates ds' = Z.min (max_gates ds) (num_gates st')).
Proof.
  intros Hrun.
  assert (Hloop : forall todo,
             main_loop u ds (output :: todo)
             = match main_loop u ds' todo with
               | Ret (final, files') => Ret (final, files ++ files')
               | AssertFail => AssertFail
               | OutOfFuel => OutOfFuel
               end)
    by (intros todo; cbn [main_loop]; rewrite Hrun; reflexivity).
  apply main_loop_body_cases in Hrun as [[-> ->] | (r & st' & Hcc & -> & ->)].
  - repeat split; try reflexivity; [assumption | left; auto].
  - assert (Hfields : forall s n, gates (set_max_gates s n) = gates s
                        /\ num_gates (set_max_gates s n) = num_gates s
                        /\ outputs (set_max_gates s n) = outputs s) by (intros; auto).
    destruct (Z.gtb_spec (max_gates ds) (num_gates st')) as [Hgt | Hle].
    + destruct (Hfields ds (num_gates st')) as (Hg & Hn & Ho).
      split; [assumption |]. split; [assumption |]. split; [assumption |].
      split; [assumption |]. right. exists r, st'.
      split; [assumption |]. split; [reflexivity |].
      cbn [set_max_gates max_gates]. lia.
    + repeat split; try reflexivity; [assumption |]. right. exists r, st'.
      split; [assumption |]. split; [reflexivity | lia].
Qed.

(** C2 as stated does not hold.  From the loaded state, output 0 is
    synthesized by appending a NOT gate; the state with that gate and with
    [outputs[0]] set is saved, but [default_state] keeps its nine gates
    and its unset output, and only its [max_gates] becomes 10. *)
Lemma main_loop_keeps_default_state :
  exists ds' f,
    main_loop_body NO_GATE loaded_state 0 = Ret (ds', [f])
    /\ num_gates (saved_st f) = 10
    /\ outputs (saved_st f) !!! 0%nat = 9
    /\ num_gates ds' = 9
    /\ outputs ds' !!! 0%nat = NO_GATE
    /\ max_gates ds' = 10
    /\ ds' <> set_max_gates (saved_st f) (num_gates (saved_st f)).
Proof.
  eexists. eexists.
  split; [vm_compute; reflexivity |].
  split; [reflexivity |]. split; [reflexivity |]. split; [reflexivity |].
  split; [reflexivity |]. split; [reflexivity |].
  intros H. apply (f_equal num_gates) in H. vm_compute in H. discriminate.
Qed.

(** ** The unassigned [mux_out_or] *)

Lemma mux_or_first_call_fails u cc target mask fsel next bit st st1 :
  cc (tand (tnot target) fsel) (tand mask fsel) next st = Ret (NO_GATE, st1) ->
  mux_or u cc target mask fsel next bit st = Ret (u, st1).
Proof. intros H. unfold mux_or, bind. rewrite H. reflexivity. Qed.

(** C5 fails on the code.  On the state without room for a gate, splitting
    [split_target] on input bit 0: the first call of the OR multiplexer
    returns [NO_GATE]; [mux_out_or] is then whatever the unassigned
    variable holds -- read as 0 here, it is not [NO_GATE], the OR
    candidate with gate 0 as its output is selected, and the call stops on
    the final assertion; read as [NO_GATE], the bit is skipped. *)
Theorem mux_out_or_unassigned :
  create_circuit_fuel 0 6 (tand (tnot split_target) (table (gate_at exhausted_state 0)))
                      (tand full_mask (table (gate_at exhausted_state 0)))
                      next_inbits_bit0 exhausted_state
  = Ret (NO_GATE, exhausted_state)
  /\ mux_or 0 (create_circuit_fuel 0 6) split_target full_mask
            (table (gate_at exhausted_state 0)) next_inbits_bit0 0 exhausted_state
     = Ret (0, exhausted_state)
  /\ mux_and (create_circuit_fuel 0 6) split_target full_mask
             (table (gate_at exhausted_state 0)) next_inbits_bit0 0 exhausted_state
     = Ret (NO_GATE, exhausted_state)
  /\ mux_select NO_GATE exhausted_state 0 exhausted_state = (exhausted_state, 0)
  /\ split_on_bit 0 (create_circuit_fuel 0 6) exhausted_state split_target full_mask
                  no_inbits next_inbits_bit0 0 best_init 0
     = AssertFail
  /\ split_on_bit NO_GATE (create_circuit_fuel NO_GATE 6) exhausted_state split_target
                  full_mask no_inbits next_inbits_bit0 0 best_init 0
     = Ret best_init
  /\ create_circuit 0 split_target full_mask no_inbits exhausted_state = AssertFail.
Proof.
  assert (Hfd : create_circuit_fuel 0 6
                  (tand (tnot split_target) (table (gate_at exhausted_state 0)))
                  (tand full_mask (table (gate_at exhausted_state 0)))
                  next_inbits_bit0 exhausted_state
                = Ret (NO_GATE, exhausted_state)) by (vm_compute; reflexivity).
  split; [exact Hfd |].
  split; [now apply mux_or_first_call_fails |].
  split; [vm_compute; reflexivity |].
  split; [reflexivity |].
  split; [vm_compute; reflexivity |].
  split; [vm_compute; reflexivity |].
  vm_compute; reflexivity.
Qed.

(** ** Gate networks *)

(** What a returning call of [add_gate] did on a well-formed state. *)
Lemma add_gate_ret st ty t g1 g2 r st' :
  state_ok st -> add_gate ty t g1 g2 st = Ret (r, st') ->
  (r = NO_GATE /\ st' = st)
  \/ (ty <> IN /\ g1 < num_gates st /\ (g2 < num_gates st \/ ty = NOT)
      /\ num_gates st < max_gates st
      /\ r = num_gates st /\ st' = push_gate st (mkgate ty t g1 g2)).
Proof.
  intros Hok Hrun. pose proof Hrun as Hcases. rewrite add_gate_cases in Hcases.
  destruct ((g1 =? NO_GATE) || ((g2 =? NO_GATE) && negb (gate_type_eqb ty NOT)))
    eqn:Emiss.
  { injection Hcases as <- <-. left. auto. }
  destruct (negb (negb (gate_type_eqb ty IN) && (g1 <? num_gates st)
                   && ((g2 <? num_gates st) || gate_type_eqb ty NOT))) eqn:Eass;
    [discriminate |].
  destruct (num_gates st >=? max_gates st) eqn:Efull.
  { injection Hcases as <- <-. left. auto. }
  clear Hcases.
  assert (Hmiss : ~ input_missing ty g1 g2)
    by (rewrite <- input_missing_dec, Emiss; discriminate).
  apply negb_false_iff, add_gate_asserts_dec in Eass.
  rewrite Z.geb_leb in Efull. apply Z.leb_gt in Efull.
  rewrite add_gate_push in Hrun; try assumption;
    [| destruct Hok; lia | now destruct Hok].
  injection Hrun as <- <-. right.
  destruct Eass as (? & ? & ?). auto 10.
Qed.

Lemma is_ttable_tnot (a : ttable) : is_ttable (tnot a).
Proof.
  unfold is_ttable, tnot. rewrite Z.land_ones by lia.
  apply Z.mod_pos_bound. lia.
Qed.

Lemma is_ttable_bits (a : ttable) :
  0 <= a -> (forall j, 256 <= j -> tbit a j = false) -> is_ttable a.
Proof.
  intros Hpos Hhigh. split; [assumption |].
  destruct (Z.eq_dec a 0) as [-> | Hne]; [lia |].
  assert (Hlog : Z.log2 a < 256).
  { destruct (Z.lt_ge_cases (Z.log2 a) 256) as [? | Hge]; [assumption |].
    pose proof (Z.bit_log2 a ltac:(lia)) as Hbit.
    unfold tbit in Hhigh. rewrite Hhigh in Hbit by assumption. discriminate. }
  apply Z.log2_lt_pow2; lia.
Qed.

Lemma is_ttable_binary ty op (a b : ttable) :
  binary_op ty op -> is_ttable a -> is_ttable b -> is_ttable (op a b).
Proof.
  intros Hop Ha Hb.
  pose proof (is_ttable_high_clear a Ha) as Hha.
  pose proof (is_ttable_high_clear b Hb) as Hhb.
  destruct Ha as [Ha _], Hb as [Hb _].
  destruct Hop as [[_ ->] | [[_ ->] | [_ ->]]]; apply is_ttable_bits.
  - now apply Z.land_nonneg; left.
  - intros j Hj. rewrite tbit_tand, (Hha j Hj). reflexivity.
  - now apply Z.lor_nonneg.
  - intros j Hj. rewrite tbit_tor, (Hha j Hj), (Hhb j Hj). reflexivity.
  - now apply Z.lxor_nonneg.
  - intros j Hj. rewrite tbit_txor, (Hha j Hj), (Hhb j Hj). reflexivity.
Qed.

(** Appending gates leaves the wiring of the earlier gates as it is. *)
Lemma gate_wired_ext st st' i :
  state_ext st st' -> 0 <= i < num_gates st -> gate_wired st i -> gate_wired st' i.
Proof.
  intros Hext Hi. unfold gate_wired. cbv zeta.
  rewrite (state_ext_gate _ _ i Hext) by lia.
  intros [Ht Hw]. split; [assumption |].
  destruct (type (gate_at st i)).
  - assumption.
  - destruct Hw as (H1 & H2 & H3).
    rewrite (state_ext_gate _ _ _ Hext) by lia. auto.
  - destruct Hw as (H1 & H2 & H3).
    rewrite !(state_ext_gate _ _ _ Hext) by lia. auto.
  - destruct Hw as (H1 & H2 & H3).
    rewrite !(state_ext_gate _ _ _ Hext) by lia. auto.
  - destruct Hw as (H1 & H2 & H3).
    rewrite !(state_ext_gate _ _ _ Hext) by lia. auto.
Qed.

Lemma wired_push st g :
  state_ok st -> num_gates st < max_gates st -> wired st ->
  gate_wired (push_gate st g) (num_gates st) -> wired (push_gate st g).
Proof.
  intros Hok Hlt Hw Hg i Hi. rewrite num_gates_push in Hi.
  destruct (Z.eq_dec i (num_gates st)) as [-> | Hne]; [assumption |].
  apply (gate_wired_ext st); [now apply state_ext_push | lia | apply Hw; lia].
Qed.

Lemma wired_table st i : wired st -> 0 <= i < num_gates st -> is_ttable (table (gate_at st i)).
Proof. intros Hw Hi. now destruct (Hw i Hi). Qed.

Lemma add_not_gate_wired st a r st' :
  state_ok st -> wired st -> 0 <= a ->
  add_not_gate a st = Ret (r, st') ->
  wired st' /\ 0 <= r /\ num_gates st' <= num_gates st + 1.
Proof.
  intros Hok Hw Ha Hrun. unfold add_not_gate in Hrun.
  apply add_gate_ret in Hrun as [[-> ->] | (_ & Ha1 & _ & Hlt & -> & ->)];
    [| | assumption].
  { split; [assumption |]. split; [rewrite NO_GATE_value |]; lia. }
  pose proof (ok_inputs _ Hok) as Hin.
  split; [| rewrite num_gates_push; lia].
  apply wired_push; try assumption.
  unfold gate_wired. cbv zeta. rewrite gate_at_push by assumption. cbn [type table in1 in2].
  split; [apply is_ttable_tnot |].
  split; [lia |]. split; [reflexivity |].
  rewrite gate_at_push_other by lia. reflexivity.
Qed.

Lemma add_binary_gate_wired ty op st a b r st' :
  binary_op ty op -> state_ok st -> wired st -> 0 <= a -> 0 <= b ->
  add_binary_gate ty op a b st = Ret (r, st') ->
  wired st' /\ 0 <= r /\ num_gates st' <= num_gates st + 1.
Proof.
  intros Hop Hok Hw Ha Hb Hrun. unfold add_binary_gate in Hrun.
  destruct (binary_op_type _ _ Hop) as [_ Hnot].
  apply add_gate_ret in Hrun as [[-> ->] | (_ & Ha1 & [Hb1 | Hb1] & Hlt & -> & ->)];
    [| | contradiction | assumption].
  { split; [assumption |]. split; [rewrite NO_GATE_value |]; lia. }
  pose proof (ok_inputs _ Hok) as Hin.
  split; [| rewrite num_gates_push; lia].
  apply wired_push; try assumption.
  unfold gate_wired. cbv zeta. rewrite gate_at_push by assumption. cbn [type table in1 in2].
  rewrite !gate_at_push_other by lia.
  split; [apply (is_ttable_binary ty); try assumption; apply wired_table; auto; lia |].
  destruct Hop as [[-> ->] | [[-> ->] | [-> ->]]]; repeat split; lia.
Qed.

(** A gate-adding call keeps a wired network wired, adds no more gates
    than its bound, and returns a gate number or [NO_GATE]. *)
Lemma composer_keeps n m :
  composer n m ->
  forall st r st', state_ok st -> wired st -> m st = Ret (r, st') ->
    state_ok st' /\ wired st' /\ state_ext st st' /\ 0 <= r
    /\ num_gates st' <= num_gates st + n.
Proof.
  induction 1 as [i Hi | a Ha | ty op a b Hop Ha Hb | n1 n2 m f Hm IHm Hf IHf];
    intros st r st' Hok Hw Hrun.
  - injection Hrun as <- <-.
    split; [assumption |]. split; [assumption |]. split; [apply state_ext_refl |]. lia.
  - pose proof Hrun as Hst. unfold add_not_gate in Hst.
    apply add_gate_state in Hst as [Hok' Hext]; [| assumption].
    destruct (add_not_gate_wired _ _ _ _ Hok Hw Ha Hrun) as (? & ? & ?). auto.
  - pose proof Hrun as Hst. unfold add_binary_gate in Hst.
    apply add_gate_state in Hst as [Hok' Hext]; [| assumption].
    destruct (add_binary_gate_wired _ _ _ _ _ _ _ Hop Hok Hw Ha Hb Hrun) as (? & ? & ?).
    auto.
  - unfold bind in Hrun.
    destruct (m st) as [[g s1] | |] eqn:E; try discriminate.
    destruct (IHm _ _ _ Hok Hw E) as (Hok1 & Hw1 & Hext1 & Hg & Hn1).
    destruct (IHf g Hg _ _ _ Hok1 Hw1 Hrun) as (Hok2 & Hw2 & Hext2 & Hr & Hn2).
    split; [assumption |]. split; [assumption |].
    split; [eapply state_ext_trans; eassumption |]. lia.
Qed.

Lemma composer_binary_not ty op a b :
  binary_op ty op -> 0 <= a -> 0 <= b ->
  composer 2 (bind (add_binary_gate ty op a b) add_not_gate).
Proof.
  intros Hop Ha Hb. apply (composer_bind 1 1).
  - now apply composer_binary.
  - intros g Hg. now apply composer_not.
Qed.

Lemma composer_not_binary ty op a b :
  binary_op ty op -> 0 <= a -> 0 <= b ->
  composer 2 (bind (add_not_gate a) (fun g => add_binary_gate ty op g b)).
Proof.
  intros Hop Ha Hb. apply (composer_bind 1 1).
  - now apply composer_not.
  - intros g Hg. now apply composer_binary.
Qed.

Lemma composer_binary_binary ty1 op1 ty2 op2 a b c :
  binary_op ty1 op1 -> binary_op ty2 op2 -> 0 <= a -> 0 <= b -> 0 <= c ->
  composer 2 (bind (add_binary_gate ty1 op1 a b) (fun g => add_binary_gate ty2 op2 g c)).
Proof.
  intros Hop1 Hop2 Ha Hb Hc. apply (composer_bind 1 1).
  - now apply composer_binary.
  - intros g Hg. now apply composer_binary.
Qed.

(** The two calls made by a two-gate construction. *)
Ltac two_gate_composer :=
  lazymatch goal with
  | |- composer 2 (add_nand_gate _ _) => apply (composer_binary_not AND tand)
  | |- composer 2 (add_nor_gate _ _) => apply (composer_binary_not OR tor)
  | |- composer 2 (add_xnor_gate _ _) => apply (composer_binary_not XOR txor)
  | |- composer 2 (add_or_not_gate _ _) => apply (composer_not_binary OR tor)
  | |- composer 2 (add_and_not_gate _ _) => apply (composer_not_binary AND tand)
  | |- composer 2 (add_or_3_gate _ _ _) => apply (composer_binary_binary OR tor OR tor)
  | |- composer 2 (add_and_3_gate _ _ _) => apply (composer_binary_binary AND tand AND tand)
  | |- composer 2 (add_xor_3_gate _ _ _) => apply (composer_binary_binary XOR txor XOR txor)
  | |- composer 2 (add_and_or_gate _ _ _) => apply (composer_binary_binary AND tand OR tor)
  | |- composer 2 (add_and_xor_gate _ _ _) => apply (composer_binary_binary AND tand XOR txor)
  | |- composer 2 (add_xor_or_gate _ _ _) => apply (composer_binary_binary XOR txor OR tor)
  | |- composer 2 (add_xor_and_gate _ _ _) => apply (composer_binary_binary XOR txor AND tand)
  | |- composer 2 (add_or_and_gate _ _ _) => apply (composer_binary_binary OR tor AND tand)
  | |- composer 2 (add_or_xor_gate _ _ _) => apply (composer_binary_binary OR tor XOR txor)
  end;
  auto with gates; lia.

(** What the five searches choose is a gate-adding call of at most two
    gates: none in step 1, one in steps 2 and 3, two in step 4. *)
Lemma phases_composer st target mask m :
  phases_1_5 st target mask = Some m ->
  (phase1 st target mask = Some m /\ composer 0 m)
  \/ (phase1 st target mask = None /\ phase2 st target mask = Some m /\ composer 1 m)
  \/ (phase1 st target mask = None /\ phase2 st target mask = None
      /\ phase3 st target mask = Some m /\ composer 1 m)
  \/ (phase1 st target mask = None /\ phase2 st target mask = None
      /\ phase3 st target mask = None /\ composer 2 m).
Proof.
  unfold phases_1_5.
  destruct (phase1 st target mask) as [m1 |] eqn:E1.
  { intros [= ->]. left. split; [reflexivity |].
    apply phase1_some in E1 as (i & -> & Hi & _). apply composer_ret. lia. }
  intros H. right. revert H.
  destruct (phase2 st target mask) as [m2 |] eqn:E2.
  { intros [= ->]. left. split; [reflexivity |]. split; [reflexivity |].
    unfold phase2 in E2. destruct (find _ _) as [i |] eqn:Ef; [| discriminate].
    cbn in E2. injection E2 as <-.
    apply find_for_range_some in Ef as [Hi _]. apply composer_not. lia. }
  intros H. right. revert H.
  destruct (phase3 st target mask) as [m3 |] eqn:E3.
  { intros [= ->]. left. repeat (split; [reflexivity |]).
    unfold phase3 in E3. cbv zeta in E3.
    apply pair_loop_some in E3 as (i & k & Hi & Hk & H).
    apply first_test_some in H as (t & Hin & _).
    unfold phase3_tests in Hin. cbn [In] in Hin.
    destruct Hin as [[= <- <-] | [[= <- <-] | [[= <- <-] | []]]].
    - apply (composer_binary OR tor); auto with gates; lia.
    - apply (composer_binary AND tand); auto with gates; lia.
    - apply (composer_binary XOR txor); auto with gates; lia. }
  intros H. right. repeat (split; [reflexivity |]). revert H.
  destruct (phase4 st target mask) as [m4 |] eqn:E4.
  { intros [= ->].
    unfold phase4 in E4. cbv zeta in E4.
    apply pair_loop_some in E4 as (i & k & Hi & Hk & H).
    apply first_test_some in H as (t & Hin & _).
    unfold phase4_tests in Hin. cbn [In] in Hin.
    destruct Hin as [[= <- <-] | [[= <- <-] | [[= <- <-] | [[= <- <-] | [[= <- <-]
                   | [[= <- <-] | [[= <- <-] | []]]]]]]].
    all: two_gate_composer. }
  intros H.
  unfold phase5 in H. cbv zeta in H.
  apply triple_loop_some in H as (i & k & j & Hi & Hk & Hj & H).
  apply first_test_some in H as (t & Hin & _).
  unfold phase5_tests in Hin. cbv zeta in Hin. cbn [In] in Hin.
  repeat (destruct Hin as [[= <- <-] | Hin]; [two_gate_composer |]).
  destruct Hin.
Qed.

Lemma phases_composer_bound st target mask m :
  phases_1_5 st target mask = Some m -> exists n, 0 <= n <= 2 /\ composer n m.
Proof.
  intros H.
  apply phases_composer in H
    as [[_ H] | [(_ & _ & H) | [(_ & _ & _ & H) | (_ & _ & _ & H)]]].
  - exists 0. split; [lia | assumption].
  - exists 1. split; [lia | assumption].
  - exists 1. split; [lia | assumption].
  - exists 2. split; [lia | assumption].
Qed.

Lemma wired_best_init : wired best_init.
Proof. intros i Hi. cbn in Hi. lia. Qed.

Section SplitWired.

Variable u : Z.
Variable cc : ttable -> ttable -> list Z -> M Z.

(** The recursive calls meet the contract and keep a wired network
    wired. *)
Hypothesis cc_post :
  forall target mask inbits st r st',
    state_ok st -> high_clear mask ->
    cc target mask inbits st = Ret (r, st') ->
    create_circuit_post st target mask r st'.

Hypothesis cc_wired :
  forall target mask inbits st r st',
    state_ok st -> wired st -> high_clear mask ->
    cc target mask inbits st = Ret (r, st') -> wired st'.

Lemma cc_result target mask inbits st r st' :
  state_ok st -> wired st -> high_clear mask ->
  cc target mask inbits st = Ret (r, st') ->
  state_ok st' /\ wired st' /\ 0 <= r.
Proof.
  intros Hok Hw Hm Hrun.
  destruct (cc_post _ _ _ _ _ _ Hok Hm Hrun) as (Hok' & _ & _ & Hs).
  split; [assumption |]. split; [now apply (cc_wired _ _ _ _ _ _ Hok Hw Hm Hrun) |].
  destruct (Z.eq_dec r NO_GATE) as [-> | Hne]; [rewrite NO_GATE_value; lia |].
  destruct (Hs Hne) as ([Hr _] & _). lia.
Qed.

Lemma mux_tail_wired ty op fb fc bit s2 a s4 :
  binary_op ty op -> state_ok s2 -> wired s2 -> 0 <= fb -> 0 <= fc -> 0 <= bit ->
  bind (add_binary_gate ty op fc bit) (fun g => add_xor_gate fb g) s2 = Ret (a, s4) ->
  state_ok s4 /\ wired s4.
Proof.
  intros Hop Hok Hw Hfb Hfc Hbit Hrun.
  assert (Hc : composer (1 + 1)
                 (bind (add_binary_gate ty op fc bit)
                       (fun g => add_binary_gate XOR txor fb g))).
  { apply composer_bind; [now apply composer_binary |].
    intros g Hg. apply composer_binary; auto with gates. }
  destruct (composer_keeps _ _ Hc _ _ _ Hok Hw Hrun) as (? & ? & _). auto.
Qed.

Lemma mux_and_wired st target mask fsel next bit a nst :
  state_ok st -> wired st -> high_clear mask -> 0 <= bit ->
  mux_and cc target mask fsel next bit st = Ret (a, nst) ->
  state_ok nst /\ wired nst.
Proof.
  intros Hok Hw Hm Hbit Hrun.
  unfold mux_and in Hrun. unfold bind at 1 in Hrun.
  destruct (cc (tand target (tnot fsel)) (tand mask (tnot fsel)) next st)
    as [[fb s1] | |] eqn:E1; try discriminate.
  destruct (cc_result _ _ _ _ _ _ Hok Hw (high_clear_tand _ _ Hm) E1)
    as (Hok1 & Hw1 & Hfb).
  destruct (negb (fb =? NO_GATE)); [| injection Hrun as <- <-; auto].
  unfold bind at 1, get_state in Hrun. unfold bind at 1 in Hrun.
  destruct (cc (txor (table (gate_at s1 fb)) target) (tand mask fsel) next s1)
    as [[fc s2] | |] eqn:E2; try discriminate.
  destruct (cc_result _ _ _ _ _ _ Hok1 Hw1 (high_clear_tand _ _ Hm) E2)
    as (Hok2 & Hw2 & Hfc).
  exact (mux_tail_wired AND tand fb fc bit s2 a nst binary_op_and Hok2 Hw2 Hfb Hfc Hbit
           Hrun).
Qed.

Lemma mux_or_wired st target mask fsel next bit o nst :
  state_ok st -> wired st -> high_clear mask -> 0 <= bit ->
  mux_or u cc target mask fsel next bit st = Ret (o, nst) ->
  state_ok nst /\ wired nst.
Proof.
  intros Hok Hw Hm Hbit Hrun.
  unfold mux_or in Hrun. unfold bind at 1 in Hrun.
  destruct (cc (tand (tnot target) fsel) (tand mask fsel) next st)
    as [[fd s1] | |] eqn:E1; try discriminate.
  destruct (cc_result _ _ _ _ _ _ Hok Hw (high_clear_tand _ _ Hm) E1)
    as (Hok1 & Hw1 & Hfd).
  destruct (negb (fd =? NO_GATE)); [| injection Hrun as <- <-; auto].
  unfold bind at 1, get_state in Hrun. unfold bind at 1 in Hrun.
  destruct (cc (txor (table (gate_at s1 fd)) target) (tand mask (tnot fsel)) next s1)
    as [[fe s2] | |] eqn:E2; try discriminate.
  destruct (cc_result _ _ _ _ _ _ Hok1 Hw1 (high_clear_tand _ _ Hm) E2)
    as (Hok2 & Hw2 & Hfe).
  exact (mux_tail_wired OR tor fd fe bit s2 o nst binary_op_or Hok2 Hw2 Hfd Hfe Hbit
           Hrun).
Qed.

Lemma split_on_bit_wired st target mask inbits next bitp best bit best' :
  state_ok st -> wired st -> high_clear mask -> 0 <= bit -> wired best ->
  split_on_bit u cc st target mask inbits next bitp best bit = Ret best' ->
  wired best'.
Proof.
  intros Hok Hw Hm Hbit Hbest Hrun. unfold split_on_bit in Hrun.
  destruct (existsb _ _); [injection Hrun as <-; assumption |].
  cbv zeta in Hrun.
  destruct (mux_and cc target mask (table (gate_at st bit)) _ bit st)
    as [[a sa] | |] eqn:Ea; try discriminate.
  destruct (mux_or u cc target mask (table (gate_at st bit)) _ bit st)
    as [[o so] | |] eqn:Eo; try discriminate.
  destruct (mux_and_wired _ _ _ _ _ _ _ _ Hok Hw Hm Hbit Ea) as [_ Hwa].
  destruct (mux_or_wired _ _ _ _ _ _ _ _ Hok Hw Hm Hbit Eo) as [_ Hwo].
  destruct ((a =? NO_GATE) && (o =? NO_GATE)); [injection Hrun as <-; assumption |].
  unfold mux_select in Hrun.
  destruct ((o =? NO_GATE) || (negb (a =? NO_GATE) && (num_gates sa <? num_gates so)));
    destruct (ttable_equals_mask _ _ _); try discriminate;
    injection Hrun as <-; destruct (_ || _); assumption.
Qed.

Lemma split_loop_wired st target mask inbits next bitp bits :
  state_ok st -> wired st -> high_clear mask ->
  (forall bit, In bit bits -> 0 <= bit) ->
  forall best best', wired best ->
    split_loop u cc st target mask inbits next bitp best bits = Ret best' ->
    wired best'.
Proof.
  intros Hok Hw Hm. induction bits as [| bit bits IH]; intros Hbits best best' Hbest.
  - cbn [split_loop]. now intros [= <-].
  - cbn [split_loop].
    destruct (split_on_bit u cc st target mask inbits next bitp best bit)
      as [best1 | |] eqn:E; try discriminate.
    apply IH; [intros b Hb; apply Hbits; right; assumption |].
    eapply split_on_bit_wired; try eassumption. apply Hbits. left. reflexivity.
Qed.

Lemma split_wired st target mask inbits r st' :
  state_ok st -> wired st -> high_clear mask ->
  split u cc target mask inbits st = Ret (r, st') -> wired st'.
Proof.
  intros Hok Hw Hm Hrun. unfold split in Hrun.
  destruct (copy_inbits 6 inbits next_inbits_uninit 0) as [next bitp].
  destruct (negb (bitp <? 6)); [discriminate |]. cbv zeta in Hrun.
  destruct (split_loop u cc st target mask inbits _ bitp best_init (for_range 0 8))
    as [best | |] eqn:E; try discriminate.
  apply split_loop_wired in E; try assumption;
    [| intros bit Hb; apply in_for_range in Hb; lia | exact wired_best_init].
  destruct (num_gates best =? 0); injection Hrun as <- <-; assumption.
Qed.

End SplitWired.

Lemma create_circuit_fuel_wired (u : Z) (fuel : nat) :
  forall target mask inbits st r st',
    state_ok st -> wired st -> high_clear mask ->
    create_circuit_fuel u fuel target mask inbits st = Ret (r, st') -> wired st'.
Proof.
  induction fuel as [| fuel IH]; intros target mask inbits st r st' Hok Hw Hm Hrun.
  - discriminate.
  - cbn [create_circuit_fuel] in Hrun.
    destruct (phases_1_5 st target mask) as [m |] eqn:E.
    + destruct (phases_composer_bound _ _ _ _ E) as (n & _ & Hc).
      now destruct (composer_keeps _ _ Hc _ _ _ Hok Hw Hrun) as (_ & ? & _).
    + now apply (split_wired u (create_circuit_fuel u fuel)
                   (create_circuit_fuel_post u fuel) IH st target mask inbits r st').
Qed.

(** ** The tables made by [generate_target] have 256 bits *)

Lemma bits_bounded (a n : Z) :
  0 <= n -> 0 <= a -> (forall j, n <= j -> Z.testbit a j = false) -> a < 2 ^ n.
Proof.
  intros Hn Ha Hhigh.
  destruct (Z.eq_dec a 0) as [-> | Hne]; [apply Z.pow_pos_nonneg; lia |].
  apply Z.log2_lt_pow2; [lia |].
  destruct (Z.lt_ge_cases (Z.log2 a) n) as [? | Hge]; [assumption |].
  pose proof (Z.bit_log2 a ltac:(lia)) as Hbit.
  rewrite Hhigh in Hbit by assumption. discriminate.
Qed.

Lemma bounded_bits (a n j : Z) : 0 <= a < 2 ^ n -> n <= j -> Z.testbit a j = false.
Proof.
  intros Ha Hj. destruct (Z.lt_ge_cases n 0) as [Hneg | Hn].
  - rewrite Z.pow_neg_r in Ha by assumption. lia.
  - rewrite <- (Z.mod_small a (2 ^ n)) by assumption.
    apply Z.mod_pow2_bits_high. lia.
Qed.

Lemma generate_target_step_lanes (bit : Z) (sbox : bool) (acc : list Z * nat) (i : Z) :
  lanes_ok acc -> lanes_ok (generate_target_step bit sbox acc i).
Proof.
  destruct acc as [vec var]. intros (Hlen & Hvar & Hlanes). cbn [fst snd] in *.
  unfold generate_target_step.
  set (var' := if i =? 64 then 1%nat
               else if i =? 128 then 2%nat else if i =? 192 then 3%nat else var).
  assert (Hvar' : (var' < 4)%nat)
    by (unfold var'; destruct (i =? 64), (i =? 128), (i =? 192); lia).
  cbv zeta.
  set (v := Z.lor _ _).
  assert (Hv : 0 <= v < 2 ^ 64).
  { pose proof (Hlanes var' Hvar') as Hl.
    assert (Hpos : 0 <= v).
    { unfold v. apply Z.lor_nonneg. split.
      - apply Z.shiftr_nonneg. lia.
      - unfold wrap64. apply Z.mod_pos_bound. lia. }
    split; [assumption |]. apply bits_bounded; [lia | assumption |].
    intros j Hj. unfold v. rewrite Z.lor_spec, Z.shiftr_spec by lia.
    rewrite (bounded_bits _ 64) by (assumption || lia).
    unfold wrap64. rewrite Z.mod_pow2_bits_high by lia. reflexivity. }
  split; [| split]; cbn [fst snd].
  - now rewrite length_insert.
  - assumption.
  - intros j Hj. destruct (Nat.eq_dec j var') as [-> | Hne].
    + rewrite list_lookup_total_insert_eq by lia. assumption.
    + rewrite list_lookup_total_insert_ne by lia. now apply Hlanes.
Qed.

Lemma fold_left_lanes (bit : Z) (sbox : bool) (l : list Z) :
  forall acc, lanes_ok acc -> lanes_ok (fold_left (generate_target_step bit sbox) l acc).
Proof.
  induction l as [| i l IH]; intros acc Hacc; [assumption |].
  cbn [fold_left]. apply IH. now apply generate_target_step_lanes.
Qed.

Lemma load_lanes_is_ttable (vec : list Z) :
  (forall j, (j < 4)%nat -> 0 <= vec !!! j < 2 ^ 64) -> is_ttable (load_lanes vec).
Proof.
  intros Hl.
  pose proof (Hl 0%nat ltac:(lia)) as H0. pose proof (Hl 1%nat ltac:(lia)) as H1.
  pose proof (Hl 2%nat ltac:(lia)) as H2. pose proof (Hl 3%nat ltac:(lia)) as H3.
  unfold load_lanes. apply is_ttable_bits.
  - repeat (apply Z.lor_nonneg; split); try apply Z.shiftl_nonneg; lia.
  - intros j Hj. unfold tbit. rewrite !Z.lor_spec, !Z.shiftl_spec by lia.
    rewrite (bounded_bits (vec !!! 0%nat) 64) by (assumption || lia).
    rewrite (bounded_bits (vec !!! 1%nat) 64) by (assumption || lia).
    rewrite (bounded_bits (vec !!! 2%nat) 64) by (assumption || lia).
    rewrite (bounded_bits (vec !!! 3%nat) 64) by (assumption || lia).
    reflexivity.
Qed.

Lemma generate_target_is_ttable (bit : Z) (sbox : bool) :
  is_ttable (generate_target bit sbox).
Proof.
  unfold generate_target.
  pose proof (fold_left_lanes bit sbox (seqZ 0 256) ([0; 0; 0; 0], 0%nat)) as H.
  destruct (fold_left _ _ _) as [vec var].
  apply load_lanes_is_ttable. apply H.
  split; [reflexivity |]. split; [cbn; lia |].
  intros j Hj. cbn [fst].
  destruct j as [| [| [| [| j]]]]; cbn; try lia.
Qed.

Lemma g_target_lookup (o : Z) :
  0 <= o < 8 -> g_target !!! Z.to_nat o = generate_target o true.
Proof.
  intros Ho. unfold g_target.
  rewrite (list_lookup_total_fmap (fun i => generate_target i true) (seqZ 0 8))
    by (rewrite length_seqZ; lia).
  rewrite lookup_total_seqZ_lt by lia. f_equal. lia.
Qed.

Lemma g_target_is_ttable (o : Z) : 0 <= o < 8 -> is_ttable (g_target !!! Z.to_nat o).
Proof. intros Ho. rewrite g_target_lookup by assumption. apply generate_target_is_ttable. Qed.

Lemma land_shiftr_1 (s o : Z) :
  0 <= o -> Z.land (Z.shiftr s o) 1 = Z.b2z (Z.testbit s o).
Proof.
  intros Ho. change 1 with (Z.ones 1). rewrite Z.land_ones by lia.
  rewrite Z.shiftr_div_pow2, Z.testbit_spec' by assumption. reflexivity.
Qed.

(** Bit [x] of the target of output [o] is bit [o] of the S-box entry of
    [x]. *)
Lemma g_target_bits (o x : Z) :
  0 <= o < 8 -> 0 <= x < 256 ->
  tbit (g_target !!! Z.to_nat o) x = Z.testbit (g_sbox_enc !!! Z.to_nat x) o.
Proof.
  intros Ho Hx. rewrite g_target_lookup by assumption.
  pose proof (forallb_for_range _ _ _ generate_target_check_all o Ho) as H.
  unfold generate_target_check in H. cbv zeta in H.
  apply andb_prop in H as [_ H].
  pose proof (forallb_for_range _ _ _ H x Hx) as H'. cbv beta in H'.
  apply andb_prop in H' as [H' _]. apply andb_prop in H' as [H' _].
  apply Z.eqb_eq in H'. unfold target_source in H'.
  rewrite land_shiftr_1 in H' by lia. now apply Z.b2z_inj in H'.
Qed.

(** ** The state [main] builds is a wired network *)

Lemma initial_state_gate (i : Z) :
  0 <= i < 8 ->
  exists t, gate_at initial_state i = mkgate IN t NO_GATE NO_GATE
            /\ t = generate_target i false.
Proof.
  intros Hi.
  assert (H : i = 0 \/ i = 1 \/ i = 2 \/ i = 3 \/ i = 4 \/ i = 5 \/ i = 6 \/ i = 7) by lia.
  destruct H as [-> | [-> | [-> | [-> | [-> | [-> | [-> | ->]]]]]]];
    eexists; (split; [cbv -[generate_target]; reflexivity | reflexivity]).
Qed.

Lemma wired_initial_state : wired initial_state.
Proof.
  intros i Hi. rewrite num_gates_initial_state in Hi.
  destruct (initial_state_gate i Hi) as (t & Hg & Ht).
  assert (Hbits : forall x, 0 <= x < 256 -> tbit t x = Z.testbit x i).
  { intros x Hx. pose proof (initial_state_inputs_ok i x Hi Hx) as H.
    rewrite Hg in H. exact H. }
  assert (Htt : is_ttable t) by (rewrite Ht; apply generate_target_is_ttable).
  clear Ht. unfold gate_wired. cbv zeta. rewrite Hg. cbn [type table in1 in2].
  auto 10.
Qed.

(** In a wired network the table of a gate lists the values of the gate:
    bit [x] of the table is the value on the input byte [x]. *)
Lemma eval_gate_table st x :
  wired st -> 0 <= x < 256 ->
  forall n i, 0 <= i < num_gates st -> i < Z.of_nat n ->
    eval_gate n st x i = tbit (table (gate_at st i)) x.
Proof.
  intros Hw Hx. induction n as [| n IH]; intros i Hi Hn; [lia |].
  cbn [eval_gate]. cbv zeta.
  destruct (Hw i Hi) as [_ Hg]. cbv zeta in Hg.
  destruct (type (gate_at st i)).
  - destruct Hg as (_ & _ & _ & Hbits). symmetry. now apply Hbits.
  - destruct Hg as (H1 & _ & ->).
    rewrite IH by lia. rewrite tbit_tnot by lia.
    replace (x <? 256) with true by (symmetry; apply Z.ltb_lt; lia).
    now rewrite andb_true_r.
  - destruct Hg as (H1 & H2 & ->). rewrite !IH by lia. now rewrite tbit_tand.
  - destruct Hg as (H1 & H2 & ->). rewrite !IH by lia. now rewrite tbit_tor.
  - destruct Hg as (H1 & H2 & ->). rewrite !IH by lia. now rewrite tbit_txor.
Qed.

(** ** The files saved by [main] *)

Lemma wired_set_output st o g : wired st -> wired (set_output st o g).
Proof. intros Hw i Hi. exact (Hw i Hi). Qed.

Lemma wired_set_max_gates st n : wired st -> wired (set_max_gates st n).
Proof. intros Hw i Hi. exact (Hw i Hi). Qed.

(** What the body of the loop of [main] did when it returns. *)
Lemma main_loop_body_saved u ds output ds' files :
  state_ok ds -> main_loop_body u ds output = Ret (ds', files) ->
  (ds' = ds /\ files = [])
  \/ exists r st',
       outputs ds !!! Z.to_nat output = NO_GATE
       /\ create_circuit u (g_target !!! Z.to_nat output) full_mask no_inbits ds
          = Ret (r, st')
       /\ r <> NO_GATE
       /\ outputs (set_output st' output r) !!! Z.to_nat output = r
       /\ table (gate_at st' r) = g_target !!! Z.to_nat output
       /\ files = [mksaved (Z.of_nat (length (assigned_outputs (set_output st' output r))))
                     (wrap64 (num_gates st' - 7))
                     (assigned_outputs (set_output st' output r))
                     (set_output st' output r)]
       /\ ds' = (if max_gates ds >? num_gates st'
                 then set_max_gates ds (num_gates st') else ds).
Proof.
  intros Hok. unfold main_loop_body. fold no_inbits.
  destruct (Z.eqb_spec (outputs ds !!! Z.to_nat output) NO_GATE) as [Hunset | Hset];
    cbn [negb]; [| intros [= <- <-]; left; auto].
  cbv zeta.
  destruct (create_circuit u _ full_mask no_inbits ds) as [[r st'] | |] eqn:E;
    try discriminate.
  pose proof E as Hpost.
  apply create_circuit_fuel_post in Hpost as (_ & (_ & Hout & _) & _);
    [| assumption | apply is_ttable_high_clear, is_ttable_full_mask].
  destruct (Z.eqb_spec (outputs (set_output st' output r) !!! Z.to_nat output) NO_GATE)
    as [Hnone | Hsome]; [intros [= <- <-]; left; auto |].
  assert (Hr : outputs (set_output st' output r) !!! Z.to_nat output = r).
  { cbn [set_output outputs] in *. rewrite list_lookup_total_insert in *.
    destruct (decide _); [reflexivity |].
    rewrite Hout in Hsome. contradiction. }
  rewrite Hr in *.
  destruct (ttable_equals _ _) eqn:Eeq; cbn [negb]; [| discriminate].
  apply ttable_equals_eq in Eeq.
  intros [= <- <-]. right. exists r, st'.
  repeat (split; [first [assumption | reflexivity | now symmetry] |]). reflexivity.
Qed.

Lemma full_mask_ones : full_mask = Z.ones 256.
Proof. reflexivity. Qed.

(** On 256-bit tables the comparison under the full mask is the plain
    comparison. *)
Lemma equals_full_mask (a b : ttable) :
  is_ttable a -> is_ttable b ->
  ttable_equals_mask a b full_mask = ttable_equals a b.
Proof.
  intros Ha Hb. apply eq_true_iff_eq.
  rewrite ttable_equals_mask_eq, ttable_equals_eq.
  unfold tand. rewrite full_mask_ones, !Z.land_ones by lia.
  rewrite !Z.mod_small by assumption. reflexivity.
Qed.

Lemma state_ok_body_next (ds st' : state) :
  state_ok ds -> state_ok st' -> state_ext ds st' ->
  state_ok (if max_gates ds >? num_gates st' then set_max_gates ds (num_gates st') else ds).
Proof.
  intros Hok Hok' (_ & _ & Hnum & _).
  destruct (max_gates ds >? num_gates st'); [| assumption].
  apply state_ok_set_max_gates; [assumption |]. destruct Hok'. lia.
Qed.

Lemma wired_body_next (ds st' : state) :
  wired ds ->
  wired (if max_gates ds >? num_gates st' then set_max_gates ds (num_gates st') else ds).
Proof. intros Hw. destruct (_ >? _); [now apply wired_set_max_gates | assumption]. Qed.

(** One round of the loop of [main]: [default_state] stays a well-formed
    wired network, and a file that is saved holds a network for the
    output of this round. *)
Lemma main_loop_body_file u ds output ds' files :
  state_ok ds -> wired ds -> 0 <= output < 8 ->
  main_loop_body u ds output = Ret (ds', files) ->
  state_ok ds' /\ wired ds' /\ Forall (fun f => saved_for f output) files.
Proof.
  intros Hok Hw Ho Hrun.
  apply main_loop_body_saved in Hrun
    as [[-> ->] | (r & st' & Hunset & Hcc & Hr & Hout & Htab & -> & ->)];
    [auto | | assumption].
  pose proof Hcc as Hpost.
  apply create_circuit_fuel_post in Hpost as (Hok' & Hext & _ & Hs);
    [| assumption | apply is_ttable_high_clear, is_ttable_full_mask].
  destruct (Hs Hr) as ([Hrange _] & _).
  assert (Hw' : wired st').
  { revert Hcc. apply create_circuit_fuel_wired; try assumption.
    apply is_ttable_high_clear, is_ttable_full_mask. }
  split; [now apply state_ok_body_next |]. split; [now apply wired_body_next |].
  constructor; [| constructor]. unfold saved_for. cbn [saved_st saved_out].
  split; [now apply state_ok_set_output |]. split; [now apply wired_set_output |].
  split.
  - unfold assigned_outputs. apply list_elem_of_In, list_elem_of_filter.
    split; [| now apply list_elem_of_In, in_for_range].
    rewrite Hout. now apply Is_true_true, negb_true_iff, Z.eqb_neq.
  - unfold computes_sbox_bit. cbv zeta. rewrite Hout.
    split; [exact Hrange |]. intros x Hx.
    unfold circuit_value.
    rewrite (eval_gate_table (set_output st' output r) x (wired_set_output _ _ _ Hw') Hx)
      by (cbn [set_output num_gates]; lia).
    change (gate_at (set_output st' output r) r) with (gate_at st' r).
    rewrite Htab. now apply g_target_bits.
Qed.

(** X14.  Every state that the loop of [main] saves, when started from a
    well-formed wired network, is a well-formed wired network that
    computes an output bit of the S-box: for the output [o] of the round
    that saved it, [o] is listed in the file name, [outputs[o]] is a gate
    of the state, and on each of the 256 input bytes the value of that
    gate is bit [o] of the S-box entry of the byte. *)
Theorem saved_circuits_compute_sbox (u : Z) (todo : list Z) (ds final : state)
    (files : list saved_state) :
  state_ok ds -> wired ds -> (forall o, In o todo -> 0 <= o < 8) ->
  main_loop u ds todo = Ret (final, files) ->
  Forall (fun f => exists o, In o todo /\ saved_for f o) files.
Proof.
  revert ds final files.
  induction todo as [| o todo IH]; intros ds final files Hok Hw Hin Hrun.
  - injection Hrun as <- <-. constructor.
  - cbn [main_loop] in Hrun.
    destruct (main_loop_body u ds o) as [[ds' fs] | |] eqn:Eb; try discriminate.
    destruct (main_loop u ds' todo) as [[final' fs'] | |] eqn:El; try discriminate.
    injection Hrun as <- <-.
    destruct (main_loop_body_file _ _ _ _ _ Hok Hw (Hin o (or_introl eq_refl)) Eb)
      as (Hok' & Hw' & Hfs).
    apply Forall_app. split.
    + eapply Forall_impl; [exact Hfs |]. intros f Hf. exists o. split; [now left | exact Hf].
    + eapply Forall_impl;
        [exact (IH _ _ _ Hok' Hw' (fun o' H => Hin o' (or_intror H)) El) |].
      intros f (o' & Ho' & Hf). exists o'. split; [now right | exact Hf].
Qed.

(** ** Runs of [main] that do not stop on an assertion *)

Lemma inputs_ok_body_next (ds st' : state) :
  inputs_ok ds ->
  inputs_ok (if max_gates ds >? num_gates st' then set_max_gates ds (num_gates st') else ds).
Proof. intros Hin. now destruct (_ >? _). Qed.

(** With the unassigned [mux_out_or] read as [NO_GATE], one round of the
    loop of [main] on a wired network with the input gates in place does
    not stop on an assertion. *)
Lemma main_loop_body_returns ds output :
  state_ok ds -> wired ds -> inputs_ok ds -> 0 <= output < 8 ->
  exists ds' files,
    main_loop_body NO_GATE ds output = Ret (ds', files)
    /\ state_ok ds' /\ wired ds' /\ inputs_ok ds'.
Proof.
  intros Hok Hw Hin Ho.
  destruct (create_circuit_from_main_returns ds (g_target !!! Z.to_nat output) Hok Hin)
    as (r & st' & Hcc).
  pose proof Hcc as Hpost.
  apply create_circuit_fuel_post in Hpost as (Hok' & Hext & _ & Hs);
    [| assumption | apply is_ttable_high_clear, is_ttable_full_mask].
  assert (Hw' : wired st').
  { revert Hcc. apply create_circuit_fuel_wired; try assumption.
    apply is_ttable_high_clear, is_ttable_full_mask. }
  unfold main_loop_body. fold no_inbits.
  destruct (Z.eqb_spec (outputs ds !!! Z.to_nat output) NO_GATE) as [Hunset | Hset];
    cbn [negb]; [| eauto 10].
  cbv zeta. rewrite Hcc.
  destruct (Z.eqb_spec (outputs (set_output st' output r) !!! Z.to_nat output) NO_GATE)
    as [Hnone | Hsome]; [eauto 10 |].
  assert (Hr : outputs (set_output st' output r) !!! Z.to_nat output = r).
  { cbn [set_output outputs] in *. rewrite list_lookup_total_insert in *.
    destruct (decide _); [reflexivity |].
    destruct Hext as (_ & Hout & _). rewrite Hout in Hsome. contradiction. }
  rewrite Hr in *.
  destruct (Hs Hsome) as ([Hrange Hmatch] & _).
  change (gate_at (set_output st' output r) r) with (gate_at st' r).
  rewrite equals_full_mask in Hmatch;
    [| now apply g_target_is_ttable | now apply wired_table].
  rewrite Hmatch. cbn [negb].
  eexists. eexists. split; [reflexivity |].
  change (num_gates (set_output st' output r)) with (num_gates st').
  split; [now apply state_ok_body_next |].
  split; [now apply wired_body_next | now apply inputs_ok_body_next].
Qed.

(** X15.  With the unassigned [mux_out_or] read as [NO_GATE], the loop of
    [main] started from a well-formed wired network whose first eight
    gates are the input bits runs to its end: no assertion stops it,
    neither one of [create_circuit] or [add_gate] nor the comparison of
    the result with the target after each synthesis. *)
Theorem main_loop_no_abort (todo : list Z) (ds : state) :
  state_ok ds -> wired ds -> inputs_ok ds -> (forall o, In o todo -> 0 <= o < 8) ->
  exists final files, main_loop NO_GATE ds todo = Ret (final, files).
Proof.
  revert ds.
  induction todo as [| o todo IH]; intros ds Hok Hw Hin Htodo.
  - cbn [main_loop]. eauto.
  - cbn [main_loop].
    destruct (main_loop_body_returns ds o Hok Hw Hin (Htodo o (or_introl eq_refl)))
      as (ds' & fs & -> & Hok' & Hw' & Hin').
    destruct (IH ds' Hok' Hw' Hin' (fun o' H => Htodo o' (or_intror H)))
      as (final & fs' & ->).
    eauto.
Qed.

(** ** The names and the gate counts of the saved files *)

Lemma filter_length_same (p q : Z -> bool) (l : list Z) :
  (forall x, x ∈ l -> q x = p x) ->
  length (filter (fun x => q x) l) = length (filter (fun x => p x) l).
Proof.
  induction l as [| a l IH]; intros H; [reflexivity |].
  rewrite !filter_cons. rewrite (H a) by left.
  destruct (decide (p a)); cbn [length]; rewrite IH; auto; intros x Hx; apply H; now right.
Qed.

Lemma filter_length_flip (p q : Z -> bool) (l : list Z) (o : Z) :
  NoDup l -> o ∈ l -> p o = false -> q o = true ->
  (forall x, x ∈ l -> x <> o -> q x = p x) ->
  length (filter (fun x => q x) l) = S (length (filter (fun x => p x) l)).
Proof.
  intros Hnd Hin Hp Hq. induction l as [| a l IH]; intros Hsame; [inversion Hin |].
  apply NoDup_cons in Hnd as [Ha Hnd]. rewrite !filter_cons.
  destruct (decide (a = o)) as [-> | Hne].
  - rewrite Hp, Hq. rewrite decide_True by exact I. rewrite decide_False by (intros []).
    cbn [length]. f_equal. apply filter_length_same.
    intros x Hx. apply Hsame; [now right |]. intros ->. contradiction.
  - rewrite (Hsame a (list_elem_of_here _ _) Hne).
    apply elem_of_cons in Hin as [-> | Hin]; [contradiction |].
    assert (Hsame' : forall x, x ∈ l -> x <> o -> q x = p x)
      by (intros x Hx; apply Hsame; now right).
    destruct (decide (p a)); cbn [length]; rewrite IH; auto.
Qed.

Lemma assigned_outputs_set (ds st' : state) (o r : Z) :
  0 <= o < 8 -> outputs st' = outputs ds ->
  outputs ds !!! Z.to_nat o = NO_GATE ->
  outputs (set_output st' o r) !!! Z.to_nat o = r -> r <> NO_GATE ->
  length (assigned_outputs (set_output st' o r)) = S (length (assigned_outputs ds)).
Proof.
  intros Ho Hout Hunset Hr Hne. unfold assigned_outputs.
  apply (filter_length_flip
           (fun i => negb (outputs ds !!! Z.to_nat i =? NO_GATE))
           (fun i => negb (outputs (set_output st' o r) !!! Z.to_nat i =? NO_GATE))
           (for_range 0 8) o).
  - apply NoDup_seqZ.
  - now apply list_elem_of_In, in_for_range.
  - rewrite Hunset, Z.eqb_refl. reflexivity.
  - rewrite Hr. now apply negb_true_iff, Z.eqb_neq.
  - intros x Hx Hxo. apply list_elem_of_In, in_for_range in Hx.
    cbn [set_output outputs]. rewrite Hout.
    rewrite list_lookup_total_insert_ne by lia. reflexivity.
Qed.

(** One round of the loop: a saved file is named after its state, and
    [max_gates] of [default_state] becomes the gate count of the file. *)
Lemma main_loop_body_named u ds output ds' files :
  state_ok ds -> 0 <= output < 8 ->
  main_loop_body u ds output = Ret (ds', files) ->
  ds' = set_max_gates ds (budget_after (max_gates ds) files)
  /\ gate_counts_within (max_gates ds) files
  /\ Forall (saved_named ds) files.
Proof.
  intros Hok Ho Hrun.
  apply main_loop_body_saved in Hrun
    as [[-> ->] | (r & st' & Hunset & Hcc & Hr & Hout & Htab & -> & ->)];
    [| | assumption].
  { split; [now destruct ds |]. split; [exact I | constructor]. }
  apply create_circuit_fuel_post in Hcc as (Hok' & (Hmax & Houts & Hnum & _) & _);
    [| assumption | apply is_ttable_high_clear, is_ttable_full_mask].
  pose proof (ok_budget _ Hok') as Hbud. pose proof (ok_inputs _ Hok') as Hin.
  pose proof (ok_max _ Hok') as Hle. unfold MAX_GATES in Hle.
  unfold budget_after. cbn [last saved_st gate_counts_within].
  change (num_gates (set_output st' output r)) with (num_gates st').
  split; [| split].
  - destruct (Z.gtb_spec (max_gates ds) (num_gates st')) as [Hgt | Hge]; [reflexivity |].
    assert (Heq : num_gates st' = max_gates ds) by lia. rewrite Heq. now destruct ds.
  - split; [lia | exact I].
  - constructor; [| constructor]. unfold saved_named.
    cbn [saved_out saved_st saved_num_outputs saved_gate_count].
    split; [reflexivity |]. split.
    + rewrite (assigned_outputs_set ds st' output r) by assumption. lia.
    + unfold wrap64. apply Z.mod_small. cbn [set_output num_gates]. lia.
Qed.

Lemma gate_counts_within_le (b b' : Z) (files : list saved_state) :
  b <= b' -> gate_counts_within b files -> gate_counts_within b' files.
Proof. destruct files as [| f files]; [auto |]. cbn. intros Hb [H1 H2]. split; [lia | assumption]. Qed.

Lemma gate_counts_within_app (b : Z) (fs fs' : list saved_state) :
  gate_counts_within b fs -> gate_counts_within (budget_after b fs) fs' ->
  gate_counts_within b (fs ++ fs').
Proof.
  revert b. induction fs as [| f fs IH]; intros b H1 H2; [exact H2 |].
  destruct H1 as [Hf H1]. cbn [app gate_counts_within]. split; [assumption |].
  apply IH; [assumption |].
  unfold budget_after in *.
  destruct fs as [| f' fs]; [exact H2 |].
  change (last (f :: f' :: fs)) with (last (f' :: fs)) in H2.
  destruct (last (f' :: fs)) eqn:E; [exact H2 | apply last_None in E; discriminate].
Qed.

Lemma budget_after_app (b : Z) (fs fs' : list saved_state) :
  budget_after (budget_after b fs) fs' = budget_after b (fs ++ fs').
Proof.
  unfold budget_after. rewrite last_app.
  destruct (last fs'); reflexivity.
Qed.

(** X16.  Over the whole loop of [main], [default_state] changes in
    [max_gates] only, which ends as the gate count of the last file
    saved; the gate counts of the saved files never exceed the initial
    [max_gates] and never go up from one file to the next; and every file
    is named after its state: the digits are its assigned outputs, the
    number of outputs is one more than [default_state] has assigned, and
    the gate count in the name is [num_gates - 7], without wrap-around. *)
Theorem main_loop_file_names (u : Z) (todo : list Z) (ds final : state)
    (files : list saved_state) :
  state_ok ds -> (forall o, In o todo -> 0 <= o < 8) ->
  main_loop u ds todo = Ret (final, files) ->
  final = set_max_gates ds (budget_after (max_gates ds) files)
  /\ gate_counts_within (max_gates ds) files
  /\ Forall (saved_named ds) files.
Proof.
  revert ds final files.
  induction todo as [| o todo IH]; intros ds final files Hok Hin Hrun.
  - injection Hrun as <- <-.
    split; [now destruct ds |]. split; [exact I | constructor].
  - cbn [main_loop] in Hrun.
    destruct (main_loop_body u ds o) as [[ds' fs] | |] eqn:Eb; try discriminate.
    destruct (main_loop u ds' todo) as [[final' fs'] | |] eqn:El; try discriminate.
    injection Hrun as <- <-.
    destruct (main_loop_body_named _ _ _ _ _ Hok (Hin o (or_introl eq_refl)) Eb)
      as (Hds' & Hc & Hn).
    assert (Hok' : state_ok ds').
    { apply main_loop_body_saved in Eb
        as [[-> _] | (r & st' & _ & Hcc & _ & _ & _ & _ & ->)]; [assumption | | assumption].
      apply create_circuit_fuel_post in Hcc as (Hok' & Hext & _);
        [| assumption | apply is_ttable_high_clear, is_ttable_full_mask].
      now apply state_ok_body_next. }
    destruct (IH _ _ _ Hok' (fun o' H => Hin o' (or_intror H)) El) as (Hfinal & Hc' & Hn').
    rewrite Hds' in Hfinal, Hc', Hn'. cbn [set_max_gates max_gates] in Hfinal, Hc'.
    split; [| split].
    + rewrite Hfinal, budget_after_app. reflexivity.
    + now apply gate_counts_within_app.
    + apply Forall_app. split; [assumption |]. exact Hn'.
Qed.

(** ** The number of gates a call adds *)

(** A gate-adding call, on any well-formed state, adds no more gates than
    its bound and returns a gate number or [NO_GATE]. *)
Lemma composer_count n m :
  composer n m ->
  forall st r st', state_ok st -> m st = Ret (r, st') ->
    state_ok st' /\ 0 <= r /\ num_gates st <= num_gates st' <= num_gates st + n.
Proof.
  induction 1 as [i Hi | a Ha | ty op a b Hop Ha Hb | n1 n2 m f Hm IHm Hf IHf];
    intros st r st' Hok Hrun.
  - injection Hrun as <- <-. split; [assumption | lia].
  - pose proof (ok_inputs _ Hok). unfold add_not_gate in Hrun.
    apply add_gate_ret in Hrun as [[-> ->] | (_ & _ & _ & Hlt & -> & ->)];
      [split; [assumption | rewrite NO_GATE_value; lia] | | assumption].
    split; [now apply state_ok_push | rewrite num_gates_push; lia].
  - pose proof (ok_inputs _ Hok). unfold add_binary_gate in Hrun.
    apply add_gate_ret in Hrun as [[-> ->] | (_ & _ & _ & Hlt & -> & ->)];
      [split; [assumption | rewrite NO_GATE_value; lia] | | assumption].
    split; [now apply state_ok_push | rewrite num_gates_push; lia].
  - unfold bind in Hrun.
    destruct (m st) as [[g s1] | |] eqn:E; try discriminate.
    destruct (IHm _ _ _ Hok E) as (Hok1 & Hg & Hn1).
    destruct (IHf g Hg _ _ _ Hok1 Hrun) as (Hok2 & Hr & Hn2).
    split; [assumption |]. split; [assumption | lia].
Qed.

(** ** A failed two-gate construction *)

Lemma two_adds st ty1 (t1 : state -> ttable) a b ty2 (t2 : Z -> state -> ttable) c :
  state_ok st -> ty1 <> IN -> ty2 <> IN ->
  0 <= a < num_gates st -> (ty1 = NOT \/ 0 <= b < num_gates st) ->
  (ty2 = NOT \/ 0 <= c < num_gates st) ->
  let m : M Z := bind (fun s => add_gate ty1 (t1 s) a b s)
                      (fun g s => add_gate ty2 (t2 g s) g c s) in
  (max_gates st <= num_gates st -> m st = Ret (NO_GATE, st))
  /\ (max_gates st = num_gates st + 1 ->
      m st = Ret (NO_GATE, push_gate st (mkgate ty1 (t1 st) a b)))
  /\ (num_gates st + 2 <= max_gates st ->
      m st = Ret (num_gates st + 1,
                  push_gate (push_gate st (mkgate ty1 (t1 st) a b))
                    (mkgate ty2 (t2 (num_gates st) (push_gate st (mkgate ty1 (t1 st) a b)))
                            (num_gates st) c))).
Proof.
  intros Hok Hty1 Hty2 Ha Hb Hc m. unfold m, bind.
  pose proof (ok_inputs _ Hok) as Hin.
  destruct (add_gate_step st ty1 (t1 st) a b Hok Hty1 Ha Hb) as [[Hfull E] | [Hlt E]];
    rewrite E.
  - rewrite add_gate_no_input1.
    split; [reflexivity |]. split; intros; lia.
  - set (s1 := push_gate st (mkgate ty1 (t1 st) a b)).
    assert (Hok1 : state_ok s1) by now apply state_ok_push.
    assert (Hc1 : ty2 = NOT \/ 0 <= c < num_gates s1)
      by (destruct Hc; [left; assumption | right; unfold s1; rewrite num_gates_push; lia]).
    destruct (add_gate_step s1 ty2 (t2 (num_gates st) s1) (num_gates st) c Hok1 Hty2
                ltac:(unfold s1; rewrite num_gates_push; lia) Hc1)
      as [[Hfull' E'] | [Hlt' E']]; rewrite E';
      unfold s1 in *; rewrite ?num_gates_push, ?max_gates_push in *.
    + split; [intros; lia |]. split; [reflexivity | intros; lia].
    + split; [intros; lia |]. split; [intros; lia | reflexivity].
Qed.

Lemma two_adds_outcome st ty1 t1 a b ty2 t2 c :
  state_ok st -> ty1 <> IN -> ty2 <> IN ->
  0 <= a < num_gates st -> (ty1 = NOT \/ 0 <= b < num_gates st) ->
  (ty2 = NOT \/ 0 <= c < num_gates st) ->
  two_gate_outcome st (bind (fun s => add_gate ty1 (t1 s) a b s)
                            (fun g s => add_gate ty2 (t2 g s) g c s)).
Proof.
  intros Hok Hty1 Hty2 Ha Hb Hc.
  destruct (two_adds st ty1 t1 a b ty2 t2 c Hok Hty1 Hty2 Ha Hb Hc) as (H0 & H1 & H2).
  split; [exact H0 |]. split.
  - intros H. eexists. split; [| exact (H1 H)]. exact Hty1.
  - intros H. eexists. eexists. split; [| exact (H2 H)]. reflexivity.
Qed.

Lemma binary_then_not st ty op a b :
  binary_op ty op -> state_ok st -> 0 <= a < num_gates st -> 0 <= b < num_gates st ->
  two_gate_outcome st (bind (add_binary_gate ty op a b) add_not_gate).
Proof.
  intros Hop Hok Ha Hb. destruct (binary_op_type _ _ Hop) as [Hin _].
  apply (two_adds_outcome st ty
           (fun s => op (table (gate_at s a)) (table (gate_at s b))) a b
           NOT (fun g s => tnot (table (gate_at s g))) NO_GATE);
    auto; discriminate.
Qed.

Lemma not_then_binary st ty op a b :
  binary_op ty op -> state_ok st -> 0 <= a < num_gates st -> 0 <= b < num_gates st ->
  two_gate_outcome st (bind (add_not_gate a) (fun g => add_binary_gate ty op g b)).
Proof.
  intros Hop Hok Ha Hb. destruct (binary_op_type _ _ Hop) as [Hin _].
  apply (two_adds_outcome st NOT (fun s => tnot (table (gate_at s a))) a NO_GATE
           ty (fun g s => op (table (gate_at s g)) (table (gate_at s b))) b);
    auto; discriminate.
Qed.

Lemma binary_then_binary st ty1 op1 ty2 op2 a b c :
  binary_op ty1 op1 -> binary_op ty2 op2 -> state_ok st ->
  0 <= a < num_gates st -> 0 <= b < num_gates st -> 0 <= c < num_gates st ->
  two_gate_outcome st (bind (add_binary_gate ty1 op1 a b)
                            (fun g => add_binary_gate ty2 op2 g c)).
Proof.
  intros Hop1 Hop2 Hok Ha Hb Hc.
  destruct (binary_op_type _ _ Hop1) as [Hin1 _].
  destruct (binary_op_type _ _ Hop2) as [Hin2 _].
  apply (two_adds_outcome st ty1
           (fun s => op1 (table (gate_at s a)) (table (gate_at s b))) a b
           ty2 (fun g s => op2 (table (gate_at s g)) (table (gate_at s c))) c);
    auto.
Qed.

(** ** Masked comparison, bit by bit *)

(** X1.  [ttable_equals_mask] compares two tables on the bits of the mask
    and on nothing else: it returns true exactly when the tables agree at
    every index whose mask bit is set. *)
Theorem ttable_equals_mask_bits (in1 in2 mask : ttable) :
  ttable_equals_mask in1 in2 mask = true
  <-> forall i, tbit mask i = true -> tbit in1 i = tbit in2 i.
Proof.
  rewrite ttable_equals_mask_eq. split.
  - intros H i Hi.
    assert (Hb : tbit (tand in1 mask) i = tbit (tand in2 mask) i) by now rewrite H.
    rewrite !tbit_tand, Hi, !andb_true_r in Hb. exact Hb.
  - intros H. apply ttable_ext. intros i _. rewrite !tbit_tand.
    destruct (tbit mask i) eqn:E; [| now rewrite !andb_false_r].
    now rewrite (H i E).
Qed.

(** ** What a failed search rules out *)

Lemma triple_loop_none {B : Type} (f : Z -> Z -> Z -> option B) (n : Z) :
  first_some (fun i =>
    first_some (fun k => first_some (f i k) (for_range (k + 1) n)) (for_range (i + 1) n))
    (for_range 0 n) = None ->
  forall i k m, 0 <= i < k -> k < m -> m < n -> f i k m = None.
Proof.
  intros H i k m Hi Hk Hm.
  pose proof (pair_loop_none _ _ H i k Hi ltac:(lia)) as H1. cbv beta in H1.
  apply (first_some_none _ _ H1). apply in_for_range. lia.
Qed.

Lemma phase5_none st target mask :
  phase5 st target mask = None ->
  forall i k j t, 0 <= i < k -> k < j -> j < num_gates st ->
    In t (compositions (tand (table (gate_at st i)) mask) (tand (table (gate_at st k)) mask)
                       (tand (table (gate_at st j)) mask)) ->
    ttable_equals (tand target mask) t = false.
Proof.
  intros H i k j t Hi Hk Hj Hin. unfold phase5 in H. cbv zeta in H.
  pose proof (triple_loop_none _ _ H i k j Hi Hk Hj) as H1. cbv beta in H1.
  pose proof (first_test_none _ _ H1) as H2.
  apply (compositions_tested _ _ _ i k j) in Hin.
  apply in_map_iff in Hin as ([t' m] & <- & Hin). cbn [fst].
  exact (H2 t' m Hin).
Qed.

(** The masked comparison of a composition of three tables, from the
    comparison the triple search makes on the masked tables. *)
Ltac masked_composition :=
  first
    [ rewrite <- (equals_masked_binary2 AND tand AND tand) by auto with gates
    | rewrite <- (equals_masked_binary2 AND tand OR tor) by auto with gates
    | rewrite <- (equals_masked_binary2 AND tand XOR txor) by auto with gates
    | rewrite <- (equals_masked_binary2 OR tor AND tand) by auto with gates
    | rewrite <- (equals_masked_binary2 OR tor OR tor) by auto with gates
    | rewrite <- (equals_masked_binary2 OR tor XOR txor) by auto with gates
    | rewrite <- (equals_masked_binary2 XOR txor AND tand) by auto with gates
    | rewrite <- (equals_masked_binary2 XOR txor OR tor) by auto with gates
    | rewrite <- (equals_masked_binary2 XOR txor XOR txor) by auto with gates ].

Lemma phase5_none_unmasked st target mask :
  phase5 st target mask = None ->
  forall i k j t, 0 <= i < k -> k < j -> j < num_gates st ->
    In t (compositions (table (gate_at st i)) (table (gate_at st k))
                       (table (gate_at st j))) ->
    ttable_equals_mask target t mask = false.
Proof.
  intros H i k j t Hi Hk Hj Hin.
  pose proof (phase5_none _ _ _ H i k j) as Hn.
  unfold compositions in Hin, Hn. cbn [flat_map map app] in Hin, Hn.
  repeat (destruct Hin as [<- | Hin];
          [masked_composition; apply Hn; try assumption; cbn [In]; tauto |]).
  destruct Hin.
Qed.

(** ** The bits of the target outside the mask *)

Lemma equals_mask_congr (a a' b mask : ttable) :
  tand a mask = tand a' mask ->
  ttable_equals_mask a b mask = ttable_equals_mask a' b mask.
Proof.
  intros H. apply eq_true_iff_eq. rewrite !ttable_equals_mask_eq, H. reflexivity.
Qed.

Lemma find_ext {A : Type} (f g : A -> bool) (l : list A) :
  (forall x, f x = g x) -> find f l = find g l.
Proof.
  intros H. induction l as [| x l IH]; [reflexivity |].
  cbn [find]. rewrite (H x), IH. reflexivity.
Qed.

Lemma first_some_ext {A B : Type} (f g : A -> option B) (l : list A) :
  (forall x, f x = g x) -> first_some f l = first_some g l.
Proof.
  intros H. induction l as [| x l IH]; [reflexivity |].
  cbn [first_some]. rewrite (H x), IH. reflexivity.
Qed.

Lemma first_test_ext (f g : ttable -> bool) (tests : list (ttable * M Z)) :
  (forall t, f t = g t) -> first_test f tests = first_test g tests.
Proof.
  intros H. unfold first_test. f_equal. apply find_ext. intros c. apply H.
Qed.

(** The searches read the target only on the mask. *)
Lemma phases_mask_only st target target' mask :
  tand target mask = tand target' mask ->
  phases_1_5 st target mask = phases_1_5 st target' mask.
Proof.
  intros H.
  assert (Heq : forall t, ttable_equals_mask target t mask
                          = ttable_equals_mask target' t mask)
    by (intros t; now apply equals_mask_congr).
  assert (E1 : phase1 st target mask = phase1 st target' mask).
  { unfold phase1. f_equal. apply find_ext. intros i. apply Heq. }
  assert (E2 : phase2 st target mask = phase2 st target' mask).
  { unfold phase2. f_equal. apply find_ext. intros i. apply Heq. }
  assert (E3 : phase3 st target mask = phase3 st target' mask).
  { unfold phase3. cbv zeta. rewrite H. reflexivity. }
  assert (E4 : phase4 st target mask = phase4 st target' mask).
  { unfold phase4. cbv zeta.
    apply first_some_ext. intros i. apply first_some_ext. intros k.
    apply first_test_ext. intros t. apply Heq. }
  assert (E5 : phase5 st target mask = phase5 st target' mask).
  { unfold phase5. cbv zeta. rewrite H. reflexivity. }
  unfold phases_1_5. rewrite E1, E2, E3, E4, E5. reflexivity.
Qed.

Section SplitMaskOnly.

Variable u : Z.
Variable cc : ttable -> ttable -> list Z -> M Z.

(** The recursive calls read the target only on the mask. *)
Hypothesis cc_mask_only :
  forall target target' mask inbits st,
    tand target mask = tand target' mask ->
    cc target mask inbits st = cc target' mask inbits st.

Lemma mux_and_mask_only target target' mask fsel next bit st :
  tand target mask = tand target' mask ->
  mux_and cc target mask fsel next bit st = mux_and cc target' mask fsel next bit st.
Proof.
  intros H. unfold mux_and, bind, get_state.
  rewrite (cc_mask_only (tand target (tnot fsel)) (tand target' (tnot fsel)))
    by bitblast.
  destruct (cc _ _ next st) as [[fb s1] | |]; try reflexivity.
  destruct (negb (fb =? NO_GATE)); [| reflexivity].
  rewrite (cc_mask_only (txor (table (gate_at s1 fb)) target)
                        (txor (table (gate_at s1 fb)) target'))
    by bitblast.
  reflexivity.
Qed.

Lemma mux_or_mask_only target target' mask fsel next bit st :
  tand target mask = tand target' mask ->
  mux_or u cc target mask fsel next bit st = mux_or u cc target' mask fsel next bit st.
Proof.
  intros H. unfold mux_or, bind, get_state.
  rewrite (cc_mask_only (tand (tnot target) fsel) (tand (tnot target') fsel))
    by bitblast.
  destruct (cc _ _ next st) as [[fd s1] | |]; try reflexivity.
  destruct (negb (fd =? NO_GATE)); [| reflexivity].
  rewrite (cc_mask_only (txor (table (gate_at s1 fd)) target)
                        (txor (table (gate_at s1 fd)) target'))
    by bitblast.
  reflexivity.
Qed.

Lemma split_loop_mask_only st target target' mask inbits next bitp bits :
  tand target mask = tand target' mask ->
  forall best,
    split_loop u cc st target mask inbits next bitp best bits
    = split_loop u cc st target' mask inbits next bitp best bits.
Proof.
  intros H. induction bits as [| bit bits IH]; intros best; [reflexivity |].
  cbn [split_loop].
  assert (E : split_on_bit u cc st target mask inbits next bitp best bit
              = split_on_bit u cc st target' mask inbits next bitp best bit).
  { unfold split_on_bit. cbv zeta.
    rewrite (mux_and_mask_only target target') by assumption.
    rewrite (mux_or_mask_only target target') by assumption.
    destruct (existsb _ _); [reflexivity |].
    destruct (mux_and cc target' _ _ _ _ _) as [[a sa] | |]; try reflexivity.
    destruct (mux_or u cc target' _ _ _ _ _) as [[o so] | |]; try reflexivity.
    destruct (_ && _); [reflexivity |].
    destruct (mux_select a sa o so) as [nst mux_out].
    now rewrite (equals_mask_congr target target'). }
  rewrite E. destruct (split_on_bit _ _ _ target' _ _ _ _ _ _); try reflexivity.
  apply IH.
Qed.

Lemma split_mask_only target target' mask inbits st :
  tand target mask = tand target' mask ->
  split u cc target mask inbits st = split u cc target' mask inbits st.
Proof.
  intros H. unfold split.
  destruct (copy_inbits 6 inbits next_inbits_uninit 0) as [next bitp].
  destruct (negb (bitp <? 6)); [reflexivity |]. cbv zeta.
  now rewrite (split_loop_mask_only st target target').
Qed.

End SplitMaskOnly.

Lemma create_circuit_fuel_mask_only (u : Z) (fuel : nat) :
  forall target target' mask inbits st,
    tand target mask = tand target' mask ->
    create_circuit_fuel u fuel target mask inbits st
    = create_circuit_fuel u fuel target' mask inbits st.
Proof.
  induction fuel as [| fuel IH]; intros target target' mask inbits st H; [reflexivity |].
  cbn [create_circuit_fuel].
  rewrite (phases_mask_only st target target') by assumption.
  destruct (phases_1_5 st target' mask); [reflexivity |].
  now apply split_mask_only.
Qed.

(** ** The copy of the used bits *)

Lemma copy_inbits_end (n : nat) (inbits : list Z) :
  forall next b next' b',
    copy_inbits n inbits next b = (next', b') ->
    6 <= b + Z.of_nat n -> b' < 6 -> inbit inbits b' = -1.
Proof.
  induction n as [| n IH]; intros next b next' b' Hrun Hn Hb'; cbn [copy_inbits] in Hrun.
  - injection Hrun as <- <-. lia.
  - destruct ((b <? 6) && negb (inbit inbits b =? -1)) eqn:Hc.
    + apply IH in Hrun; [assumption | lia | assumption].
    + injection Hrun as <- <-.
      apply andb_false_iff in Hc as [Hc | Hc].
      * apply Z.ltb_ge in Hc. lia.
      * now apply negb_false_iff, Z.eqb_eq in Hc.
Qed.

(** ** The OR multiplexer after a successful first call *)

Lemma mux_or_built u cc st target mask next bit fd s1 o nst :
  (forall target mask inbits st r st',
     state_ok st -> high_clear mask ->
     cc target mask inbits st = Ret (r, st') ->
     create_circuit_post st target mask r st') ->
  state_ok st -> high_clear mask -> 0 <= bit < 8 ->
  cc (tand (tnot target) (table (gate_at st bit))) (tand mask (table (gate_at st bit)))
     next st = Ret (fd, s1) ->
  fd <> NO_GATE ->
  mux_or u cc target mask (table (gate_at st bit)) next bit st = Ret (o, nst) ->
  o <> NO_GATE ->
  num_gates st < num_gates nst /\ o = num_gates nst - 1
  /\ ttable_equals_mask target (table (gate_at nst o)) mask = true.
Proof.
  intros cc_post Hok Hm Hbit E1 Hfd Hrun Hne.
  pose proof (ok_inputs _ Hok) as Hin.
  set (fsel := table (gate_at st bit)) in *.
  unfold mux_or in Hrun. unfold bind at 1 in Hrun. rewrite E1 in Hrun.
  destruct (cc_post _ _ _ _ _ _ Hok (high_clear_tand _ _ Hm) E1)
    as (Hok1 & Hext1 & _ & Hs1).
  destruct (Z.eqb_spec fd NO_GATE) as [? | _]; [contradiction |]. cbn [negb] in Hrun.
  destruct (Hs1 Hfd) as ([Hfd1 Heq1] & _).
  unfold bind at 1, get_state in Hrun. unfold bind at 1 in Hrun.
  destruct (cc (txor (table (gate_at s1 fd)) target) (tand mask (tnot fsel)) next s1)
    as [[fe s2] | |] eqn:E2; try discriminate.
  destruct (cc_post _ _ _ _ _ _ Hok1 (high_clear_tand _ _ Hm) E2)
    as (Hok2 & Hext2 & _ & Hs2).
  assert (Hfe : fe = NO_GATE \/ 0 <= fe < num_gates s2).
  { destruct (Z.eq_dec fe NO_GATE) as [? | Hn]; [left; assumption | right].
    now destruct (Hs2 Hn) as ([? _] & _). }
  destruct (mux_tail OR tor s1 s2 fd fe bit o nst binary_op_or Hok1 Hok2 Hext2
              Hfd1 Hfe Hbit Hrun) as (Hok4 & Hext4 & Ho).
  assert (Hfene : fe <> NO_GATE).
  { intros ->. revert Hrun. unfold bind, add_or_gate.
    rewrite add_gate_no_input1. unfold add_xor_gate.
    rewrite add_gate_no_input2 by discriminate. intros [= <- <-]. contradiction. }
  destruct (Ho Hne) as (Hlt & -> & Htab).
  pose proof (state_ext_num _ _ Hext1). pose proof (state_ext_num _ _ Hext2).
  split; [lia |]. split; [reflexivity |].
  rewrite Htab.
  destruct (Hs2 Hfene) as ([_ Heq2] & _).
  rewrite (state_ext_gate _ _ bit Hext2) by lia.
  rewrite (state_ext_gate _ _ bit Hext1) by lia. fold fsel.
  now apply mux_or_table.
Qed.

(** ** A network by table lookup *)

Lemma composer_add_each (ms : list (M Z)) :
  Forall (fun m => exists n, composer n m) ms -> exists n, composer n (add_each ms).
Proof.
  induction 1 as [| m ms (n & Hm) _ (n' & IH)]; cbn [add_each].
  - exists 0. now apply composer_ret.
  - exists (n + n'). apply composer_bind; [assumption | intros g _; assumption].
Qed.

Lemma literal_nonneg (base v j : Z) : 0 <= base -> 0 <= j -> 0 <= literal base v j.
Proof. intros Hb Hj. unfold literal. destruct (Z.testbit v j); lia. Qed.

Lemma composer_add_nibble (base v : Z) : 0 <= base -> exists n, composer n (add_nibble base v).
Proof.
  intros Hb. exists (2 + 1). unfold add_nibble. apply composer_bind.
  - apply (composer_binary_binary AND tand AND tand);
      auto using binary_op_and, literal_nonneg with lia.
  - intros g Hg. apply (composer_binary AND tand);
      auto using binary_op_and, literal_nonneg with lia.
Qed.

Lemma composer_add_minterms (target : ttable) (xs : list Z) :
  (forall x, In x xs -> 0 <= x) ->
  exists n, forall acc, 0 <= acc -> composer n (add_minterms target xs acc).
Proof.
  induction xs as [| x xs IH]; intros Hxs; cbn [add_minterms].
  - exists 0. intros acc Hacc. now apply composer_ret.
  - destruct IH as (n & IH); [intros y Hy; apply Hxs; now right |].
    pose proof (Hxs x (or_introl eq_refl)) as Hx.
    destruct (Z.testbit target x); [| exists n; exact IH].
    exists (1 + (1 + n)). intros acc Hacc. apply composer_bind.
    + apply (composer_binary AND tand); [apply binary_op_and | |].
      * pose proof (Z.mod_pos_bound x 16). lia.
      * pose proof (Z.div_pos x 16). lia.
    + intros m Hm. apply composer_bind.
      * now apply (composer_binary OR tor); [apply binary_op_or | |].
      * intros acc' Hacc'. now apply IH.
Qed.

Lemma composer_lookup_circuit (target : ttable) : exists n, composer n (lookup_circuit target).
Proof.
  destruct (composer_add_each (add_not_gate <$> for_range 0 8)) as (n1 & H1).
  { apply Forall_fmap, Forall_forall. intros i Hi.
    apply list_elem_of_In, in_for_range in Hi. exists 1. apply composer_not. lia. }
  destruct (composer_add_each (add_nibble 0 <$> for_range 0 16)) as (n2 & H2).
  { apply Forall_fmap, Forall_forall. intros v _. now apply composer_add_nibble. }
  destruct (composer_add_each (add_nibble 4 <$> for_range 0 16)) as (n3 & H3).
  { apply Forall_fmap, Forall_forall. intros v _. now apply composer_add_nibble. }
  destruct (composer_add_minterms target (for_range 0 256)) as (n4 & H4).
  { intros x Hx. apply in_for_range in Hx. lia. }
  exists (n1 + (n2 + (n3 + (1 + n4)))). unfold lookup_circuit.
  apply composer_bind; [assumption | intros _ _].
  apply composer_bind; [assumption | intros _ _].
  apply composer_bind; [assumption | intros _ _].
  apply composer_bind; [| exact H4].
  apply (composer_binary AND tand); [apply binary_op_and | lia | lia].
Qed.

Lemma lookup_state_ok : state_ok lookup_state /\ wired lookup_state /\ inputs_ok lookup_state.
Proof.
  unfold lookup_state.
  destruct (composer_lookup_circuit (g_target !!! 0%nat)) as (n & Hc).
  destruct (lookup_circuit _ initial_state) as [[r st] | |] eqn:E;
    try (split; [exact initial_state_ok |];
         split; [exact wired_initial_state | exact initial_state_inputs_ok]).
  destruct (composer_keeps _ _ Hc _ _ _ initial_state_ok wired_initial_state E)
    as (Hok & Hw & Hext & _).
  split; [assumption |]. split; [assumption |].
  exact (inputs_ok_ext _ _ initial_state_ok initial_state_inputs_ok Hext).
Qed.

(** ** Comparison of tables *)

(** X2.  On 256-bit tables [ttable_equals] returns true exactly when the
    tables agree at each of the 256 indices, and the masked comparison
    under the all-ones mask, which is the mask [main] passes, is the same
    test. *)
Theorem ttable_equals_full_mask (in1 in2 : ttable) :
  is_ttable in1 -> is_ttable in2 ->
  (ttable_equals in1 in2 = true
   <-> forall i, 0 <= i < 256 -> tbit in1 i = tbit in2 i)
  /\ ttable_equals_mask in1 in2 full_mask = ttable_equals in1 in2.
Proof.
  intros H1 H2. split; [| now apply equals_full_mask].
  rewrite ttable_equals_eq. split; [now intros -> |].
  intros H. apply ttable_ext. intros i Hi.
  destruct (Z.lt_ge_cases i 256) as [Hlt | Hge]; [apply H; lia |].
  now rewrite (is_ttable_high_clear _ H1 i Hge), (is_ttable_high_clear _ H2 i Hge).
Qed.

Lemma ttable_equals_full_mask_witness :
  (ttable_equals x0 x1 = true <-> forall i, 0 <= i < 256 -> tbit x0 i = tbit x1 i)
  /\ ttable_equals_mask x0 x1 full_mask = ttable_equals x0 x1.
Proof.
  apply (ttable_equals_full_mask x0 x1); apply generate_target_is_ttable.
Defined.

(** ** Two-gate constructions *)

(** X3.  Each of the fourteen two-gate constructions, called on existing
    gates of a well-formed state, ends in one of three ways by the room
    that is left: with no room it returns [NO_GATE] and the state is
    unchanged; with room for one gate it returns [NO_GATE] but its first
    gate has been added and stays in the state; with room for two gates it
    adds both, the second reading the first, and returns the second. *)
Theorem two_gate_calls_budget (st : state) (a b c : Z) :
  state_ok st ->
  0 <= a < num_gates st -> 0 <= b < num_gates st -> 0 <= c < num_gates st ->
  Forall (two_gate_outcome st) (two_gate_calls a b c).
Proof.
  intros Hok Ha Hb Hc. unfold two_gate_calls.
  repeat apply Forall_cons_2; [.. | apply Forall_nil_2].
  - now apply (binary_then_not st AND tand); [apply binary_op_and | ..].
  - now apply (binary_then_not st OR tor); [apply binary_op_or | ..].
  - now apply (binary_then_not st XOR txor); [apply binary_op_xor | ..].
  - now apply (not_then_binary st OR tor); [apply binary_op_or | ..].
  - now apply (not_then_binary st AND tand); [apply binary_op_and | ..].
  - now apply (binary_then_binary st OR tor OR tor);
      [apply binary_op_or | apply binary_op_or | ..].
  - now apply (binary_then_binary st AND tand AND tand);
      [apply binary_op_and | apply binary_op_and | ..].
  - now apply (binary_then_binary st XOR txor XOR txor);
      [apply binary_op_xor | apply binary_op_xor | ..].
  - now apply (binary_then_binary st AND tand OR tor);
      [apply binary_op_and | apply binary_op_or | ..].
  - now apply (binary_then_binary st AND tand XOR txor);
      [apply binary_op_and | apply binary_op_xor | ..].
  - now apply (binary_then_binary st XOR txor OR tor);
      [apply binary_op_xor | apply binary_op_or | ..].
  - now apply (binary_then_binary st XOR txor AND tand);
      [apply binary_op_xor | apply binary_op_and | ..].
  - now apply (binary_then_binary st OR tor AND tand);
      [apply binary_op_or | apply binary_op_and | ..].
  - now apply (binary_then_binary st OR tor XOR txor);
      [apply binary_op_or | apply binary_op_xor | ..].
Qed.

Lemma num_gates_set_max_gates st n : num_gates (set_max_gates st n) = num_gates st.
Proof. reflexivity. Qed.

Lemma max_gates_set_max_gates st n : max_gates (set_max_gates st n) = n.
Proof. reflexivity. Qed.

Lemma num_gates_one_free_state : num_gates one_free_state = 8.
Proof.
  unfold one_free_state. rewrite num_gates_set_max_gates. exact num_gates_initial_state.
Qed.

Lemma max_gates_one_free_state : max_gates one_free_state = 9.
Proof. unfold one_free_state. apply max_gates_set_max_gates. Qed.

Lemma one_free_state_ok : state_ok one_free_state.
Proof.
  unfold one_free_state. apply state_ok_set_max_gates; [exact initial_state_ok |].
  rewrite num_gates_initial_state. unfold MAX_GATES. lia.
Qed.

Lemma two_gate_calls_budget_witness :
  Forall (two_gate_outcome one_free_state) (two_gate_calls 0 1 2).
Proof.
  apply (two_gate_calls_budget one_free_state 0 1 2).
  - exact one_free_state_ok.
  - rewrite num_gates_one_free_state. lia.
  - rewrite num_gates_one_free_state. lia.
  - rewrite num_gates_one_free_state. lia.
Defined.

(** ** The copy of the used bits *)

(** X4.  The loop that copies the used input bits stops at the first cell
    of [inbits] that holds -1, or after six cells: [bitp] is at most 6,
    the cells before [bitp] hold no -1 and are copied to [next_inbits],
    and when [bitp] is below 6 cell [bitp] of [inbits] holds -1. *)
Theorem copy_inbits_result (inbits : list Z) :
  exists next bitp,
    copy_inbits 6 inbits next_inbits_uninit 0 = (next, bitp)
    /\ 0 <= bitp <= 6
    /\ (forall j, 0 <= j < bitp ->
          inbit inbits j <> -1 /\ inbit next j = inbit inbits j)
    /\ (bitp < 6 -> inbit inbits bitp = -1).
Proof.
  destruct (copy_inbits 6 inbits next_inbits_uninit 0) as [next bitp] eqn:E.
  exists next, bitp. split; [reflexivity |].
  pose proof (used_bits_range inbits) as Hr. unfold used_bits in Hr.
  rewrite E in Hr. cbn [snd] in Hr. split; [assumption |].
  pose proof E as Hspec.
  apply copy_inbits_spec in Hspec as (_ & _ & Hcopied & _); [| reflexivity | lia].
  split.
  - intros j Hj. destruct (Hcopied j Hj) as [H1 H2]. auto.
  - intros Hlt. now apply (copy_inbits_end 6 inbits next_inbits_uninit 0 next bitp).
Qed.

(** ** The searches *)

(** X5.  When the five searches find nothing, so that [create_circuit]
    goes on to the split, none of the tables they look at has the target
    on the mask: no gate and no inverse of a gate; for every two different
    gates none of their AND, OR and XOR, of the inverses of these, and of
    the AND and OR with one of the two inverted; and for every three
    different gates none of the 27 tables that combine two of them with
    AND, OR or XOR and the result, with one of these operators again, with
    the third.  A gate combined with itself is not among them. *)
Theorem searches_complete (st : state) (target mask : ttable) :
  phases_1_5 st target mask = None ->
  (forall i, 0 <= i < num_gates st ->
     ttable_equals_mask target (table (gate_at st i)) mask = false
     /\ ttable_equals_mask target (tnot (table (gate_at st i))) mask = false)
  /\ (forall i k, 0 <= i < k -> k < num_gates st ->
        let ti := table (gate_at st i) in
        let tk := table (gate_at st k) in
        Forall (fun t => ttable_equals_mask target t mask = false)
          [ tand ti tk; tor ti tk; txor ti tk;
            tnot (tand ti tk); tnot (tor ti tk); tnot (txor ti tk);
            tor (tnot ti) tk; tor (tnot tk) ti; tand (tnot ti) tk; tand (tnot tk) ti ])
  /\ (forall i k j, 0 <= i < k -> k < j -> j < num_gates st ->
        Forall (fun t => ttable_equals_mask target t mask = false)
          (compositions (table (gate_at st i)) (table (gate_at st k))
                        (table (gate_at st j)))).
Proof.
  intros Hnone. pose proof Hnone as Hph. unfold phases_1_5 in Hph.
  destruct (phase1 st target mask) eqn:E1; [discriminate |].
  destruct (phase2 st target mask) eqn:E2; [discriminate |].
  destruct (phase3 st target mask) eqn:E3; [discriminate |].
  destruct (phase4 st target mask) eqn:E4; [discriminate |].
  split; [| split].
  - intros i Hi. split; [now apply phase1_none | now apply phase2_none].
  - intros i k Hi Hk ti tk.
    pose proof (phase3_none _ _ _ E3) as H3.
    pose proof (phase4_none _ _ _ E4 i k) as H4.
    repeat apply Forall_cons_2; [.. | apply Forall_nil_2].
    + apply (H3 AND tand); auto with gates.
    + apply (H3 OR tor); auto with gates.
    + apply (H3 XOR txor); auto with gates.
    + eapply H4; try eassumption. unfold phase4_tests. cbn [In]. eauto.
    + eapply H4; try eassumption. unfold phase4_tests. cbn [In]. eauto.
    + eapply H4; try eassumption. unfold phase4_tests. cbn [In]. eauto.
    + eapply H4; try eassumption. unfold phase4_tests. cbn [In]. eauto.
    + eapply H4; try eassumption. unfold phase4_tests. cbn [In]. eauto 6.
    + eapply H4; try eassumption. unfold phase4_tests. cbn [In]. eauto 7.
    + eapply H4; try eassumption. unfold phase4_tests. cbn [In]. eauto 8.
  - intros i k j Hi Hk Hj. apply Forall_forall. intros t Ht.
    apply list_elem_of_In in Ht.
    now apply (phase5_none_unmasked st target mask Hph i k j).
Qed.

Lemma searches_complete_witness :
  (forall i, 0 <= i < num_gates one_free_state ->
     ttable_equals_mask 0 (table (gate_at one_free_state i)) full_mask = false
     /\ ttable_equals_mask 0 (tnot (table (gate_at one_free_state i))) full_mask = false)
  /\ (forall i k, 0 <= i < k -> k < num_gates one_free_state ->
        let ti := table (gate_at one_free_state i) in
        let tk := table (gate_at one_free_state k) in
        Forall (fun t => ttable_equals_mask 0 t full_mask = false)
          [ tand ti tk; tor ti tk; txor ti tk;
            tnot (tand ti tk); tnot (tor ti tk); tnot (txor ti tk);
            tor (tnot ti) tk; tor (tnot tk) ti; tand (tnot ti) tk; tand (tnot tk) ti ])
  /\ (forall i k j, 0 <= i < k -> k < j -> j < num_gates one_free_state ->
        Forall (fun t => ttable_equals_mask 0 t full_mask = false)
          (compositions (table (gate_at one_free_state i))
                        (table (gate_at one_free_state k))
                        (table (gate_at one_free_state j)))).
Proof.
  apply (searches_complete one_free_state 0 full_mask).
  vm_compute. reflexivity.
Defined.

(** X6.  When one of the five searches finds a match, [create_circuit]
    adds at most two gates and does not split: no gate when an existing
    gate matches, at most one when the inverse of a gate or a gate over
    two gates matches (steps 2 and 3), at most two otherwise. *)
Theorem direct_match_gate_count (u : Z) (st : state) (target mask : ttable)
    (inbits : list Z) (r : Z) (st' : state) :
  state_ok st -> phases_1_5 st target mask <> None ->
  create_circuit u target mask inbits st = Ret (r, st') ->
  num_gates st <= num_gates st' <= num_gates st + 2
  /\ (phase1 st target mask <> None -> st' = st)
  /\ (phase2 st target mask <> None \/ phase3 st target mask <> None ->
      num_gates st' <= num_gates st + 1).
Proof.
  intros Hok Hsome Hrun.
  destruct (phases_1_5 st target mask) as [m |] eqn:Hph; [clear Hsome | contradiction].
  unfold create_circuit in Hrun. cbn [create_circuit_fuel] in Hrun.
  rewrite Hph in Hrun.
  apply phases_composer in Hph
    as [[E1 Hc] | [(E1 & E2 & Hc) | [(E1 & E2 & E3 & Hc) | (E1 & E2 & E3 & Hc)]]];
    destruct (composer_count _ _ Hc _ _ _ Hok Hrun) as (_ & _ & Hn).
  - split; [lia |]. split; [| intros _; lia]. intros _.
    apply phase1_some in E1 as (i & -> & _). now injection Hrun as <- <-.
  - split; [lia |]. split; [congruence | intros _; lia].
  - split; [lia |]. split; [congruence | intros _; lia].
  - split; [lia |]. split; [congruence |]. intros [H | H]; congruence.
Qed.

Lemma direct_match_gate_count_witness :
  num_gates one_free_state
    <= num_gates (push_gate one_free_state (mkgate AND (tand x0 x1) 0 1))
    <= num_gates one_free_state + 2
  /\ (phase1 one_free_state (tand x0 x1) full_mask <> None ->
      push_gate one_free_state (mkgate AND (tand x0 x1) 0 1) = one_free_state)
  /\ (phase2 one_free_state (tand x0 x1) full_mask <> None
      \/ phase3 one_free_state (tand x0 x1) full_mask <> None ->
      num_gates (push_gate one_free_state (mkgate AND (tand x0 x1) 0 1))
      <= num_gates one_free_state + 1).
Proof.
  apply (direct_match_gate_count NO_GATE one_free_state (tand x0 x1) full_mask no_inbits 8).
  - exact one_free_state_ok.
  - assert (Hb : match phases_1_5 one_free_state (tand x0 x1) full_mask with
                 | Some _ => true
                 | None => false
                 end = true) by (vm_compute; reflexivity).
    destruct (phases_1_5 one_free_state (tand x0 x1) full_mask);
      [discriminate | discriminate Hb].
  - vm_compute. reflexivity.
Defined.

(** ** What [create_circuit] does to the state *)

(** X7.  Whatever a call of [create_circuit] returns, a gate or
    [NO_GATE], it has only appended gates: the gates that were there, the
    outputs and [max_gates] are as before, the gate count has not gone
    down and is within [max_gates], and the state is well-formed. *)
Theorem create_circuit_appends (u : Z) (st : state) (target mask : ttable)
    (inbits : list Z) (r : Z) (st' : state) :
  state_ok st -> is_ttable mask ->
  create_circuit u target mask inbits st = Ret (r, st') ->
  state_ok st'
  /\ max_gates st' = max_gates st /\ outputs st' = outputs st
  /\ num_gates st <= num_gates st' <= max_gates st
  /\ forall i, i < num_gates st -> gate_at st' i = gate_at st i.
Proof.
  intros Hok Hmask Hrun.
  apply create_circuit_fuel_post in Hrun as (Hok' & (Hmax & Hout & Hnum & Hgates) & _);
    [| assumption | now apply is_ttable_high_clear].
  pose proof (ok_budget _ Hok') as Hbud.
  split; [assumption |]. split; [assumption |]. split; [assumption |].
  split; [lia | assumption].
Qed.

Lemma create_circuit_appends_witness :
  exists r st',
    create_circuit NO_GATE (tnot (tand x0 x1)) full_mask no_inbits one_free_state
      = Ret (r, st')
    /\ state_ok st'
    /\ max_gates st' = max_gates one_free_state /\ outputs st' = outputs one_free_state
    /\ num_gates one_free_state <= num_gates st' <= max_gates one_free_state
    /\ forall i, i < num_gates one_free_state -> gate_at st' i = gate_at one_free_state i.
Proof.
  eexists. eexists.
  assert (H : create_circuit NO_GATE (tnot (tand x0 x1)) full_mask no_inbits one_free_state
              = Ret _) by (vm_compute; reflexivity).
  split; [exact H |].
  exact (create_circuit_appends _ _ _ _ _ _ _ one_free_state_ok is_ttable_full_mask H).
Defined.

(** X8.  When [create_circuit] returns [NO_GATE], no gate of the state it
    was called on has the target on the mask, and the state is either
    unchanged or has one gate more: the first gate of a two-gate
    construction whose second gate did not fit, which is the inverse of a
    gate or the AND, OR or XOR of two gates. *)
Theorem create_circuit_failure (u : Z) (st : state) (target mask : ttable)
    (inbits : list Z) (st' : state) :
  state_ok st -> is_ttable mask ->
  create_circuit u target mask inbits st = Ret (NO_GATE, st') ->
  no_match st target mask
  /\ (st' = st
      \/ exists g, st' = push_gate st g /\ num_gates st < max_gates st
                   /\ derived st (table g)).
Proof.
  intros Hok Hmask Hrun.
  apply create_circuit_fuel_post in Hrun as (_ & _ & Hfail & _);
    [| assumption | now apply is_ttable_high_clear].
  destruct (Hfail eq_refl) as [Hleft Hno]. split; [assumption | exact Hleft].
Qed.

Lemma create_circuit_failure_witness :
  no_match one_free_state (tnot (tand x0 x1)) full_mask
  /\ (push_gate one_free_state (mkgate AND (tand x0 x1) 0 1) = one_free_state
      \/ exists g,
           push_gate one_free_state (mkgate AND (tand x0 x1) 0 1)
           = push_gate one_free_state g
           /\ num_gates one_free_state < max_gates one_free_state
           /\ derived one_free_state (table g)).
Proof.
  apply (create_circuit_failure NO_GATE one_free_state (tnot (tand x0 x1)) full_mask
           no_inbits).
  - exact one_free_state_ok.
  - exact is_ttable_full_mask.
  - vm_compute. reflexivity.
Defined.

(** X9.  After a call of [create_circuit] that returned a gate, a second
    call for the same target and mask, whatever bits are marked as used,
    finds a gate in step 1: it returns a gate that is not later than the
    first result and leaves the state as it is. *)
Theorem create_circuit_again (u : Z) (st : state) (target mask : ttable)
    (inbits inbits' : list Z) (r : Z) (st' : state) :
  state_ok st -> is_ttable mask ->
  create_circuit u target mask inbits st = Ret (r, st') -> r <> NO_GATE ->
  exists j,
    create_circuit u target mask inbits' st' = Ret (j, st')
    /\ 0 <= j <= r
    /\ ttable_equals_mask target (table (gate_at st' j)) mask = true.
Proof.
  intros Hok Hmask Hrun Hne.
  apply create_circuit_fuel_post in Hrun as (_ & _ & _ & Hs);
    [| assumption | now apply is_ttable_high_clear].
  destruct (Hs Hne) as ([Hr Heq] & _).
  destruct (find_for_range_least
              (fun i => ttable_equals_mask target (table (gate_at st' i)) mask)
              0 (num_gates st') r Hr Heq) as (j & Hf & Hj & HPj & _).
  exists j. split; [| split; assumption].
  unfold create_circuit. cbn [create_circuit_fuel].
  unfold phases_1_5, phase1. rewrite Hf. reflexivity.
Qed.

Lemma create_circuit_again_witness :
  exists j,
    create_circuit NO_GATE (tand x0 x1) full_mask six_inbits
                   (push_gate one_free_state (mkgate AND (tand x0 x1) 0 1))
    = Ret (j, push_gate one_free_state (mkgate AND (tand x0 x1) 0 1))
    /\ 0 <= j <= 8
    /\ ttable_equals_mask (tand x0 x1)
         (table (gate_at (push_gate one_free_state (mkgate AND (tand x0 x1) 0 1)) j))
         full_mask = true.
Proof.
  apply (create_circuit_again NO_GATE one_free_state (tand x0 x1) full_mask no_inbits
           six_inbits 8).
  - exact one_free_state_ok.
  - exact is_ttable_full_mask.
  - vm_compute. reflexivity.
  - rewrite NO_GATE_value. lia.
Defined.

(** X10.  [create_circuit] reads the target only on the mask: two targets
    that agree on the bits of the mask give the same result and the same
    state. *)
Theorem create_circuit_dont_care (u : Z) (st : state) (target target' mask : ttable)
    (inbits : list Z) :
  tand target mask = tand target' mask ->
  create_circuit u target mask inbits st = create_circuit u target' mask inbits st.
Proof.
  intros H. unfold create_circuit. now apply create_circuit_fuel_mask_only.
Qed.

Lemma create_circuit_dont_care_witness :
  create_circuit NO_GATE x3 x0 no_inbits initial_state
  = create_circuit NO_GATE (tand x3 x0) x0 no_inbits initial_state.
Proof.
  apply (create_circuit_dont_care NO_GATE initial_state x3 (tand x3 x0) x0 no_inbits).
  bitblast_goal.
Defined.

(** ** The two multiplexers *)

(** X11.  A gate returned by the AND multiplexer is the last gate of its
    state and has the target on the mask: the XOR of the first result with
    the AND of the second result and the selection bit.  The same holds
    for a gate returned by the OR multiplexer when its first call had a
    result.  In both cases the gates of the caller are kept. *)
Theorem mux_calls_correct (u : Z) (fuel : nat) (st : state) (target mask : ttable)
    (next : list Z) (bit : Z) :
  state_ok st -> is_ttable mask -> 0 <= bit < 8 ->
  (forall a nst,
     mux_and (create_circuit_fuel u fuel) target mask (table (gate_at st bit)) next bit st
       = Ret (a, nst) ->
     a <> NO_GATE ->
     state_ext st nst /\ num_gates st < num_gates nst /\ a = num_gates nst - 1
     /\ ttable_equals_mask target (table (gate_at nst a)) mask = true)
  /\ (forall fd s1 o nst,
        create_circuit_fuel u fuel (tand (tnot target) (table (gate_at st bit)))
                            (tand mask (table (gate_at st bit))) next st
          = Ret (fd, s1) ->
        fd <> NO_GATE ->
        mux_or u (create_circuit_fuel u fuel) target mask (table (gate_at st bit)) next
               bit st = Ret (o, nst) ->
        o <> NO_GATE ->
        state_ext st nst /\ num_gates st < num_gates nst /\ o = num_gates nst - 1
        /\ ttable_equals_mask target (table (gate_at nst o)) mask = true).
Proof.
  intros Hok Hmask Hbit. pose proof (is_ttable_high_clear _ Hmask) as Hm. split.
  - intros a nst Hrun Hne.
    destruct (mux_and_post (create_circuit_fuel u fuel) (create_circuit_fuel_post u fuel)
                _ _ _ _ _ _ _ Hok Hm Hbit Hrun) as (_ & Hext & Ha).
    destruct (Ha Hne) as (Hlt & Hlast & Heq). auto.
  - intros fd s1 o nst Hfd Hfdne Hrun Hne.
    destruct (mux_or_post u (create_circuit_fuel u fuel) (create_circuit_fuel_post u fuel)
                _ _ _ _ _ _ _ Hok Hm Hbit Hrun) as (_ & Hext & _).
    destruct (mux_or_built u (create_circuit_fuel u fuel) st target mask next bit fd s1 o
                nst (create_circuit_fuel_post u fuel) Hok Hm Hbit Hfd Hfdne Hrun Hne)
      as (Hlt & Hlast & Heq).
    auto.
Qed.

Lemma mux_calls_correct_witness :
  (exists a nst,
     mux_and (create_circuit_fuel NO_GATE 6) 0 full_mask (table (gate_at initial_state 0))
             next_inbits_bit0 0 initial_state = Ret (a, nst)
     /\ a <> NO_GATE
     /\ state_ext initial_state nst /\ num_gates initial_state < num_gates nst
     /\ a = num_gates nst - 1
     /\ ttable_equals_mask 0 (table (gate_at nst a)) full_mask = true)
  /\ (exists fd s1 o nst,
        create_circuit_fuel NO_GATE 6 (tand (tnot 0) (table (gate_at initial_state 0)))
                            (tand full_mask (table (gate_at initial_state 0)))
                            next_inbits_bit0 initial_state
          = Ret (fd, s1)
        /\ fd <> NO_GATE
        /\ mux_or NO_GATE (create_circuit_fuel NO_GATE 6) 0 full_mask
                  (table (gate_at initial_state 0)) next_inbits_bit0 0 initial_state
           = Ret (o, nst)
        /\ o <> NO_GATE
        /\ state_ext initial_state nst /\ num_gates initial_state < num_gates nst
        /\ o = num_gates nst - 1
        /\ ttable_equals_mask 0 (table (gate_at nst o)) full_mask = true).
Proof.
  destruct (mux_calls_correct NO_GATE 6 initial_state 0 full_mask next_inbits_bit0 0
              initial_state_ok is_ttable_full_mask ltac:(lia)) as [Hand Hor].
  split.
  - eexists. eexists.
    assert (H : mux_and (create_circuit_fuel NO_GATE 6) 0 full_mask
                        (table (gate_at initial_state 0)) next_inbits_bit0 0 initial_state
                = Ret (9, _)) by (vm_compute; reflexivity).
    assert (Hne : 9 <> NO_GATE) by (rewrite NO_GATE_value; lia).
    split; [exact H |]. split; [exact Hne |]. exact (Hand _ _ H Hne).
  - eexists. eexists. eexists. eexists.
    assert (H1 : create_circuit_fuel NO_GATE 6
                   (tand (tnot 0) (table (gate_at initial_state 0)))
                   (tand full_mask (table (gate_at initial_state 0)))
                   next_inbits_bit0 initial_state
                 = Ret (0, _)) by (vm_compute; reflexivity).
    assert (H2 : mux_or NO_GATE (create_circuit_fuel NO_GATE 6) 0 full_mask
                        (table (gate_at initial_state 0)) next_inbits_bit0 0 initial_state
                 = Ret (9, _)) by (vm_compute; reflexivity).
    assert (Hne0 : 0 <> NO_GATE) by (rewrite NO_GATE_value; lia).
    assert (Hne : 9 <> NO_GATE) by (rewrite NO_GATE_value; lia).
    split; [exact H1 |]. split; [exact Hne0 |]. split; [exact H2 |].
    split; [exact Hne |]. exact (Hor _ _ _ _ H1 Hne0 H2 Hne).
Defined.

(** ** The networks that are built *)

(** X12.  [create_circuit] keeps a wired network wired: if in the state it
    is called on every gate is wired as its kind says -- an input gate
    with the table of its input bit, a NOT gate with the inverse of the
    table of its one input, an AND, OR or XOR gate with that operator
    applied to the tables of its two inputs, all inputs being earlier
    gates -- then so is every gate of the state it returns. *)
Theorem create_circuit_wired (u : Z) (st : state) (target mask : ttable)
    (inbits : list Z) (r : Z) (st' : state) :
  state_ok st -> wired st -> is_ttable mask ->
  create_circuit u target mask inbits st = Ret (r, st') ->
  wired st'.
Proof.
  intros Hok Hw Hmask Hrun.
  apply (create_circuit_fuel_wired u 7 target mask inbits st r st' Hok Hw);
    [now apply is_ttable_high_clear | exact Hrun].
Qed.

Lemma create_circuit_wired_witness :
  exists r st',
    create_circuit NO_GATE 0 full_mask no_inbits initial_state = Ret (r, st')
    /\ wired st'.
Proof.
  eexists. eexists. split; [exact create_circuit_zero |].
  exact (create_circuit_wired _ _ _ _ _ _ _ initial_state_ok wired_initial_state
           is_ttable_full_mask create_circuit_zero).
Defined.

(** X13.  In a wired network the table stored with a gate is the truth
    table of the gate: for every input byte [x], bit [x] of the table is
    the value that the network computes at this gate on [x]. *)
Theorem wired_circuit_value (st : state) (i x : Z) :
  wired st -> 0 <= i < num_gates st -> 0 <= x < 256 ->
  circuit_value st x i = tbit (table (gate_at st i)) x.
Proof.
  intros Hw Hi Hx. unfold circuit_value.
  apply eval_gate_table; try assumption. lia.
Qed.

Lemma wired_circuit_value_witness :
  circuit_value initial_state 5 3 = tbit (table (gate_at initial_state 3)) 5.
Proof.
  apply (wired_circuit_value initial_state 3 5).
  - exact wired_initial_state.
  - rewrite num_gates_initial_state. lia.
  - lia.
Defined.

(** ** A run of the loop of [main] on a loaded state *)

(** On the state with the lookup network for output bit 0, the round for
    output 0 finds the network in step 1 and saves one file. *)
Lemma lookup_run :
  exists final f, main_loop NO_GATE lookup_state [0] = Ret (final, [f]).
Proof. vm_compute. eexists. eexists. reflexivity. Qed.

Lemma saved_circuits_compute_sbox_witness :
  exists final f,
    main_loop NO_GATE lookup_state [0] = Ret (final, [f])
    /\ Forall (fun f => exists o, In o [0] /\ saved_for f o) [f].
Proof.
  destruct lookup_run as (final & f & Hrun). exists final, f.
  split; [exact Hrun |].
  destruct lookup_state_ok as (Hok & Hw & _).
  apply (saved_circuits_compute_sbox NO_GATE [0] lookup_state final [f] Hok Hw);
    [| exact Hrun].
  intros o [<- | []]. lia.
Defined.

Lemma main_loop_no_abort_witness :
  exists final files, main_loop NO_GATE initial_state (for_range 0 8) = Ret (final, files).
Proof.
  apply (main_loop_no_abort (for_range 0 8) initial_state).
  - exact initial_state_ok.
  - exact wired_initial_state.
  - exact initial_state_inputs_ok.
  - intros o Ho. now apply in_for_range in Ho.
Defined.

Lemma main_loop_file_names_witness :
  exists final f,
    main_loop NO_GATE lookup_state [0] = Ret (final, [f])
    /\ final = set_max_gates lookup_state (budget_after (max_gates lookup_state) [f])
    /\ gate_counts_within (max_gates lookup_state) [f]
    /\ Forall (saved_named lookup_state) [f].
Proof.
  destruct lookup_run as (final & f & Hrun). exists final, f.
  split; [exact Hrun |].
  destruct lookup_state_ok as (Hok & _ & _).
  apply (main_loop_file_names NO_GATE [0] lookup_state final [f] Hok); [| exact Hrun].
  intros o [<- | []]. lia.
Defined.

(** ** The text printed by [print_ttable] *)

Lemma store_lanes_bit (tbl : ttable) (i : Z) :
  0 <= i < 256 ->
  Z.testbit (store_lanes tbl !!! Z.to_nat (i / 64)) (i mod 64) = Z.testbit tbl i.
Proof.
  intros Hi.
  assert (Hm : 0 <= i mod 64 < 64) by (apply Z.mod_pos_bound; lia).
  assert (Hd : i = 64 * (i / 64) + i mod 64) by (apply Z.div_mod; lia).
  assert (Hq : i / 64 = 0 \/ i / 64 = 1 \/ i / 64 = 2 \/ i / 64 = 3) by lia.
  destruct Hq as [Hq | [Hq | [Hq | Hq]]]; rewrite Hq in *.
  - change (store_lanes tbl !!! Z.to_nat 0) with (wrap64 tbl).
    unfold wrap64. rewrite Z.mod_pow2_bits_low by lia. f_equal. lia.
  - change (store_lanes tbl !!! Z.to_nat 1) with (wrap64 (Z.shiftr tbl 64)).
    unfold wrap64. rewrite Z.mod_pow2_bits_low, Z.shiftr_spec by lia. f_equal. lia.
  - change (store_lanes tbl !!! Z.to_nat 2) with (wrap64 (Z.shiftr tbl 128)).
    unfold wrap64. rewrite Z.mod_pow2_bits_low, Z.shiftr_spec by lia. f_equal. lia.
  - change (store_lanes tbl !!! Z.to_nat 3) with (wrap64 (Z.shiftr tbl 192)).
    unfold wrap64. rewrite Z.mod_pow2_bits_low, Z.shiftr_spec by lia. f_equal. lia.
Qed.

Lemma pretty_bit (b : bool) : pretty (Z.b2z b) = String (bit_char b) EmptyString.
Proof. destruct b; reflexivity. Qed.

(** The loop of [print_ttable] prints the bits in the order of their
    indices, whatever the lanes. *)
Lemma print_ttable_fold (tbl : ttable) (n : nat) :
  forall a out var,
    0 <= a -> a + Z.of_nat n <= 256 ->
    (0 < a -> var = Z.to_nat ((a - 1) / 64)) -> (a = 0 -> var = 0%nat) ->
    fst (fold_left (print_ttable_step (store_lanes tbl)) (seqZ a (Z.of_nat n)) (out, var))
    = fold_left (fun out i =>
          (if negb (i =? 0) && (i mod 16 =? 0) then out +:+ newline else out)
          +:+ String (bit_char (tbit tbl i)) EmptyString)
        (seqZ a (Z.of_nat n)) out.
Proof.
  induction n as [| n IH]; intros a out var Ha Hn Hvar Hvar0; [reflexivity |].
  rewrite Nat2Z.inj_succ, seqZ_cons by lia.
  replace (Z.pred (Z.succ (Z.of_nat n))) with (Z.of_nat n) by lia.
  cbn [fold_left]. unfold print_ttable_step at 2.
  set (var' := if a =? 64 then 1%nat else if a =? 128 then 2%nat
               else if a =? 192 then 3%nat else var).
  assert (Hvar' : var' = Z.to_nat (a / 64)).
  { unfold var'.
    destruct (Z.eqb_spec a 64) as [-> | H64]; [reflexivity |].
    destruct (Z.eqb_spec a 128) as [-> | H128]; [reflexivity |].
    destruct (Z.eqb_spec a 192) as [-> | H192]; [reflexivity |].
    destruct (Z.eq_dec a 0) as [-> | H0]; [now apply Hvar0 |].
    rewrite Hvar by lia. f_equal.
    assert (Hd : a = 64 * (a / 64) + a mod 64) by (apply Z.div_mod; lia).
    assert (Hm : 0 <= a mod 64 < 64) by (apply Z.mod_pos_bound; lia).
    assert (Hne : a mod 64 <> 0).
    { intros E. assert (a / 64 = 0 \/ a / 64 = 1 \/ a / 64 = 2 \/ a / 64 = 3) by lia. lia. }
    symmetry. apply (Z.div_unique _ _ _ (a mod 64 - 1)); lia. }
  cbv zeta. rewrite Hvar'.
  rewrite land_shiftr_1 by (apply Z.mod_pos_bound; lia).
  rewrite store_lanes_bit by lia. rewrite pretty_bit.
  rewrite <- Hvar'. apply IH; try lia.
  - intros _. rewrite Hvar'. f_equal. f_equal. lia.
Qed.

Lemma print_ttable_ttable_text (tbl : ttable) :
  print_ttable tbl = ttable_text (tbit tbl) 256 +:+ newline.
Proof.
  unfold print_ttable, ttable_text. cbv zeta.
  pose proof (print_ttable_fold tbl 256 0 EmptyString 0%nat) as H.
  change (Z.of_nat 256) with 256 in H.
  destruct (fold_left _ _ _) as [out var]. cbn [fst] in H.
  rewrite H; [reflexivity | lia | lia | lia | reflexivity].
Qed.

Lemma ttable_text_picture (bits : Z -> bool) :
  ttable_text bits 256 +:+ newline = ttable_picture bits.
Proof. vm_compute. reflexivity. Qed.

Lemma get_string_of_list (l : list ascii) (n : nat) :
  String.get n (String.string_of_list_ascii l) = l !! n.
Proof.
  revert n. induction l as [| c l IH]; intros n; [now destruct n |].
  destruct n as [| n]; [reflexivity |]. cbn. apply IH.
Qed.

Lemma length_string_of_list (l : list ascii) :
  String.length (String.string_of_list_ascii l) = length l.
Proof. induction l as [| c l IH]; [reflexivity |]. cbn. now rewrite IH. Qed.

Lemma get_ttable_picture (bits : Z -> bool) (n : nat) :
  (n < 272)%nat -> String.get n (ttable_picture bits) = Some (picture_char bits n).
Proof.
  intros Hn. unfold ttable_picture. rewrite get_string_of_list.
  rewrite list_lookup_fmap, lookup_seq_lt by assumption. reflexivity.
Qed.

(** X17.  [print_ttable] prints 272 characters: the 256 bits of the table
    in the order of their indices, as the digits 0 and 1, sixteen to a
    line, every line ended by a newline.  Character number [i + i / 16] is
    the digit of bit [i], and the characters 16, 33, 50, ... are the
    newlines. *)
Theorem print_ttable_text (tbl : ttable) :
  String.length (print_ttable tbl) = 272%nat
  /\ (forall i, 0 <= i < 256 ->
        String.get (Z.to_nat (i + i / 16)) (print_ttable tbl)
        = Some (if tbit tbl i then "1"%char else "0"%char))
  /\ (forall r, 0 <= r < 16 ->
        String.get (Z.to_nat (17 * r + 16)) (print_ttable tbl) = Some "010"%char).
Proof.
  rewrite print_ttable_ttable_text, ttable_text_picture.
  split; [| split].
  - unfold ttable_picture. rewrite length_string_of_list, length_fmap, length_seq.
    reflexivity.
  - intros i Hi.
    assert (Hd : i = 16 * (i / 16) + i mod 16) by (apply Z.div_mod; lia).
    assert (Hm : 0 <= i mod 16 < 16) by (apply Z.mod_pos_bound; lia).
    assert (Hn : Z.to_nat (i + i / 16)
                 = (17 * Z.to_nat (i / 16) + Z.to_nat (i mod 16))%nat) by lia.
    rewrite get_ttable_picture by lia. unfold picture_char.
    assert (Hmod : (Z.to_nat (i + i / 16) mod 17 = Z.to_nat (i mod 16))%nat).
    { rewrite Hn. symmetry.
      apply (Nat.mod_unique _ _ (Z.to_nat (i / 16))); lia. }
    assert (Hdiv : (Z.to_nat (i + i / 16) / 17 = Z.to_nat (i / 16))%nat).
    { rewrite Hn. symmetry.
      apply (Nat.div_unique _ _ _ (Z.to_nat (i mod 16))); lia. }
    rewrite Hmod, Hdiv.
    replace (Z.to_nat (i mod 16) =? 16)%nat with false
      by (symmetry; apply Nat.eqb_neq; lia).
    replace (Z.of_nat (16 * Z.to_nat (i / 16) + Z.to_nat (i mod 16))) with i by lia.
    reflexivity.
  - intros r Hr.
    rewrite get_ttable_picture by lia. unfold picture_char.
    assert (Hmod : (Z.to_nat (17 * r + 16) mod 17 = 16)%nat).
    { symmetry. apply (Nat.mod_unique _ _ (Z.to_nat r)); lia. }
    rewrite Hmod. reflexivity.
Qed.

(** ** The graph printed by [print_digraph] *)

Lemma and_state_run : add_binary_gate AND tand 0 1 initial_state = Ret (8, and_state).
Proof. vm_compute. reflexivity. Qed.

Lemma and_state_ok : state_ok and_state /\ wired and_state.
Proof.
  assert (Hc : composer 1 (add_binary_gate AND tand 0 1))
    by (apply composer_binary; [apply binary_op_and | lia | lia]).
  destruct (composer_keeps _ _ Hc _ _ _ initial_state_ok wired_initial_state
              and_state_run) as (? & ? & _).
  auto.
Qed.

Lemma num_gates_and_state : num_gates and_state = 9.
Proof. unfold and_state. rewrite num_gates_push, num_gates_initial_state. reflexivity. Qed.

(** X18.  For a gate of a well-formed wired network [print_digraph]
    prints its node line and, in the second loop, exactly the wires of the
    gate: no edge for an input gate, one edge for a NOT gate, two edges
    for an AND, OR or XOR gate, each from an earlier gate to this gate. *)
Theorem print_digraph_edges (st : state) (gt : Z) :
  state_ok st -> wired st -> 0 <= gt < num_gates st ->
  In (node_line st gt) (print_digraph st)
  /\ incl (gate_edges st gt) (print_digraph st)
  /\ match type (gate_at st gt) with
     | IN => gate_edges st gt = []
     | NOT =>
         gate_edges st gt = [edge_line (in1 (gate_at st gt)) gt]
         /\ 0 <= in1 (gate_at st gt) < gt
     | AND | OR | XOR =>
         gate_edges st gt = [edge_line (in1 (gate_at st gt)) gt;
                             edge_line (in2 (gate_at st gt)) gt]
         /\ 0 <= in1 (gate_at st gt) < gt /\ 0 <= in2 (gate_at st gt) < gt
     end.
Proof.
  intros Hok Hw Hgt.
  assert (Hrange : gt ∈ for_range 0 (num_gates st))
    by now apply list_elem_of_In, in_for_range.
  split; [| split].
  - unfold print_digraph. apply in_or_app. right. apply in_or_app. left.
    apply list_elem_of_In, list_elem_of_fmap. eauto.
  - intros l Hl. unfold print_digraph.
    apply in_or_app. right. apply in_or_app. right. apply in_or_app. left.
    apply in_concat. exists (gate_edges st gt).
    split; [apply list_elem_of_In, list_elem_of_fmap; eauto | assumption].
  - pose proof (ok_budget _ Hok) as Hbud. pose proof (ok_max _ Hok) as Hmax.
    unfold MAX_GATES in Hmax.
    assert (Hno : forall a, a < gt -> (a =? NO_GATE) = false)
      by (intros a Ha; apply Z.eqb_neq; rewrite NO_GATE_value; lia).
    destruct (Hw gt Hgt) as [_ Hg]. cbv zeta in Hg. unfold gate_edges. cbv zeta.
    destruct (type (gate_at st gt)).
    + destruct Hg as (_ & -> & -> & _). reflexivity.
    + destruct Hg as (H1 & -> & _). rewrite (Hno _ (proj2 H1)). auto.
    + destruct Hg as (H1 & H2 & _). rewrite (Hno _ (proj2 H1)), (Hno _ (proj2 H2)). auto.
    + destruct Hg as (H1 & H2 & _). rewrite (Hno _ (proj2 H1)), (Hno _ (proj2 H2)). auto.
    + destruct Hg as (H1 & H2 & _). rewrite (Hno _ (proj2 H1)), (Hno _ (proj2 H2)). auto.
Qed.

Lemma print_digraph_edges_witness :
  In (node_line and_state 8) (print_digraph and_state)
  /\ incl (gate_edges and_state 8) (print_digraph and_state)
  /\ match type (gate_at and_state 8) with
     | IN => gate_edges and_state 8 = []
     | NOT =>
         gate_edges and_state 8 = [edge_line (in1 (gate_at and_state 8)) 8]
         /\ 0 <= in1 (gate_at and_state 8) < 8
     | AND | OR | XOR =>
         gate_edges and_state 8 = [edge_line (in1 (gate_at and_state 8)) 8;
                                   edge_line (in2 (gate_at and_state 8)) 8]
         /\ 0 <= in1 (gate_at and_state 8) < 8 /\ 0 <= in2 (gate_at and_state 8) < 8
     end.
Proof.
  destruct and_state_ok as [Hok Hw].
  apply (print_digraph_edges and_state 8 Hok Hw).
  rewrite num_gates_and_state. lia.
Defined.

(** ** The split keeps a smallest candidate *)

Lemma split_on_bit_candidate u cc st target mask inbits next bitp best bit :
  split_on_bit u cc st target mask inbits next bitp best bit
  = match bit_candidate u cc st target mask inbits next bitp bit with
    | Ret None => Ret best
    | Ret (Some nst) =>
        Ret (if (num_gates best =? 0) || (num_gates nst <? num_gates best)
             then nst else best)
    | AssertFail => AssertFail
    | OutOfFuel => OutOfFuel
    end.
Proof.
  unfold split_on_bit, bit_candidate.
  destruct (existsb _ _); [reflexivity |]. cbv zeta.
  destruct (mux_and cc target mask _ _ bit st) as [[a sa] | |]; try reflexivity.
  destruct (mux_or u cc target mask _ _ bit st) as [[o so] | |]; try reflexivity.
  destruct (_ && _); [reflexivity |].
  destruct (mux_select a sa o so) as [nst mux_out].
  destruct (ttable_equals_mask _ _ _); reflexivity.
Qed.

(** A candidate is a well-formed state, so it has gates. *)
Lemma bit_candidate_ok u fuel st target mask inbits next bitp bit nst :
  state_ok st -> high_clear mask -> 0 <= bit < 8 ->
  bit_candidate u (create_circuit_fuel u fuel) st target mask inbits next bitp bit
    = Ret (Some nst) ->
  state_ok nst.
Proof.
  intros Hok Hm Hbit Hrun. unfold bit_candidate in Hrun.
  destruct (existsb _ _); [discriminate |]. cbv zeta in Hrun.
  destruct (mux_and _ target mask _ _ bit st) as [[a sa] | |] eqn:Ea; try discriminate.
  destruct (mux_or u _ target mask _ _ bit st) as [[o so] | |] eqn:Eo; try discriminate.
  destruct (mux_and_post _ (create_circuit_fuel_post u fuel) _ _ _ _ _ _ _ Hok Hm Hbit Ea)
    as (Hoka & _).
  destruct (mux_or_post u _ (create_circuit_fuel_post u fuel) _ _ _ _ _ _ _ Hok Hm Hbit Eo)
    as (Hoko & _).
  destruct (_ && _); [discriminate |].
  unfold mux_select in Hrun.
  destruct (_ || _); destruct (ttable_equals_mask _ _ _); try discriminate;
    now injection Hrun as <-.
Qed.

Lemma split_loop_smallest u fuel st target mask inbits next bitp bits :
  state_ok st -> high_clear mask -> (forall bit, In bit bits -> 0 <= bit < 8) ->
  forall seen best best',
    smallest_of (bit_candidate u (create_circuit_fuel u fuel) st target mask inbits next
                   bitp) seen best ->
    split_loop u (create_circuit_fuel u fuel) st target mask inbits next bitp best bits
      = Ret best' ->
    smallest_of (bit_candidate u (create_circuit_fuel u fuel) st target mask inbits next
                   bitp) (seen ++ bits) best'.
Proof.
  intros Hok Hm. induction bits as [| x bits IH]; intros Hbits seen best best' Hinv Hrun.
  - cbn [split_loop] in Hrun. injection Hrun as <-. now rewrite app_nil_r.
  - cbn [split_loop] in Hrun. rewrite split_on_bit_candidate in Hrun.
    pose proof (Hbits x (or_introl eq_refl)) as Hx.
    replace (seen ++ x :: bits) with ((seen ++ [x]) ++ bits)
      by (rewrite <- app_assoc; reflexivity).
    destruct (bit_candidate u _ st target mask inbits next bitp x) as [[nst |] | |] eqn:Ec;
      try discriminate.
    + pose proof (bit_candidate_ok _ _ _ _ _ _ _ _ _ _ Hok Hm Hx Ec) as Hnst.
      pose proof (ok_inputs _ Hnst) as Hn8.
      refine (IH (fun b H => Hbits b (or_intror H)) (seen ++ [x]) _ best' _ Hrun).
      destruct Hinv as [[-> Hnone] | (Hne & l1 & b & l2 & -> & Hb & Hl1 & Hl2)].
      * cbn [best_init num_gates Z.eqb orb]. right. split; [lia |].
        exists seen, x, []. split; [reflexivity |]. split; [assumption |].
        split; [| intros b' n' []].
        intros b' n' Hb' Hc. rewrite (Hnone b' Hb') in Hc. discriminate.
      * destruct (Z.eqb_spec (num_gates best) 0) as [? | _]; [contradiction |].
        cbn [orb]. destruct (Z.ltb_spec (num_gates nst) (num_gates best)) as [Hlt | Hge].
        -- right. split; [lia |].
           exists (l1 ++ b :: l2), x, []. split; [reflexivity |]. split; [assumption |].
           split; [| intros b' n' []].
           intros b' n' Hb' Hc. apply in_app_or in Hb' as [Hb' | [<- | Hb']].
           ++ specialize (Hl1 _ _ Hb' Hc). lia.
           ++ rewrite Hb in Hc. injection Hc as <-. lia.
           ++ specialize (Hl2 _ _ Hb' Hc). lia.
        -- right. split; [assumption |].
           exists l1, b, (l2 ++ [x]).
           split; [rewrite <- app_assoc; reflexivity |]. split; [assumption |].
           split; [assumption |].
           intros b' n' Hb' Hc. apply in_app_or in Hb' as [Hb' | [<- | []]].
           ++ now apply (Hl2 b' n').
           ++ rewrite Ec in Hc. injection Hc as <-. lia.
    + refine (IH (fun b H => Hbits b (or_intror H)) (seen ++ [x]) _ best' _ Hrun).
      destruct Hinv as [[-> Hnone] | (Hne & l1 & b & l2 & -> & Hb & Hl1 & Hl2)].
      * left. split; [reflexivity |].
        intros b' Hb'. apply in_app_or in Hb' as [Hb' | [<- | []]]; auto.
      * right. split; [assumption |].
        exists l1, b, (l2 ++ [x]).
        split; [rewrite <- app_assoc; reflexivity |]. split; [assumption |].
        split; [assumption |].
        intros b' n' Hb' Hc. apply in_app_or in Hb' as [Hb' | [<- | []]].
        -- now apply (Hl2 b' n').
        -- rewrite Ec in Hc. discriminate.
Qed.

(** X19.  The loop of the split over the input bits keeps the smallest
    candidate: [best] stays as initialised, with a gate count of 0, only
    when no bit offers a candidate; else it ends as the candidate of the
    first bit whose candidate has the fewest gates -- fewer than every
    candidate of an earlier bit and no more than any candidate of a later
    bit. *)
Theorem split_keeps_smallest (u : Z) (fuel : nat) (st : state) (target mask : ttable)
    (inbits next : list Z) (bitp : Z) (bits : list Z) (best : state) :
  state_ok st -> is_ttable mask -> (forall bit, In bit bits -> 0 <= bit < 8) ->
  split_loop u (create_circuit_fuel u fuel) st target mask inbits next bitp best_init bits
    = Ret best ->
  smallest_of (bit_candidate u (create_circuit_fuel u fuel) st target mask inbits next bitp)
              bits best.
Proof.
  intros Hok Hmask Hbits Hrun.
  apply (split_loop_smallest u fuel st target mask inbits next bitp bits Hok
           (is_ttable_high_clear _ Hmask) Hbits [] best_init best); [| exact Hrun].
  left. split; [reflexivity | intros b []].
Qed.

Lemma split_keeps_smallest_witness :
  exists best,
    split_loop NO_GATE (create_circuit_fuel NO_GATE 6) initial_state 0 full_mask no_inbits
               next_inbits_bit0 0 best_init (for_range 0 8) = Ret best
    /\ smallest_of (bit_candidate NO_GATE (create_circuit_fuel NO_GATE 6) initial_state 0
                      full_mask no_inbits next_inbits_bit0 0)
                   (for_range 0 8) best.
Proof.
  eexists.
  assert (H : split_loop NO_GATE (create_circuit_fuel NO_GATE 6) initial_state 0 full_mask
                no_inbits next_inbits_bit0 0 best_init (for_range 0 8) = Ret _)
    by (vm_compute; reflexivity).
  split; [exact H |].
  apply (split_keeps_smallest NO_GATE 6 initial_state 0 full_mask no_inbits next_inbits_bit0
           0 (for_range 0 8) _ initial_state_ok is_ttable_full_mask); [| exact H].
  intros bit Hb. now apply in_for_range in Hb.
Defined.

(** * The contract of [add_gate] on the states of a run *)

(** C7.  On a well-formed state -- the budget is honoured, so
    [num_gates <= max_gates] -- for a gate that is not an input gate and
    whose inputs are existing gates or [NO_GATE], [add_gate] returns
    [NO_GATE] exactly when a required input is [NO_GATE] ([gid1] always,
    [gid2] unless the kind is [NOT]) or the budget is full
    ([num_gates = max_gates]), and then leaves the state as it is;
    otherwise it appends one gate with the given kind, table and inputs
    and returns its index, which is the previous [num_gates]. *)
Theorem add_gate_none_iff (st : state) (ty : gate_type) (t : ttable) (g1 g2 : Z) :
  state_ok st -> ty <> IN ->
  (g1 = NO_GATE \/ 0 <= g1 < num_gates st) ->
  (g2 = NO_GATE \/ 0 <= g2 < num_gates st) ->
  exists r st',
    add_gate ty t g1 g2 st = Ret (r, st')
    /\ (r = NO_GATE <-> input_missing ty g1 g2 \/ num_gates st = max_gates st)
    /\ (r = NO_GATE -> st' = st)
    /\ (r <> NO_GATE ->
        r = num_gates st
        /\ num_gates st' = num_gates st + 1
        /\ max_gates st' = max_gates st
        /\ outputs st' = outputs st
        /\ gate_at st' r = mkgate ty t g1 g2
        /\ forall i, i <> r -> gate_at st' i = gate_at st i).
Proof.
  intros Hok Hty H1 H2.
  pose proof (ok_length _ Hok) as Hlen. pose proof (ok_inputs _ Hok) as Hin.
  pose proof (ok_budget _ Hok) as Hbud. pose proof (ok_max _ Hok) as Hmax.
  assert (Hn : 0 <= num_gates st) by lia.
  destruct (add_gate_ends st ty t g1 g2 Hlen Hn Hmax) as (Emiss & _ & Efull & _).
  destruct ((g1 =? NO_GATE) || ((g2 =? NO_GATE) && negb (gate_type_eqb ty NOT))) eqn:Em.
  - apply input_missing_dec in Em.
    exists NO_GATE, st. split; [now apply Emiss |].
    split; [split; auto |]. split; [reflexivity | intros []; reflexivity].
  - assert (Hmiss : ~ input_missing ty g1 g2)
      by (rewrite <- input_missing_dec, Em; discriminate).
    assert (Hass : add_gate_asserts st ty g1 g2).
    { unfold add_gate_asserts, input_missing in *.
      split; [assumption |]. split; [tauto |].
      destruct H2 as [-> | H2]; [| left; lia].
      right. destruct ty; try reflexivity; exfalso; apply Hmiss; right;
        (split; [reflexivity | discriminate]). }
    destruct (Z.eq_dec (num_gates st) (max_gates st)) as [Heq | Hne].
    + exists NO_GATE, st. split; [apply Efull; [assumption | assumption | lia] |].
      split; [split; auto |]. split; [reflexivity | intros []; reflexivity].
    + assert (Hlt : num_gates st < max_gates st) by lia.
      assert (Hr : num_gates st <> NO_GATE) by (apply NO_GATE_large; lia).
      exists (num_gates st), (push_gate st (mkgate ty t g1 g2)).
      split; [now apply add_gate_push |].
      split; [split; [contradiction | intros [? | ?]; contradiction] |].
      split; [contradiction |]. intros _.
      split; [reflexivity |]. split; [apply num_gates_push |].
      split; [reflexivity |]. split; [reflexivity |].
      split.
      * apply gate_at_push_same; [assumption | lia].
      * intros i Hi. now apply gate_at_push_other.
Qed.

Lemma add_gate_none_iff_witness :
  exists r st',
    add_gate XOR 0 0 1 initial_state = Ret (r, st')
    /\ (r = NO_GATE
        <-> input_missing XOR 0 1 \/ num_gates initial_state = max_gates initial_state)
    /\ (r = NO_GATE -> st' = initial_state)
    /\ (r <> NO_GATE ->
        r = num_gates initial_state
        /\ num_gates st' = num_gates initial_state + 1
        /\ max_gates st' = max_gates initial_state
        /\ outputs st' = outputs initial_state
        /\ gate_at st' r = mkgate XOR 0 0 1
        /\ forall i, i <> r -> gate_at st' i = gate_at initial_state i).
Proof.
  apply (add_gate_none_iff initial_state XOR 0 0 1 initial_state_ok).
  - discriminate.
  - right. rewrite num_gates_initial_state. lia.
  - right. rewrite num_gates_initial_state. lia.
Defined.

(** * The state the next output starts from *)

Lemma set_max_gates_same st : set_max_gates st (max_gates st) = st.
Proof. now destruct st. Qed.

Lemma loaded_state_ok : state_ok loaded_state.
Proof.
  unfold loaded_state, state_from_file.
  assert (Hp : state_ok (push_gate initial_state (mkgate XOR (tnot (g_target !!! 0%nat)) 0 1))).
  { apply state_ok_push; [apply initial_state_ok |].
    rewrite num_gates_initial_state, max_gates_initial_state. reflexivity. }
  apply state_ok_set_max_gates; [assumption |].
  rewrite num_gates_push, num_gates_initial_state. unfold MAX_GATES. lia.
Qed.

(** C2 (as amended).  Whenever the body of the loop returns,
    [default_state] -- the state from which the next output is
    synthesized -- has the gates, the gate count and the outputs it had
    before.  After a successful synthesis of an unassigned output, the
    state [create_circuit] left, which is [default_state] with gates
    appended, is saved with [outputs[output]] set to the returned gate,
    and [default_state] changes in [max_gates] only, which becomes the
    gate count just achieved, never more than it was.  (The table of the
    returned gate is a 256-bit vector, as every [ttable] of the program
    is.) *)
Theorem main_loop_body_next_state (u : Z) (ds : state) (output : Z) :
  state_ok ds -> 0 <= output < 8 ->
  (forall ds' files,
     main_loop_body u ds output = Ret (ds', files) ->
     gates ds' = gates ds /\ num_gates ds' = num_gates ds /\ outputs ds' = outputs ds
     /\ forall todo,
          main_loop u ds (output :: todo)
          = match main_loop u ds' todo with
            | Ret (final, files') => Ret (final, files ++ files')
            | AssertFail => AssertFail
            | OutOfFuel => OutOfFuel
            end)
  /\ (forall r st',
        outputs ds !!! Z.to_nat output = NO_GATE ->
        create_circuit u (g_target !!! Z.to_nat output) full_mask no_inbits ds
          = Ret (r, st') ->
        r <> NO_GATE ->
        is_ttable (table (gate_at st' r)) ->
        exists f,
          main_loop_body u ds output = Ret (set_max_gates ds (num_gates st'), [f])
          /\ saved_st f = set_output st' output r
          /\ outputs (saved_st f) !!! Z.to_nat output = r
          /\ state_ext ds st'
          /\ num_gates st' <= max_gates ds).
Proof.
  intros Hok Ho. split.
  - intros ds' files Hrun.
    destruct (main_loop_body_frame u ds output ds' files Hrun) as (Hg & Hn & Hout & Hloop & _).
    auto.
  - intros r st' Hunset Hcc Hr Htab.
    pose proof Hcc as Hpost.
    apply create_circuit_fuel_post in Hpost as (Hok' & Hext & _ & Hs);
      [| assumption | apply is_ttable_high_clear, is_ttable_full_mask].
    destruct (Hs Hr) as ([Hrange Hmatch] & _).
    rewrite equals_full_mask in Hmatch; [| now apply g_target_is_ttable | assumption].
    pose proof Hext as (Hmaxeq & Hout & _).
    assert (Hlen : (Z.to_nat output < length (outputs ds))%nat).
    { destruct (outputs ds !! Z.to_nat output) eqn:E; [eapply lookup_lt_Some; exact E |].
      rewrite list_lookup_total_alt, E in Hunset. vm_compute in Hunset. discriminate. }
    assert (Hset : outputs (set_output st' output r) !!! Z.to_nat output = r).
    { cbn [set_output outputs]. rewrite list_lookup_total_insert, Hout.
      destruct (decide _) as [_ | Hno]; [reflexivity |].
      exfalso. apply Hno. split; [reflexivity | exact Hlen]. }
    assert (Hle : num_gates st' <= max_gates ds).
    { rewrite <- Hmaxeq. apply (ok_budget _ Hok'). }
    eexists. split.
    { unfold main_loop_body. fold no_inbits.
      rewrite Hunset, Z.eqb_refl. cbn [negb]. cbv zeta. rewrite Hcc.
      rewrite Hset. apply Z.eqb_neq in Hr. rewrite Hr.
      change (gate_at (set_output st' output r) r) with (gate_at st' r).
      rewrite Hmatch. cbn [negb].
      change (num_gates (set_output st' output r)) with (num_gates st').
      destruct (Z.gtb_spec (max_gates ds) (num_gates st')) as [Hgt | Hge].
      - reflexivity.
      - replace (num_gates st') with (max_gates ds) at 2 by lia.
        rewrite set_max_gates_same. reflexivity. }
    cbn [saved_st]. split; [reflexivity |]. split; [exact Hset |]. split; assumption.
Qed.

Lemma main_loop_body_next_state_witness :
  exists st' f,
    create_circuit NO_GATE (g_target !!! Z.to_nat 0) full_mask no_inbits loaded_state
      = Ret (9, st')
    /\ main_loop_body NO_GATE loaded_state 0
       = Ret (set_max_gates loaded_state (num_gates st'), [f])
    /\ saved_st f = set_output st' 0 9
    /\ outputs (saved_st f) !!! Z.to_nat 0 = 9
    /\ state_ext loaded_state st'
    /\ num_gates st' <= max_gates loaded_state.
Proof.
  eexists.
  assert (Hcc : create_circuit NO_GATE (g_target !!! Z.to_nat 0) full_mask no_inbits
                  loaded_state = Ret (9, _))
    by (vm_compute; reflexivity).
  assert (Ho : 0 <= 0 < 8) by lia.
  destruct (main_loop_body_next_state NO_GATE loaded_state 0 loaded_state_ok Ho)
    as [_ Hnext].
  assert (Hun : outputs loaded_state !!! Z.to_nat 0 = NO_GATE) by (vm_compute; reflexivity).
  assert (H9 : 9 <> NO_GATE) by (rewrite NO_GATE_value; lia).
  lazymatch type of Hcc with
  | _ = Ret (_, ?s) =>
      assert (Htab : is_ttable (table (gate_at s 9)))
        by (split; [apply Z.leb_le | apply Z.ltb_lt]; vm_compute; reflexivity);
      destruct (Hnext 9 s Hun Hcc H9 Htab) as (f & Hf)
  end.
  exists f. split; [exact Hcc | exact Hf].
Defined.
